(** * Story checker task pane: outline reconstruction, text location,
      annotation passes and scope priority

    A shallow embedding of the Word add-in's task pane script
    ([taskpane.ts], in its current and its earlier revision) together with
    the properties its design document states about it.

    Conventions.
    - A JavaScript string is the list of its UTF-16 code units, so that
      [length], [substring] and the length guards of the script count what
      the script counts.  Literals are written as UTF-8 text and decoded
      by [js].
    - A JavaScript number that only takes part in comparisons, [Math.floor]
      and [Math.round] is a rational; every double is one, and these
      operations are exact on doubles.
    - Objects that the script creates once and then mutates through several
      references (the summaries and messages of the outline) live in an
      explicit heap and are referred to by their index.
    - The editor (Word) is a collaborator: its search, its comment store and
      its refusal to attach a comment are parameters of the development. *)

From Stdlib Require Import ZArith NArith QArith Qround Lia String Ascii Sorted.
From stdpp Require Import base option list gmap.

(** ** JavaScript strings *)

Module JS.

(** A string value: its UTF-16 code units. *)
Definition jsstring := list N.

(** Decoding of a UTF-8 byte sequence into UTF-16 code units; a code point
    above the basic plane becomes a surrogate pair. *)
Fixpoint utf8_decode (bs : list N) : jsstring :=
  match bs with
  | [] => []
  | b0 :: r0 =>
      if (b0 <? 0x80)%N then b0 :: utf8_decode r0
      else if (b0 <? 0xE0)%N then
        match r0 with
        | b1 :: r1 =>
            N.lor (N.shiftl (N.land b0 0x1F) 6) (N.land b1 0x3F) :: utf8_decode r1
        | [] => []
        end
      else if (b0 <? 0xF0)%N then
        match r0 with
        | b1 :: b2 :: r2 =>
            N.lor (N.shiftl (N.land b0 0x0F) 12)
              (N.lor (N.shiftl (N.land b1 0x3F) 6) (N.land b2 0x3F))
              :: utf8_decode r2
        | _ => []
        end
      else
        match r0 with
        | b1 :: b2 :: b3 :: r3 =>
            let cp :=
              N.lor (N.shiftl (N.land b0 0x07) 18)
                (N.lor (N.shiftl (N.land b1 0x3F) 12)
                   (N.lor (N.shiftl (N.land b2 0x3F) 6) (N.land b3 0x3F))) in
            let v := (cp - 0x10000)%N in
            (0xD800 + N.shiftr v 10)%N :: (0xDC00 + N.land v 0x3FF)%N
              :: utf8_decode r3
        | _ => []
        end
  end.

(** A string literal of the script. *)
Definition js (s : string) : jsstring :=
  utf8_decode (map N_of_ascii (list_ascii_of_string s)).

(** [===] on two strings. *)
Definition eqb (s t : jsstring) : bool := bool_decide (s = t).

(** White space as [String.prototype.trim] and the regular expression class
    [\s] see it: the WhiteSpace and LineTerminator code points. *)
Definition isWhiteSpace (c : N) : bool :=
  ((c =? 0x0009) || (c =? 0x000A) || (c =? 0x000B) || (c =? 0x000C)
   || (c =? 0x000D) || (c =? 0x0020) || (c =? 0x00A0) || (c =? 0x1680)
   || ((0x2000 <=? c) && (c <=? 0x200A))
   || (c =? 0x2028) || (c =? 0x2029) || (c =? 0x202F) || (c =? 0x205F)
   || (c =? 0x3000) || (c =? 0xFEFF))%N.

(** The class [\d]. *)
Definition isDigit (c : N) : bool := ((0x30 <=? c) && (c <=? 0x39))%N.

Fixpoint dropWhile (p : N -> bool) (s : jsstring) : jsstring :=
  match s with
  | [] => []
  | c :: s' => if p c then dropWhile p s' else s
  end.

Definition trimStart (s : jsstring) : jsstring := dropWhile isWhiteSpace s.
Definition trimEnd (s : jsstring) : jsstring :=
  reverse (dropWhile isWhiteSpace (reverse s)).

(** [s.trim()] *)
Definition trim (s : jsstring) : jsstring := trimEnd (trimStart s).

(** [s.substring(0, n)] *)
Definition substring0 (n : nat) (s : jsstring) : jsstring := take n s.

(** [s.startsWith(p)] *)
Definition startsWith (s p : jsstring) : bool :=
  bool_decide (take (length p) s = p).

(** [s.includes(sub)]: [sub] occurs at some position of [s]. *)
Fixpoint includes (s sub : jsstring) : bool :=
  startsWith s sub
  || match s with
     | [] => false
     | _ :: s' => includes s' sub
     end.

(** [s.split(/\s+/)]: the pieces between maximal runs of white space; a run
    at either end leaves an empty piece there, and the empty string splits
    into one empty piece.  [inSep] tells that the scan is inside a run,
    [cur] is the piece read so far. *)
Fixpoint splitWS_from (inSep : bool) (cur : jsstring) (s : jsstring)
  : list jsstring :=
  match s with
  | [] => [cur]
  | c :: s' =>
      if isWhiteSpace c then
        if inSep then splitWS_from true [] s'
        else cur :: splitWS_from true [] s'
      else splitWS_from false (cur ++ [c]) s'
  end.

Definition splitWS (s : jsstring) : list jsstring := splitWS_from false [] s.

(** [s.split(' ')]: every single space separates. *)
Fixpoint splitSpace_from (cur : jsstring) (s : jsstring) : list jsstring :=
  match s with
  | [] => [cur]
  | c :: s' =>
      if (c =? 0x20)%N then cur :: splitSpace_from [] s'
      else splitSpace_from (cur ++ [c]) s'
  end.

Definition splitSpace (s : jsstring) : list jsstring := splitSpace_from [] s.

(** [words.join(sep)] *)
Fixpoint join (sep : jsstring) (ws : list jsstring) : jsstring :=
  match ws with
  | [] => []
  | [w] => w
  | w :: ws' => w ++ sep ++ join sep ws'
  end.

(** [Array.from(new Set(ws))]: the first occurrence of every element, in
    order. *)
Fixpoint dedupe_from (seen : list jsstring) (ws : list jsstring)
  : list jsstring :=
  match ws with
  | [] => []
  | w :: ws' =>
      if bool_decide (w ∈ seen) then dedupe_from seen ws'
      else w :: dedupe_from (w :: seen) ws'
  end.

Definition dedupe (ws : list jsstring) : list jsstring := dedupe_from [] ws.

End JS.

Import JS.

(** ** Data model *)

Module Body.
Record t := mk { content : jsstring }.
End Body.

Module Message.
Record t := mk { content : jsstring; bodies : list Body.t }.
End Message.

Module Summary.
Record t := mk { content : jsstring; messages : list Message.t }.
End Summary.

Record BulletPointsRequest := {
  summaries : list Summary.t;
  title : option jsstring
}.

(** A paragraph as the script loads it: its text and the two indents, in
    points. *)
Record Paragraph := {
  text : jsstring;
  leftIndent : Q;
  firstLineIndent : Q
}.

(** ** Paragraph normalizer *)

(** The entry pushed on [bulletPoints]; [paragraph] is the reference to the
    paragraph object, given by its position in [paragraphs.items]. *)
Record BulletPoint := {
  bp_text : jsstring;
  level : Z;
  paragraph : nat
}.

Definition Qpositive (x : Q) : bool := negb (Qle_bool x 0).
Definition Qnegative (x : Q) : bool := negb (Qle_bool 0 x).

(** The class [[•\-*○・]] of the clean-up expression, and the five
    [startsWith] tests. *)
Definition isBulletGlyph (c : N) : bool :=
  ((c =? 0x2022) || (c =? 0x2D) || (c =? 0x2A) || (c =? 0x25CB)
   || (c =? 0x30FB))%N.

Definition isDotOrParen (c : N) : bool := ((c =? 0x2E) || (c =? 0x29))%N.

(** [text.match(/^\d+[\.\)]\s/)] *)
Definition matchesNumbered (s : jsstring) : bool :=
  match dropWhile isDigit s with
  | c :: w :: _ =>
      negb (bool_decide (dropWhile isDigit s = s))
      && isDotOrParen c && isWhiteSpace w
  | _ => false
  end.

Definition isBulletPoint (txt : jsstring) (p : Paragraph) : bool :=
  startsWith txt (js "•") || startsWith txt (js "-")
  || startsWith txt (js "*") || startsWith txt (js "○")
  || startsWith txt (js "・") || matchesNumbered txt
  || Qpositive (leftIndent p) || Qnegative (firstLineIndent p).

(** [Math.min(2, Math.floor(paragraph.leftIndent / 24))] when the left
    indent is positive, 0 otherwise. *)
Definition inferLevel (p : Paragraph) : Z :=
  if Qpositive (leftIndent p)
  then Z.min 2 (Qfloor (leftIndent p / 24))
  else 0%Z.

(** [.replace(/^[•\-*○・]\s*/, '')] *)
Definition stripGlyph (s : jsstring) : jsstring :=
  match s with
  | c :: s' => if isBulletGlyph c then dropWhile isWhiteSpace s' else s
  | [] => []
  end.

(** [.replace(/^\d+[\.\)]\s*/, '')] *)
Definition stripNumbering (s : jsstring) : jsstring :=
  match dropWhile isDigit s with
  | c :: r =>
      if negb (bool_decide (dropWhile isDigit s = s)) && isDotOrParen c
      then dropWhile isWhiteSpace r
      else s
  | [] => s
  end.

Definition cleanText (txt : jsstring) : jsstring :=
  trim (stripNumbering (stripGlyph txt)).

Definition mkBulletPoint (i : nat) (txt : jsstring) (p : Paragraph)
  : BulletPoint :=
  {| bp_text := cleanText txt; level := inferLevel p; paragraph := i |}.

(** A string is falsy exactly when it is empty. *)
Definition isEmpty (s : jsstring) : bool :=
  match s with [] => true | _ => false end.

(** The scanning loop of [buildBulletPointsData] (current revision), over
    the paragraphs from position [i] on. *)
Fixpoint detectBullets (titleText : jsstring) (i : nat) (ps : list Paragraph)
  : list BulletPoint :=
  match ps with
  | [] => []
  | p :: ps' =>
      let txt := trim (text p) in
      if isEmpty txt then detectBullets titleText (S i) ps'
      else if eqb txt titleText then detectBullets titleText (S i) ps'
      else if isBulletPoint txt p
           then mkBulletPoint i txt p :: detectBullets titleText (S i) ps'
           else detectBullets titleText (S i) ps'
  end.

(** The scanning loop of the earlier revision of [run]: the state is
    [titleParagraph] (the paragraph reference, [None] for [null]) with
    [titleText], and the list pushed so far. *)
Record LegacyScan := {
  titleParagraph : option nat;
  titleText : jsstring;
  bulletPoints : list BulletPoint
}.

Fixpoint legacyDetect (i : nat) (ps : list Paragraph) (st : LegacyScan)
  : LegacyScan :=
  match ps with
  | [] => st
  | p :: ps' =>
      let txt := trim (text p) in
      if isEmpty txt then legacyDetect (S i) ps' st
      else if negb (isBulletPoint txt p)
              && negb (bool_decide (is_Some (titleParagraph st)))
      then legacyDetect (S i) ps'
             {| titleParagraph := Some i; titleText := txt;
                bulletPoints := bulletPoints st |}
      else if isBulletPoint txt p
      then legacyDetect (S i) ps'
             {| titleParagraph := titleParagraph st;
                titleText := titleText st;
                bulletPoints := bulletPoints st ++ [mkBulletPoint i txt p] |}
      else legacyDetect (S i) ps' st
  end.

Definition legacyScanInit : LegacyScan :=
  {| titleParagraph := None; titleText := []; bulletPoints := [] |}.

(** ** Hierarchy builder *)

(** The summary and message objects of the outline are created once, pushed
    on an array and afterwards mutated through [currentSummary] and
    [currentMessage].  They are kept in a heap; a reference is the position
    of the object in its heap.  Bodies are never referred to again after the
    push, so that they are plain values. *)
Record SummaryObj := {
  so_content : jsstring;
  so_messages : list nat
}.

Record MessageObj := {
  mo_content : jsstring;
  mo_bodies : list Body.t
}.

Record Builder := {
  summaryObjs : list SummaryObj;
  messageObjs : list MessageObj;
  (** [bulletPointsData.summaries] *)
  bd_summaries : list nat;
  currentSummary : option nat;
  currentMessage : option nat
}.

Definition builderInit : Builder :=
  {| summaryObjs := []; messageObjs := []; bd_summaries := [];
     currentSummary := None; currentMessage := None |}.

(** The placeholder content of a synthesized parent. *)
Definition unclassified : jsstring := js "未分類".

(** [currentSummary = { content: c, messages: [] };
     bulletPointsData.summaries.push(currentSummary);] *)
Definition newSummary (c : jsstring) (b : Builder) : Builder :=
  let r := length (summaryObjs b) in
  {| summaryObjs := summaryObjs b ++ [{| so_content := c; so_messages := [] |}];
     messageObjs := messageObjs b;
     bd_summaries := bd_summaries b ++ [r];
     currentSummary := Some r;
     currentMessage := currentMessage b |}.

(** [if (!currentSummary) { ... }]: afterwards [currentSummary] is set; the
    reference is returned with the state. *)
Definition ensureSummary (b : Builder) : Builder * nat :=
  match currentSummary b with
  | Some r => (b, r)
  | None => (newSummary unclassified b, length (summaryObjs b))
  end.

(** [currentMessage = { content: c, bodies: [] };
     currentSummary.messages.push(currentMessage);] with [s] the object
    [currentSummary] refers to. *)
Definition newMessage (c : jsstring) (s : nat) (b : Builder) : Builder :=
  let r := length (messageObjs b) in
  {| summaryObjs :=
       alter (fun o => {| so_content := so_content o;
                          so_messages := so_messages o ++ [r] |})
             s (summaryObjs b);
     messageObjs := messageObjs b ++ [{| mo_content := c; mo_bodies := [] |}];
     bd_summaries := bd_summaries b;
     currentSummary := currentSummary b;
     currentMessage := Some r |}.

(** [currentMessage.bodies.push({ content: c })] with [m] the object
    [currentMessage] refers to. *)
Definition pushBody (c : jsstring) (m : nat) (b : Builder) : Builder :=
  {| summaryObjs := summaryObjs b;
     messageObjs :=
       alter (fun o => {| mo_content := mo_content o;
                          mo_bodies := mo_bodies o ++ [Body.mk c] |})
             m (messageObjs b);
     bd_summaries := bd_summaries b;
     currentSummary := currentSummary b;
     currentMessage := currentMessage b |}.

Definition clearMessage (b : Builder) : Builder :=
  {| summaryObjs := summaryObjs b; messageObjs := messageObjs b;
     bd_summaries := bd_summaries b; currentSummary := currentSummary b;
     currentMessage := None |}.

(** One turn of the loop [for (const bulletPoint of bulletPoints)]. *)
Definition placeBullet (b : Builder) (bp : BulletPoint) : Builder :=
  if isEmpty (bp_text bp) then b
  else if (level bp =? 0)%Z then
    clearMessage (newSummary (bp_text bp) b)
  else if (level bp =? 1)%Z then
    let '(b1, s) := ensureSummary b in
    newMessage (bp_text bp) s b1
  else if (level bp =? 2)%Z then
    match currentMessage b with
    | Some m => pushBody (bp_text bp) m b
    | None =>
        let '(b1, s) := ensureSummary b in
        let b2 := newMessage unclassified s b1 in
        pushBody (bp_text bp) (length (messageObjs b1)) b2
    end
  else b.

Definition placeBullets (bps : list BulletPoint) (b : Builder) : Builder :=
  fold_left placeBullet bps b.

(** What a reader of [bulletPointsData] sees: the references followed. *)
Definition readMessage (ms : list MessageObj) (r : nat) : list Message.t :=
  match ms !! r with
  | Some o => [Message.mk (mo_content o) (mo_bodies o)]
  | None => []
  end.

Definition readSummary (b : Builder) (r : nat) : list Summary.t :=
  match summaryObjs b !! r with
  | Some o =>
      [Summary.mk (so_content o)
         (flat_map (readMessage (messageObjs b)) (so_messages o))]
  | None => []
  end.

Definition readSummaries (b : Builder) : list Summary.t :=
  flat_map (readSummary b) (bd_summaries b).

(** The outline built from a list of bullet points. *)
Definition buildHierarchy (bps : list BulletPoint) : list Summary.t :=
  readSummaries (placeBullets bps builderInit).

(** The result of [buildBulletPointsData]: [null] when no bullet point was
    detected, the request otherwise. *)
Definition buildBulletPointsData (ps : list Paragraph) (ttl : jsstring)
  : option BulletPointsRequest :=
  let bps := detectBullets ttl 0 ps in
  match bps with
  | [] => None
  | _ => Some {| summaries := buildHierarchy bps; title := Some ttl |}
  end.

(** The request assembled by the earlier revision of [run]; [title] is set
    only when a title paragraph was met. *)
Definition legacyRequest (ps : list Paragraph) : BulletPointsRequest :=
  let sc := legacyDetect 0 ps legacyScanInit in
  {| summaries := buildHierarchy (bulletPoints sc);
     title := match titleParagraph sc with
              | Some _ => Some (titleText sc)
              | None => None
              end |}.

(** The outline in reading order, each entry with its level. *)
Definition outlineMessage (m : Message.t) : list (Z * jsstring) :=
  (1%Z, Message.content m) :: map (fun b => (2%Z, Body.content b)) (Message.bodies m).

Definition outlineSummary (s : Summary.t) : list (Z * jsstring) :=
  (0%Z, Summary.content s) :: flat_map outlineMessage (Summary.messages s).

Definition outline (ss : list Summary.t) : list (Z * jsstring) :=
  flat_map outlineSummary ss.

(** ** Evaluation results *)

Inductive EvaluationScope :=
  | DOCUMENT_WIDE
  | ALL_SUMMARIES
  | SUMMARY_PAIRS
  | SUMMARY_WITH_MESSAGES
  | MESSAGES_UNDER_SUMMARY
  | MESSAGE_WITH_BODIES.

Inductive EvaluationCriteria :=
  | RHETORICAL_EXPRESSION
  | PREVIOUS_DISCUSSION_REVIEW
  | SCQA_PRESENCE
  | DUPLICATE_TRANSITION_CONJUNCTIONS
  | CONJUNCTION_VALIDITY
  | INAPPROPRIATE_CONJUNCTIONS
  | LOGICAL_CONSISTENCY_WITH_PREVIOUS
  | SEQUENTIAL_DEVELOPMENT
  | CONJUNCTION_APPROPRIATENESS
  | DUPLICATE_TRANSITION_WORDS
  | AVOID_UNNECESSARY_NUMBERING
  | MESSAGE_BODY_CONSISTENCY.

Global Instance EvaluationScope_eq_dec : EqDecision EvaluationScope.
Proof. solve_decision. Defined.

Global Instance EvaluationCriteria_eq_dec : EqDecision EvaluationCriteria.
Proof. solve_decision. Defined.

(** The string value of an enumeration member, which is what [toString] and
    the template literals yield. *)
Definition scopeValue (s : EvaluationScope) : jsstring :=
  match s with
  | DOCUMENT_WIDE => js "document_wide"
  | ALL_SUMMARIES => js "all_summaries"
  | SUMMARY_PAIRS => js "summary_pairs"
  | SUMMARY_WITH_MESSAGES => js "summary_with_messages"
  | MESSAGES_UNDER_SUMMARY => js "messages_under_summary"
  | MESSAGE_WITH_BODIES => js "message_with_bodies"
  end.

Definition criteriaValue (c : EvaluationCriteria) : jsstring :=
  match c with
  | RHETORICAL_EXPRESSION => js "rhetorical_expression"
  | PREVIOUS_DISCUSSION_REVIEW => js "previous_discussion_review"
  | SCQA_PRESENCE => js "scqa_presence"
  | DUPLICATE_TRANSITION_CONJUNCTIONS => js "duplicate_transition_conjunctions"
  | CONJUNCTION_VALIDITY => js "conjunction_validity"
  | INAPPROPRIATE_CONJUNCTIONS => js "inappropriate_conjunctions"
  | LOGICAL_CONSISTENCY_WITH_PREVIOUS => js "logical_consistency_with_previous"
  | SEQUENTIAL_DEVELOPMENT => js "sequential_development"
  | CONJUNCTION_APPROPRIATENESS => js "conjunction_appropriateness"
  | DUPLICATE_TRANSITION_WORDS => js "duplicate_transition_words"
  | AVOID_UNNECESSARY_NUMBERING => js "avoid_unnecessary_numbering"
  | MESSAGE_BODY_CONSISTENCY => js "message_body_consistency"
  end.

Definition getCriteriaName (c : EvaluationCriteria) : jsstring :=
  match c with
  | RHETORICAL_EXPRESSION => js "修辞表現の確認"
  | PREVIOUS_DISCUSSION_REVIEW => js "前回討議の振り返りの有無"
  | SCQA_PRESENCE => js "SCQAの有無"
  | DUPLICATE_TRANSITION_CONJUNCTIONS => js "転換の接続詞の重複利用"
  | CONJUNCTION_VALIDITY => js "前のサマリー文を踏まえたときの、接続詞の妥当性"
  | INAPPROPRIATE_CONJUNCTIONS => js "サマリー文に不適切な接続詞の有無"
  | LOGICAL_CONSISTENCY_WITH_PREVIOUS => js "直前のサマリーとの論理的整合性"
  | SEQUENTIAL_DEVELOPMENT => js "逐次的展開の評価"
  | CONJUNCTION_APPROPRIATENESS => js "接続詞の適切性"
  | DUPLICATE_TRANSITION_WORDS => js "転換の接続詞の二重利用"
  | AVOID_UNNECESSARY_NUMBERING => js "無駄なナンバリングの回避"
  | MESSAGE_BODY_CONSISTENCY => js "メッセージとボディの論理的整合性"
  end.

Definition getScopeName (s : EvaluationScope) : jsstring :=
  match s with
  | DOCUMENT_WIDE => js "ドキュメント全体"
  | ALL_SUMMARIES => js "すべてのサマリー"
  | SUMMARY_PAIRS => js "サマリーペア"
  | SUMMARY_WITH_MESSAGES => js "サマリーとメッセージ"
  | MESSAGES_UNDER_SUMMARY => js "サマリー下のメッセージ"
  | MESSAGE_WITH_BODIES => js "メッセージと本文"
  end.

Record CriteriaResult := {
  criteria : EvaluationCriteria;
  has_issues : bool;
  issues : jsstring
}.

Record EvaluationResult := {
  target_text : jsstring;
  scope : EvaluationScope;
  criteria_results : list CriteriaResult
}.

(** A number of the script: a double read as the rational it denotes, or
    one of the three values that denote none. *)
Inductive JSNumber :=
  | NaN
  | PosInfinity
  | NegInfinity
  | Finite (q : Q).

(** The [score] member of the parsed response, which the script reads
    defensively: the member may be missing, [null], a number, or a value of
    another type, which then carries what [Number(...)] makes of it. *)
Inductive ScoreField :=
  | ScoreAbsent
  | ScoreNull
  | ScoreNumber (n : JSNumber)
  | ScoreOther (toNumber : JSNumber).

Record EvaluationResponse := {
  status : jsstring;
  message : jsstring;
  results : list EvaluationResult;
  score : ScoreField
}.

(** [result.criteria_results.some(cr => cr.has_issues)] *)
Definition hasIssues (r : EvaluationResult) : bool :=
  existsb has_issues (criteria_results r).

(** [result.criteria_results.filter(cr => cr.has_issues)] *)
Definition issuesCriteria (r : EvaluationResult) : list CriteriaResult :=
  filter (fun cr => Is_true (has_issues cr)) (criteria_results r).

(** The comparison of a result's scope with a requested one, in the three
    forms the script tries. *)
Definition isMatchingScope (resultScope sc : EvaluationScope) : bool :=
  bool_decide (resultScope = sc)
  || eqb (scopeValue resultScope) (scopeValue sc)
  || eqb (scopeValue resultScope) (scopeValue sc).

(** ** Text locator *)

(** A range of the document: that of a whole paragraph, given by the
    position of the paragraph, or a hit of a search of the body, given by
    its two offsets. *)
Inductive Range :=
  | ParagraphRange (index : nat)
  | TextRange (first last : nat).

Global Instance Range_eq_dec : EqDecision Range.
Proof. solve_decision. Defined.

(** The step of the locator that produced a range; the script announces it
    in its log. *)
Inductive Tier :=
  | ExactMatch
  | Containment
  | LongestWord
  | Prefix
  | ShortenedText
  | Keyword.

(** [for (i ...) if (test(paragraph.text)) return paragraph.getRange()] *)
Definition findParagraph (test : jsstring -> bool) (ps : list Paragraph)
  : option nat :=
  fst <$> list_find (fun p => Is_true (test (text p))) ps.

Definition maxSearchLength : nat := 255.

Definition effectiveSearchText (searchText : jsstring) : jsstring :=
  if (maxSearchLength <? length searchText)%nat
  then substring0 maxSearchLength searchText
  else searchText.

(** [words.reduce((a, b) => a.length > b.length ? a : b)] on a non-empty
    array. *)
Definition longer (a b : jsstring) : jsstring :=
  if (length b <? length a)%nat then a else b.

Definition longestWord (words : list jsstring) : option jsstring :=
  match words with
  | [] => None
  | w :: ws => Some (fold_left longer ws w)
  end.

Definition significantWords (t : jsstring) : list jsstring :=
  filter (fun w => (3 < length w)%nat) (splitWS t).

(** [findTextInDocument] of the current revision, with the step that
    answered. *)
Definition locate (ps : list Paragraph) (searchText : jsstring)
  : option (Tier * Range) :=
  if isEmpty searchText || eqb (trim searchText) [] then None
  else
    let t := effectiveSearchText searchText in
    match findParagraph (fun x => includes x t) ps with
    | Some i => Some (Containment, ParagraphRange i)
    | None =>
        match
          w ← longestWord (significantWords t);
          findParagraph (fun x => includes x w) ps
        with
        | Some i => Some (LongestWord, ParagraphRange i)
        | None =>
            if (10 <? length t)%nat then
              match findParagraph (fun x => includes x (substring0 10 t)) ps with
              | Some i => Some (Prefix, ParagraphRange i)
              | None => None
              end
            else None
        end
    end.

Definition findTextInDocument (ps : list Paragraph) (searchText : jsstring)
  : option Range :=
  snd <$> locate ps searchText.

(** [extractKeywords] (both revisions). *)
Definition commonWords : list jsstring :=
  [js "これ"; js "それ"; js "あれ"; js "この"; js "その"; js "あの";
   js "ます"; js "です"; js "した"; js "ある"; js "いる"; js "れる";
   js "られる"; js "など"; js "ため"; js "よう"].

Definition isKeyword (word : jsstring) : bool :=
  if (length word <? 3)%nat then false
  else if bool_decide (word ∈ commonWords) then false
  else true.

Definition extractKeywords (t : jsstring) : list jsstring :=
  dedupe (filter (fun w => Is_true (isKeyword w)) (splitWS t)).

(** The editor on the current document text: the hits of a search of the
    whole body for a literal text, the hits of the wild-card search of
    [removeAllComments], which comments [range.getComments()] returns (those
    whose anchor meets the range), and whether a comment can be attached to
    a range. *)
Record Editor := {
  search : jsstring -> list Range;
  wildcardHits : list Range;
  meets : Range -> Range -> bool;
  accepts : Range -> jsstring -> bool
}.

(** The keyword loop of the earlier revision. *)
Fixpoint searchKeywords (ed : Editor) (keywords : list jsstring)
  : option Range :=
  match keywords with
  | [] => None
  | keyword :: rest =>
      if (3 <? length keyword)%nat then
        match search ed keyword with
        | r :: _ => Some r
        | [] => searchKeywords ed rest
        end
      else searchKeywords ed rest
  end.

(** The third step of the earlier revision: the first five space-separated
    words, searched in the body. *)
Definition shortSearchText (searchText : jsstring) : jsstring :=
  let words := splitSpace searchText in
  join (js " ") (take (Nat.min 5 (length words)) words).

Definition searchShortened (ed : Editor) (searchText : jsstring)
  : option Range :=
  if (10 <? length searchText)%nat then
    if (3 <? length (shortSearchText searchText))%nat
    then head (search ed (shortSearchText searchText))
    else None
  else None.

(** [findTextInDocument] of the earlier revision, with the step that
    answered; [allParagraphs] may be [null]. *)
Definition legacyLocate (ed : Editor) (searchText : jsstring)
    (allParagraphs : option (list Paragraph)) : option (Tier * Range) :=
  if (length searchText <? 3)%nat then None
  else
    match
      ps ← allParagraphs;
      findParagraph (fun x => eqb (trim x) (trim searchText)) ps
    with
    | Some i => Some (ExactMatch, ParagraphRange i)
    | None =>
        match
          ps ← allParagraphs;
          findParagraph (fun x => includes x searchText) ps
        with
        | Some i => Some (Containment, ParagraphRange i)
        | None =>
            match searchShortened ed searchText with
            | Some r => Some (ShortenedText, r)
            | None =>
                match searchKeywords ed (extractKeywords searchText) with
                | Some r => Some (Keyword, r)
                | None => None
                end
            end
        end
    end.

Definition legacyFindTextInDocument (ed : Editor) (searchText : jsstring)
    (allParagraphs : option (list Paragraph)) : option Range :=
  snd <$> legacyLocate ed searchText allParagraphs.

(** ** Document, session and display *)

Record Comment := {
  anchor : Range;
  commentText : jsstring
}.

(** The document: the paragraphs, the comments attached to it, and the
    ranges whose highlight colour was set to yellow. *)
Record Document := {
  paragraphs : list Paragraph;
  comments : list Comment;
  highlighted : list Range
}.

(** The module-level variables of the script. *)
Record Session := {
  evaluationResults : list EvaluationResult;
  activeScope : option EvaluationScope;
  commentRanges : gmap jsstring Range;
  lastCheckResults : option EvaluationResponse
}.

(** The part of the task pane the script writes the score to, and the title
    of the page ([document.title]).  The log, the scope labels and the
    classes of the buttons are not modelled. *)
Record Display := {
  pageTitle : jsstring;
  scoreDisplay : option JSNumber;
  scoreMessage : jsstring;
  scoreColor : jsstring
}.

Record World := {
  document : Document;
  session : Session;
  display : Display
}.

Definition setComments (cs : list Comment) (w : World) : World :=
  {| document := {| paragraphs := paragraphs (document w);
                    comments := cs;
                    highlighted := highlighted (document w) |};
     session := session w; display := display w |}.

Definition highlight (r : Range) (w : World) : World :=
  {| document := {| paragraphs := paragraphs (document w);
                    comments := comments (document w);
                    highlighted := highlighted (document w) ++ [r] |};
     session := session w; display := display w |}.

Definition setEvaluationResults (rs : list EvaluationResult) (w : World)
  : World :=
  {| document := document w;
     session := {| evaluationResults := rs;
                   activeScope := activeScope (session w);
                   commentRanges := commentRanges (session w);
                   lastCheckResults := lastCheckResults (session w) |};
     display := display w |}.

Definition setActiveScope (s : option EvaluationScope) (w : World) : World :=
  {| document := document w;
     session := {| evaluationResults := evaluationResults (session w);
                   activeScope := s;
                   commentRanges := commentRanges (session w);
                   lastCheckResults := lastCheckResults (session w) |};
     display := display w |}.

Definition setCommentRanges (m : gmap jsstring Range) (w : World) : World :=
  {| document := document w;
     session := {| evaluationResults := evaluationResults (session w);
                   activeScope := activeScope (session w);
                   commentRanges := m;
                   lastCheckResults := lastCheckResults (session w) |};
     display := display w |}.

Definition setLastCheckResults (r : option EvaluationResponse) (w : World)
  : World :=
  {| document := document w;
     session := {| evaluationResults := evaluationResults (session w);
                   activeScope := activeScope (session w);
                   commentRanges := commentRanges (session w);
                   lastCheckResults := r |};
     display := display w |}.

Definition setScore (n : JSNumber) (msg colour : jsstring) (w : World)
  : World :=
  {| document := document w; session := session w;
     display := {| pageTitle := pageTitle (display w);
                   scoreDisplay := Some n;
                   scoreMessage := msg;
                   scoreColor := colour |} |}.

(** ** Score *)

Definition isNaN (n : JSNumber) : bool :=
  match n with NaN => true | _ => false end.

(** [Math.round]: the nearest integer, a tie going up. *)
Definition Math_round (n : JSNumber) : JSNumber :=
  match n with
  | Finite q => Finite (inject_Z (Qfloor (q + (1 # 2))))
  | _ => n
  end.

(** [n >= k] for an integer [k]. *)
Definition atLeast (n : JSNumber) (k : Z) : bool :=
  match n with
  | NaN => false
  | PosInfinity => true
  | NegInfinity => false
  | Finite q => Qle_bool (inject_Z k) q
  end.

(** The score [run] passes to [updateScore]: 100 unless the member is
    there and not [null]; then [Number(score)], and 100 again when that is
    not a number. *)
Definition scoreOfResponse (f : ScoreField) : JSNumber :=
  let score :=
    match f with
    | ScoreAbsent | ScoreNull => Finite 100
    | ScoreNumber n => n
    | ScoreOther n => n
    end in
  if isNaN score then Finite 100 else score.

(** The message and the colour [updateScore] chooses for a rounded score. *)
Definition scoreTier (rounded : JSNumber) : jsstring * jsstring :=
  if atLeast rounded 90 then
    (js "素晴らしい！ほとんど問題がありません。", js "#107C10")
  else if atLeast rounded 70 then
    (js "良好です。いくつかの改善点があります。", js "#0078D4")
  else if atLeast rounded 50 then
    (js "改善の余地があります。", js "#FF8C00")
  else if atLeast rounded 30 then
    (js "多くの問題点があります。修正が必要です。", js "#E81123")
  else
    (js "非常に多くの問題があります。大幅な修正が必要です。", js "#A80000").

(** The message of the first branch. *)
Definition excellentMessage : jsstring :=
  js "素晴らしい！ほとんど問題がありません。".

(** [updateScore]; both elements are present in the page. *)
Definition updateScore (n : JSNumber) (w : World) : World :=
  let n1 := if isNaN n then Finite 100 else n in
  let n2 := Math_round n1 in
  setScore n2 (fst (scoreTier n2)) (snd (scoreTier n2)) w.

(** ** Annotation manager *)

(** [removeAllComments]: for every hit of the wild-card search, the
    comments meeting it are deleted. *)
Definition deleteMeeting (ed : Editor) (cs : list Comment) (hit : Range)
  : list Comment :=
  filter (fun c => ¬ Is_true (meets ed hit (anchor c))) cs.

Definition removeAllComments (ed : Editor) (w : World) : World :=
  setComments (fold_left (deleteMeeting ed) (wildcardHits ed)
                 (comments (document w))) w.

(** [addCommentSafely]: the comment is attached unless the editor refuses,
    which the function reports by [false]. *)
Definition addCommentSafely (ed : Editor) (r : Range) (t : jsstring)
    (w : World) : World * bool :=
  if accepts ed r t
  then (setComments (comments (document w)
                       ++ [{| anchor := r; commentText := t |}]) w, true)
  else (w, false).

(** The text of the comment for a result, headed by the name of the scope
    [sc]. *)
Definition composeComment (sc : EvaluationScope) (result : EvaluationResult)
  : jsstring :=
  js "【" ++ getScopeName sc ++ js "】" ++ [0x0A%N]
  ++ join [0x0A%N; 0x0A%N]
       (map (fun cr => js "【" ++ getCriteriaName (criteria cr) ++ js "】: "
                       ++ issues cr)
            (issuesCriteria result)).

(** [commentRanges[`${result.scope}_${issuesCriteria[0].criteria}`] = r];
    reading the first failing criterion of a result without one raises. *)
Definition recordRange (result : EvaluationResult) (r : Range) (w : World)
  : World * bool :=
  match issuesCriteria result with
  | cr :: _ =>
      (setCommentRanges
         (<[ scopeValue (scope result) ++ js "_" ++ criteriaValue (criteria cr)
             := r ]> (commentRanges (session w))) w, true)
  | [] => (w, false)
  end.

(** Highlight, comment and record, for a range that was found. *)
Definition annotateRange (ed : Editor) (sc : EvaluationScope)
    (result : EvaluationResult) (r : Range) (w : World) : World * bool :=
  let w1 := highlight r w in
  let '(w2, commentAdded) := addCommentSafely ed r (composeComment sc result) w1 in
  if commentAdded then recordRange result r w2 else (w2, true).

(** One turn of the loop over the results to show.  [sc] is the scope the
    turn tests and names: [result.scope] in [showAllComments], the requested
    scope in [filterCommentsByScope].  The boolean tells that the turn ended
    normally; it is [false] when an exception left the loop: the first
    paragraph of an empty document, or the first failing criterion of a
    result that has none. *)
Definition annotateResult (ed : Editor) (sc : EvaluationScope)
    (result : EvaluationResult) (w : World) : World * bool :=
  if bool_decide (sc = ALL_SUMMARIES)
     && eqb (target_text result) (pageTitle (display w))
  then
    match paragraphs (document w) with
    | [] => (w, false)
    | _ :: _ => annotateRange ed sc result (ParagraphRange 0) w
    end
  else
    match findTextInDocument (paragraphs (document w)) (target_text result) with
    | Some r => annotateRange ed sc result r w
    | None => (w, true)
    end.

Fixpoint annotateAll (ed : Editor)
    (scopeOf : EvaluationResult -> EvaluationScope)
    (rs : list EvaluationResult) (w : World) : World * bool :=
  match rs with
  | [] => (w, true)
  | result :: rest =>
      let '(w1, ok) := annotateResult ed (scopeOf result) result w in
      if ok then annotateAll ed scopeOf rest w1 else (w1, false)
  end.

(** [showAllComments] *)
Definition showAllComments (ed : Editor) (w : World) : World :=
  match evaluationResults (session w) with
  | [] => w
  | _ :: _ =>
      let w1 := removeAllComments ed w in
      let resultsWithIssues :=
        filter (fun r => Is_true (hasIssues r)) (evaluationResults (session w1)) in
      match resultsWithIssues with
      | [] => w1
      | _ :: _ =>
          fst (annotateAll ed scope resultsWithIssues (setCommentRanges ∅ w1))
      end
  end.

(** [filterCommentsByScope] *)
Definition filterCommentsByScope (ed : Editor) (sc : EvaluationScope)
    (w : World) : World :=
  match evaluationResults (session w) with
  | [] => w
  | _ :: _ =>
      let w1 := removeAllComments ed w in
      let filteredResults :=
        filter (fun r => Is_true (isMatchingScope (scope r) sc && hasIssues r))
          (evaluationResults (session w1)) in
      match filteredResults with
      | [] => w1
      | _ :: _ =>
          let '(w2, ok) :=
            annotateAll ed (fun _ => sc) filteredResults
              (setCommentRanges ∅ w1) in
          if ok then setActiveScope (Some sc) w2 else w2
      end
  end.

(** ** Scope priority resolver *)

Definition scopePriority : list EvaluationScope :=
  [DOCUMENT_WIDE; ALL_SUMMARIES; SUMMARY_PAIRS; SUMMARY_WITH_MESSAGES;
   MESSAGES_UNDER_SUMMARY; MESSAGE_WITH_BODIES].

(** [scopeHasIssues[scope]] *)
Definition scopeHasIssues (rs : list EvaluationResult) (sc : EvaluationScope)
  : bool :=
  existsb (fun r => isMatchingScope (scope r) sc && hasIssues r) rs.

(** The scan for [highestPriorityScope]. *)
Fixpoint firstWithIssues (rs : list EvaluationResult)
    (order : list EvaluationScope) : option EvaluationScope :=
  match order with
  | [] => None
  | sc :: rest =>
      if scopeHasIssues rs sc then Some sc else firstWithIssues rs rest
  end.

Definition highestPriorityScope (rs : list EvaluationResult)
  : option EvaluationScope :=
  firstWithIssues rs scopePriority.

(** [showHighestPriorityComments] *)
Definition showHighestPriorityComments (ed : Editor) (w : World) : World :=
  match evaluationResults (session w) with
  | [] => w
  | _ :: _ =>
      match highestPriorityScope (evaluationResults (session w)) with
      | Some sc => filterCommentsByScope ed sc w
      | None => showAllComments ed w
      end
  end.

(** ** The check *)

(** What the call of the evaluation service comes to: the request fails in
    transport, or a response arrives with its [ok] flag and, when its body
    parses, the response data. *)
Inductive FetchOutcome :=
  | TransportFailure
  | Response (ok : bool) (body : option EvaluationResponse).

(** The steps of [run] once the response data is at hand. *)
Definition reflectResponse (ed : Editor) (responseData : EvaluationResponse)
    (w : World) : World :=
  let w1 := setLastCheckResults (Some responseData) w in
  let w2 := updateScore (scoreOfResponse (score responseData)) w1 in
  let w3 := setEvaluationResults (results responseData) w2 in
  if eqb (status responseData) (js "success")
  then showHighestPriorityComments ed (removeAllComments ed w3)
  else w3.

(** The request [run] of the current revision prepares: the title is the
    text of the first paragraph.  [None] stands for [null], and for the
    exception an empty document raises. *)
Definition requestOfRun (ps : list Paragraph) : option BulletPointsRequest :=
  match ps with
  | [] => None
  | titleParagraph :: _ => buildBulletPointsData ps (text titleParagraph)
  end.

(** [run] of the current revision.  An exception is caught and logged, which
    leaves the world as it is at that point. *)
Definition run (ed : Editor) (fetch : BulletPointsRequest -> FetchOutcome)
    (w : World) : World :=
  match requestOfRun (paragraphs (document w)) with
  | Some bulletPointsData =>
      match summaries bulletPointsData with
      | [] => w
      | _ :: _ =>
          match fetch bulletPointsData with
          | TransportFailure => w
          | Response false _ => w
          | Response true None => w
          | Response true (Some responseData) =>
              reflectResponse ed responseData w
          end
      end
  | None => w
  end.

(** ** Notions the properties are stated with *)

(** The outline read directly off the heap of a builder. *)
Definition heapMessage (ms : list MessageObj) (r : nat) : list (Z * jsstring) :=
  match ms !! r with
  | Some o =>
      (1%Z, mo_content o) :: map (fun b => (2%Z, Body.content b)) (mo_bodies o)
  | None => []
  end.

Definition heapSummary (ms : list MessageObj) (o : SummaryObj)
  : list (Z * jsstring) :=
  (0%Z, so_content o) :: flat_map (heapMessage ms) (so_messages o).

Definition heapOutline (b : Builder) : list (Z * jsstring) :=
  flat_map (heapSummary (messageObjs b)) (summaryObjs b).

(** The links of a builder are in order: the result array holds every
    summary object once; the message objects are held, each once and in
    the order of their creation, by the summary objects; [currentSummary]
    is the summary created last, and [currentMessage] is the message
    created last, held last by that summary. *)
Record WellLinked (b : Builder) : Prop := {
  wl_summaries : bd_summaries b = seq 0 (length (summaryObjs b));
  wl_messages :
    concat (map so_messages (summaryObjs b)) = seq 0 (length (messageObjs b));
  wl_currentSummary :
    forall r, currentSummary b = Some r -> S r = length (summaryObjs b);
  wl_currentMessage :
    forall m, currentMessage b = Some m ->
      S m = length (messageObjs b)
      /\ exists r o ms0,
           currentSummary b = Some r
           /\ summaryObjs b !! r = Some o
           /\ so_messages o = ms0 ++ [m]
}.

(** What a bullet point contributes to the outline: nothing when its text
    is empty or its level is none of 0, 1, 2. *)
Definition entry (bp : BulletPoint) : list (Z * jsstring) :=
  if isEmpty (bp_text bp) then []
  else if (level bp =? 0)%Z || (level bp =? 1)%Z || (level bp =? 2)%Z
       then [(level bp, bp_text bp)]
       else [].

(** An outline in reading order has no orphan: the nearest entry of level
    at most 1 before a body is a message, and a summary comes before every
    message.  [haveSummary] tells that a summary was met, [haveMessage] that
    a message was met since the last summary. *)
Fixpoint noOrphans (haveSummary haveMessage : bool) (l : list (Z * jsstring))
  : bool :=
  match l with
  | [] => true
  | (lv, _) :: rest =>
      if (lv =? 0)%Z then noOrphans true false rest
      else if (lv =? 1)%Z then haveSummary && noOrphans haveSummary true rest
      else if (lv =? 2)%Z then haveMessage && noOrphans haveSummary haveMessage rest
      else false
  end.

(** The first paragraph, from position [i] on, that has a text and is not
    classified as a bullet. *)
Fixpoint firstNonBulletFrom (i : nat) (ps : list Paragraph)
  : option (nat * Paragraph) :=
  match ps with
  | [] => None
  | p :: ps' =>
      if isEmpty (trim (text p)) then firstNonBulletFrom (S i) ps'
      else if isBulletPoint (trim (text p)) p then firstNonBulletFrom (S i) ps'
      else Some (i, p)
  end.

(** The bullet points of all the paragraphs, from position [i] on, that
    have a text and are classified as bullets. *)
Fixpoint classifiedFrom (i : nat) (ps : list Paragraph) : list BulletPoint :=
  match ps with
  | [] => []
  | p :: ps' =>
      if isEmpty (trim (text p)) then classifiedFrom (S i) ps'
      else if isBulletPoint (trim (text p)) p
           then mkBulletPoint i (trim (text p)) p :: classifiedFrom (S i) ps'
           else classifiedFrom (S i) ps'
  end.

(** A paragraph without indent, for the examples. *)
Definition flush (t : string) : Paragraph :=
  {| text := js t; leftIndent := 0; firstLineIndent := 0 |}.

(** A paragraph with a left indent, for the examples. *)
Definition indented (t : string) (left : Q) : Paragraph :=
  {| text := js t; leftIndent := left; firstLineIndent := 0 |}.

(** The keyword step as the design document words it: the first range
    found for the first keyword that yields a hit. *)
Definition keywordFallbackAsStated (ed : Editor) (t : jsstring)
  : option Range :=
  head (flat_map (search ed) (extractKeywords t)).

(** An editor whose body search finds the text [k] at [r] and nothing else,
    for the examples. *)
Definition editorFinding (k : jsstring) (r : Range) : Editor :=
  {| search := fun t => if eqb t k then [r] else [];
     wildcardHits := [];
     meets := fun _ _ => false;
     accepts := fun _ _ => true |}.

(** A world with the given paragraphs, comments and results, the page as
    loaded and nothing else, for the examples. *)
Definition worldWith (ps : list Paragraph) (cs : list Comment)
    (rs : list EvaluationResult) : World :=
  {| document := {| paragraphs := ps; comments := cs; highlighted := [] |};
     session := {| evaluationResults := rs; activeScope := None;
                   commentRanges := ∅; lastCheckResults := None |};
     display := {| pageTitle := js "ストーリーチェッカー";
                   scoreDisplay := None;
                   scoreMessage := js "評価を実行してください";
                   scoreColor := [] |} |}.

(** A result with one failing criterion, for the examples. *)
Definition failing (t : string) (sc : EvaluationScope)
    (c : EvaluationCriteria) : EvaluationResult :=
  {| target_text := js t; scope := sc;
     criteria_results :=
       [{| criteria := c; has_issues := true; issues := js "issue" |}] |}.

(** What a pass reads and does not write: the paragraphs, the results and
    the display. *)
Definition sameInputs (w w' : World) : Prop :=
  paragraphs (document w') = paragraphs (document w)
  /\ evaluationResults (session w') = evaluationResults (session w)
  /\ display w' = display w.

(** The comments [removeAllComments] leaves of a list of comments. *)
Definition cleared (ed : Editor) (cs : list Comment) : list Comment :=
  fold_left (deleteMeeting ed) (wildcardHits ed) cs.

(** A comment is attached to a paragraph of the document. *)
Definition onParagraph (ps : list Paragraph) (c : Comment) : Prop :=
  exists i, anchor c = ParagraphRange i /\ i < length ps.

(** The wild-card search of [removeAllComments] reaches every paragraph:
    each paragraph range meets one of its hits. *)
Definition covers (ed : Editor) (ps : list Paragraph) : Prop :=
  forall i, i < length ps ->
    exists hit, hit ∈ wildcardHits ed /\ meets ed hit (ParagraphRange i) = true.

(** An editor for a document of [n] paragraphs whose wild-card search hits
    every paragraph, whose body search finds nothing and which accepts every
    comment, for the examples. *)
Definition paragraphEditor (n : nat) : Editor :=
  {| search := fun _ => [];
     wildcardHits := map ParagraphRange (seq 0 n);
     meets := fun a b => bool_decide (a = b);
     accepts := fun _ _ => true |}.

(** ** Notions for the further properties *)

(** The loop of the builder read on the flat entries: what the outline
    becomes when the entries [es] are placed, [haveSummary] telling that
    [currentSummary] is set and [haveMessage] that [currentMessage] is. *)
Fixpoint repair (haveSummary haveMessage : bool) (es : list (Z * jsstring))
  : list (Z * jsstring) :=
  match es with
  | [] => []
  | (lv, t) :: rest =>
      if (lv =? 0)%Z then (0%Z, t) :: repair true false rest
      else if (lv =? 1)%Z then
        (if haveSummary then [] else [(0%Z, unclassified)])
        ++ (1%Z, t) :: repair true true rest
      else if (lv =? 2)%Z then
        (if haveMessage then []
         else (if haveSummary then [] else [(0%Z, unclassified)])
              ++ [(1%Z, unclassified)])
        ++ (2%Z, t) :: repair true true rest
      else repair haveSummary haveMessage rest
  end.

Definition isSet {A} (o : option A) : bool :=
  match o with Some _ => true | None => false end.

(** The bullet point an entry of an outline stands for. *)
Definition bulletOfEntry (e : Z * jsstring) : BulletPoint :=
  {| bp_text := snd e; level := fst e; paragraph := 0 |}.

(** The texts of the entries of one level, in order. *)
Definition textsOfLevel (k : Z) (es : list (Z * jsstring)) : list jsstring :=
  map snd (filter (fun e => fst e = k) es).

(** The contents of the bodies of an outline, in reading order. *)
Definition bodyContents (ss : list Summary.t) : list jsstring :=
  flat_map (fun s => flat_map (fun m => map Body.content (Message.bodies m))
                       (Summary.messages s)) ss.

(** No summary, message or body of the outline has an empty content. *)
Definition contentsPresent (ss : list Summary.t) : Prop :=
  Forall (fun e => snd e <> []) (outline ss).

(** A bullet point with a text and one of the three levels. *)
Definition placed (k : Z) (bp : BulletPoint) : Prop :=
  bp_text bp <> [] /\ level bp = k.

(** ** Scope labels and scope buttons of the task pane *)

(** The scopes in the order of the object literal of [updateScopeStatus],
    which is the order [for ... in] visits its keys in. *)
Definition statusScopes : list EvaluationScope :=
  [DOCUMENT_WIDE; ALL_SUMMARIES; SUMMARY_PAIRS; SUMMARY_WITH_MESSAGES;
   MESSAGES_UNDER_SUMMARY; MESSAGE_WITH_BODIES].

(** The object [scopeHasIssues] of [updateScopeStatus] as the literal makes
    it: every scope value with [false]. *)
Definition initialScopeFlags : gmap jsstring bool :=
  foldr (fun sc m => <[scopeValue sc := false]> m) ∅ statusScopes.

(** [if (result.criteria_results.some(...)) scopeHasIssues[result.scope] = true] *)
Definition markScope (m : gmap jsstring bool) (r : EvaluationResult)
  : gmap jsstring bool :=
  if hasIssues r then <[scopeValue (scope r) := true]> m else m.

Definition statusFlags (rs : list EvaluationResult) : gmap jsstring bool :=
  fold_left markScope rs initialScopeFlags.

(** The label elements of the page, by their [id]; [true] stands for the
    text "NG" with the class [label-ng], [false] for "OK" with [label-ok].
    One turn of the second loop: the element [`${scope}-status`] is written
    when it exists. *)
Definition writeStatus (flags : gmap jsstring bool)
    (labels : gmap jsstring bool) (sc : EvaluationScope)
  : gmap jsstring bool :=
  let id := scopeValue sc ++ js "-status" in
  match labels !! id with
  | Some _ =>
      match flags !! scopeValue sc with
      | Some true => <[id := true]> labels
      | _ => <[id := false]> labels
      end
  | None => labels
  end.

(** [updateScopeStatus] *)
Definition updateScopeStatus (rs : list EvaluationResult)
    (labels : gmap jsstring bool) : gmap jsstring bool :=
  fold_left (writeStatus (statusFlags rs)) statusScopes labels.

(** The label elements of the task pane page as it is loaded. *)
Definition pageLabels : gmap jsstring bool :=
  foldr (fun id m => <[id := true]> m) ∅
    [js "DOCUMENT_WIDE-status"; js "ALL_SUMMARIES-status";
     js "SUMMARY_PAIRS-status"; js "SUMMARY_WITH_MESSAGES-status";
     js "MESSAGES_UNDER_SUMMARY-status"; js "MESSAGE_WITH_BODIES-status"].

(** The [switch] of the click handler of [setupScopeButtons]: the scope a
    [data-scope] attribute stands for, [None] for the [default] branch. *)
Definition scopeOfAttribute (scopeAttr : jsstring) : option EvaluationScope :=
  if eqb scopeAttr (js "DOCUMENT_WIDE") then Some DOCUMENT_WIDE
  else if eqb scopeAttr (js "ALL_SUMMARIES") then Some ALL_SUMMARIES
  else if eqb scopeAttr (js "SUMMARY_PAIRS") then Some SUMMARY_PAIRS
  else if eqb scopeAttr (js "SUMMARY_WITH_MESSAGES")
       then Some SUMMARY_WITH_MESSAGES
  else if eqb scopeAttr (js "MESSAGES_UNDER_SUMMARY")
       then Some MESSAGES_UNDER_SUMMARY
  else if eqb scopeAttr (js "MESSAGE_WITH_BODIES")
       then Some MESSAGE_WITH_BODIES
  else None.

(** The click handler of a scope button; [scopeAttr] is the value of
    [getAttribute('data-scope')], [None] for [null]. *)
Definition clickScopeButton (ed : Editor) (scopeAttr : option jsstring)
    (w : World) : World :=
  match scopeAttr with
  | None => w
  | Some a =>
      if isEmpty a then w
      else match scopeOfAttribute a with
           | Some sc => filterCommentsByScope ed sc w
           | None => w
           end
  end.

(** The test [btnScope && (btnScope === highestPriorityScope || btnScope ===
    highestPriorityScope.toString())] on the [data-scope] attribute of a
    button, [None] for [null]. *)
Definition isActivated (highestPriorityScope : EvaluationScope)
    (b : option jsstring) : bool :=
  match b with
  | Some btnScope =>
      negb (isEmpty btnScope)
      && (eqb btnScope (scopeValue highestPriorityScope)
          || eqb btnScope (scopeValue highestPriorityScope))
  | None => false
  end.

(** The buttons [showHighestPriorityComments] gives the class [active], of
    buttons given by their [data-scope] attributes: every button loses the
    class, and gets it when the test succeeds. *)
Definition activateButtons (buttons : list (option jsstring))
    (highestPriorityScope : EvaluationScope) : list (option jsstring) :=
  filter (fun b => Is_true (isActivated highestPriorityScope b)) buttons.

(** The [data-scope] attributes of the buttons of the task pane page. *)
Definition pageButtons : list (option jsstring) :=
  [Some (js "DOCUMENT_WIDE"); Some (js "ALL_SUMMARIES");
   Some (js "SUMMARY_PAIRS"); Some (js "SUMMARY_WITH_MESSAGES");
   Some (js "MESSAGES_UNDER_SUMMARY"); Some (js "MESSAGE_WITH_BODIES")].


(** ** Notions for the comments of a pass *)

(** What a pass attaches for a list of results: each comment carries the
    text composed for one of the results and sits on a range the pass
    highlighted. *)
Definition attachedFor (scopeOf : EvaluationResult -> EvaluationScope)
    (rs : list EvaluationResult) (hl : list Range) (c : Comment) : Prop :=
  anchor c ∈ hl
  /\ exists r, r ∈ rs /\ commentText c = composeComment (scopeOf r) r.

(** ** The annotation of the earlier revision *)

(** [getScopeName] of the earlier revision; [getCriteriaName] is the same in
    both. *)
Definition legacyGetScopeName (s : EvaluationScope) : jsstring :=
  match s with
  | DOCUMENT_WIDE => js "文書全体"
  | ALL_SUMMARIES => js "サマリー全体"
  | SUMMARY_PAIRS => js "サマリー内の文のペア"
  | SUMMARY_WITH_MESSAGES => js "サマリーとメッセージ"
  | MESSAGES_UNDER_SUMMARY => js "サマリー配下のメッセージ群"
  | MESSAGE_WITH_BODIES => js "メッセージとボディ"
  end.

(** The text of the comment for a result, headed by the name of its scope. *)
Definition legacyComposeComment (result : EvaluationResult) : jsstring :=
  js "【" ++ legacyGetScopeName (scope result) ++ js "】" ++ [0x0A%N]
  ++ join [0x0A%N; 0x0A%N]
       (map (fun cr => js "【" ++ getCriteriaName (criteria cr) ++ js "】: "
                       ++ issues cr)
            (issuesCriteria result)).

Definition maxCommentLength : nat := 500.

(** [safeCommentText] of [addCommentSafely] of the earlier revision. *)
Definition safeCommentText (t : jsstring) : jsstring :=
  if (maxCommentLength <? length t)%nat
  then substring0 maxCommentLength t ++ js "...（省略）"
  else t.

(** The document of the earlier revision: besides the comments and the
    highlights, the ranges whose text colour was set to red. *)
Record LegacyDocument := {
  l_document : Document;
  redText : list Range
}.

Definition legacyHighlight (r : Range) (w : LegacyDocument) : LegacyDocument :=
  {| l_document :=
       {| paragraphs := paragraphs (l_document w);
          comments := comments (l_document w);
          highlighted := highlighted (l_document w) ++ [r] |};
     redText := redText w |}.

Definition legacyRedden (r : Range) (w : LegacyDocument) : LegacyDocument :=
  {| l_document := l_document w; redText := redText w ++ [r] |}.

(** [addCommentSafely] of the earlier revision: the text is cut, and the
    comment is attached unless the editor refuses, which the function
    reports by [false]. *)
Definition legacyAddCommentSafely (ed : Editor) (r : Range) (t : jsstring)
    (w : LegacyDocument) : LegacyDocument * bool :=
  if accepts ed r (safeCommentText t)
  then ({| l_document :=
             {| paragraphs := paragraphs (l_document w);
                comments := comments (l_document w)
                            ++ [{| anchor := r;
                                   commentText := safeCommentText t |}];
                highlighted := highlighted (l_document w) |};
           redText := redText w |}, true)
  else (w, false).

(** One turn of the highlighting loop; [titleParagraph] is what the scan
    left, [None] for [null]. *)
Definition legacyHighlightResult (ed : Editor) (titleParagraph : option nat)
    (w : LegacyDocument) (result : EvaluationResult) : LegacyDocument :=
  match issuesCriteria result with
  | [] => w
  | _ :: _ =>
      match (if bool_decide (scope result = ALL_SUMMARIES)
             then titleParagraph else None) with
      | Some i => legacyHighlight (ParagraphRange i) w
      | None =>
          match legacyFindTextInDocument ed (target_text result)
                  (Some (paragraphs (l_document w))) with
          | Some matchedRange => legacyHighlight matchedRange w
          | None => w
          end
      end
  end.

(** One turn of the commenting loop. *)
Definition legacyCommentResult (ed : Editor) (w : LegacyDocument)
    (result : EvaluationResult) : LegacyDocument :=
  match issuesCriteria result with
  | [] => w
  | _ :: _ =>
      match legacyFindTextInDocument ed (target_text result)
              (Some (paragraphs (l_document w))) with
      | Some matchedRange =>
          let '(w1, commentAdded) :=
            legacyAddCommentSafely ed matchedRange
              (legacyComposeComment result) w in
          if commentAdded then w1 else legacyRedden matchedRange w1
      | None => w
      end
  end.

(** The two loops over the results of the response. *)
Definition legacyAnnotate (ed : Editor) (titleParagraph : option nat)
    (rs : list EvaluationResult) (w : LegacyDocument) : LegacyDocument :=
  fold_left (legacyCommentResult ed) rs
    (fold_left (legacyHighlightResult ed titleParagraph) rs w).

(** [run] of the earlier revision, on the document. *)
Definition legacyRun (ed : Editor) (fetch : BulletPointsRequest -> FetchOutcome)
    (w : LegacyDocument) : LegacyDocument :=
  let ps := paragraphs (l_document w) in
  let bulletPointsData := legacyRequest ps in
  match summaries bulletPointsData with
  | [] => w
  | _ :: _ =>
      match fetch bulletPointsData with
      | Response true (Some responseData) =>
          if eqb (status responseData) (js "success")
          then legacyAnnotate ed
                 (titleParagraph (legacyDetect 0 ps legacyScanInit))
                 (results responseData) w
          else w
      | _ => w
      end
  end.

(** What the two loops leave for one result, on the paragraphs [ps]. *)
Definition legacyHighlightOf (ed : Editor) (titleParagraph : option nat)
    (ps : list Paragraph) (result : EvaluationResult) : list Range :=
  match issuesCriteria result with
  | [] => []
  | _ :: _ =>
      match (if bool_decide (scope result = ALL_SUMMARIES)
             then titleParagraph else None) with
      | Some i => [ParagraphRange i]
      | None =>
          option_list (legacyFindTextInDocument ed (target_text result) (Some ps))
      end
  end.

Definition legacyCommentOf (ed : Editor) (ps : list Paragraph)
    (result : EvaluationResult) : list Comment :=
  match issuesCriteria result,
        legacyFindTextInDocument ed (target_text result) (Some ps) with
  | _ :: _, Some r =>
      if accepts ed r (safeCommentText (legacyComposeComment result))
      then [{| anchor := r;
               commentText := safeCommentText (legacyComposeComment result) |}]
      else []
  | _, _ => []
  end.

Definition legacyRedOf (ed : Editor) (ps : list Paragraph)
    (result : EvaluationResult) : list Range :=
  match issuesCriteria result,
        legacyFindTextInDocument ed (target_text result) (Some ps) with
  | _ :: _, Some r =>
      if accepts ed r (safeCommentText (legacyComposeComment result))
      then [] else [r]
  | _, _ => []
  end.

(** A document of the earlier revision with nothing attached, for the
    examples. *)
Definition legacyDocumentOf (ps : list Paragraph) : LegacyDocument :=
  {| l_document := {| paragraphs := ps; comments := []; highlighted := [] |};
     redText := [] |}.


(** * Properties *)

(** Literals and the tests on texts are computed only on demand. *)
Arguments js : simpl never.
Arguments trim : simpl never.
Arguments isBulletPoint : simpl never.
Arguments cleanText : simpl never.
Arguments inferLevel : simpl never.


(** ** Strings *)

Example js_unclassified : js "未分類" = [0x672A; 0x5206; 0x985E]%N.
Proof. reflexivity. Qed.

Example js_trim : trim (js "  a b  ") = js "a b".
Proof. reflexivity. Qed.

Example js_splitWS : splitWS (js " a  b ") = [js ""; js "a"; js "b"; js ""].
Proof. reflexivity. Qed.

Example js_splitSpace : splitSpace (js "a  b") = [js "a"; js ""; js "b"].
Proof. reflexivity. Qed.

Example js_dedupe : dedupe [js "x"; js "y"; js "x"] = [js "x"; js "y"].
Proof. reflexivity. Qed.

Lemma eqb_true (s t : jsstring) : eqb s t = true <-> s = t.
Proof. unfold eqb. apply bool_decide_eq_true. Qed.

Lemma eqb_false (s t : jsstring) : eqb s t = false <-> s <> t.
Proof. unfold eqb. apply bool_decide_eq_false. Qed.

Lemma isEmpty_true (s : jsstring) : isEmpty s = true <-> s = [].
Proof. destruct s; simpl; split; congruence. Qed.

Lemma isEmpty_false (s : jsstring) : isEmpty s = false <-> s <> [].
Proof. destruct s; simpl; split; congruence. Qed.

Lemma dropWhile_all (p : N -> bool) (s : jsstring) :
  Forall (fun c => p c = true) s -> dropWhile p s = [].
Proof.
  induction 1 as [|c s Hc _ IH]; simpl; [reflexivity|].
  rewrite Hc. exact IH.
Qed.

Lemma dropWhile_app_stop (p : N -> bool) (a : jsstring) c (b : jsstring) :
  Forall (fun x => p x = true) a -> p c = false ->
  dropWhile p (a ++ c :: b) = c :: b.
Proof.
  induction 1 as [|x a Hx _ IH]; simpl; intros Hc.
  - rewrite Hc. reflexivity.
  - rewrite Hx. auto.
Qed.

(** Every string is a run the predicate accepts, followed by what
    [dropWhile] leaves. *)
Lemma dropWhile_split (p : N -> bool) (s : jsstring) :
  exists a, s = a ++ dropWhile p s /\ Forall (fun x => p x = true) a.
Proof.
  induction s as [|c s [a [Ha Hall]]]; simpl.
  - exists []. split; [reflexivity|constructor].
  - destruct (p c) eqn:Hc.
    + exists (c :: a). split; [simpl; congruence|constructor; assumption].
    + exists []. split; [reflexivity|constructor].
Qed.

Lemma dropWhile_head (p : N -> bool) (s : jsstring) c r :
  dropWhile p s = c :: r -> p c = false.
Proof.
  induction s as [|x s IH]; simpl; [discriminate|].
  destruct (p x) eqn:Hx; [exact IH|].
  intros [= <- _]. exact Hx.
Qed.

Lemma dropWhile_fix (p : N -> bool) c (r : jsstring) :
  p c = false -> dropWhile p (c :: r) = c :: r.
Proof. simpl. intros ->. reflexivity. Qed.

(** A string is a white-space run, its trimmed text, and a white-space
    run. *)
Lemma trim_split (s : jsstring) :
  exists a b, s = a ++ trim s ++ b
    /\ Forall (fun x => isWhiteSpace x = true) a
    /\ Forall (fun x => isWhiteSpace x = true) b.
Proof.
  unfold trim, trimEnd, trimStart.
  destruct (dropWhile_split isWhiteSpace s) as [a [Ha Hall]].
  destruct (dropWhile_split isWhiteSpace (reverse (dropWhile isWhiteSpace s)))
    as [b [Hb Hbll]].
  exists a, (reverse b). split; [|split].
  - rewrite Ha at 1. f_equal.
    rewrite <- reverse_app, <- Hb, reverse_involutive. reflexivity.
  - exact Hall.
  - apply Forall_reverse. exact Hbll.
Qed.

Lemma trim_whitespace (s : jsstring) :
  Forall (fun x => isWhiteSpace x = true) s -> trim s = [].
Proof.
  intros H. unfold trim, trimStart, trimEnd.
  rewrite (dropWhile_all _ _ H). reflexivity.
Qed.

(** The trimmed text neither starts nor ends with white space. *)
Lemma trim_first (s : jsstring) c r :
  trim s = c :: r -> isWhiteSpace c = false.
Proof.
  unfold trim, trimEnd, trimStart.
  destruct (dropWhile isWhiteSpace s) as [|x u] eqn:Hu; [discriminate|].
  pose proof (dropWhile_head _ _ _ _ Hu) as Hx.
  destruct (dropWhile_split isWhiteSpace (reverse (x :: u))) as [b [Hb Hbll]].
  intros Ht.
  assert (Hrev : x :: u = (c :: r) ++ reverse b).
  { rewrite <- Ht, <- reverse_app, <- Hb, reverse_involutive. reflexivity. }
  simpl in Hrev. injection Hrev as -> _. exact Hx.
Qed.

Lemma trim_last (s : jsstring) c r :
  reverse (trim s) = c :: r -> isWhiteSpace c = false.
Proof.
  unfold trim, trimEnd. rewrite reverse_involutive.
  apply dropWhile_head.
Qed.

Lemma dropWhile_id (p : N -> bool) (s : jsstring) :
  (forall c r, s = c :: r -> p c = false) -> dropWhile p s = s.
Proof.
  destruct s as [|c r]; [reflexivity|].
  intros H. apply dropWhile_fix. eapply H. reflexivity.
Qed.

Lemma trim_clean (t : jsstring) :
  (forall c r, t = c :: r -> isWhiteSpace c = false) ->
  (forall c r, reverse t = c :: r -> isWhiteSpace c = false) ->
  trim t = t.
Proof.
  intros Hfirst Hlast. unfold trim, trimStart, trimEnd.
  rewrite (dropWhile_id _ t Hfirst).
  rewrite (dropWhile_id _ (reverse t) Hlast).
  apply reverse_involutive.
Qed.

Lemma trim_idempotent (s : jsstring) : trim (trim s) = trim s.
Proof.
  apply trim_clean.
  - intros c r. apply trim_first.
  - intros c r. apply trim_last.
Qed.

(** ** Hierarchy builder *)

Lemma flat_map_flat_map {A B C} (f : B -> list C) (g : A -> list B)
    (l : list A) :
  flat_map f (flat_map g l) = flat_map (fun x => flat_map f (g x)) l.
Proof.
  induction l as [|x l IH]; simpl; [reflexivity|].
  rewrite flat_map_app, IH. reflexivity.
Qed.

Lemma flat_map_ext_Forall {A B} (f g : A -> list B) (l : list A) :
  Forall (fun x => f x = g x) l -> flat_map f l = flat_map g l.
Proof.
  induction 1 as [|x l Hx _ IH]; simpl; [reflexivity|].
  rewrite Hx, IH. reflexivity.
Qed.

(** Following the references [0 .. length l - 1] visits [l] in order. *)
Lemma flat_map_lookup_seq {A B} (f : A -> list B) (pre l : list A) :
  flat_map (fun r => match (pre ++ l) !! r with
                     | Some o => f o
                     | None => []
                     end)
           (seq (length pre) (length l))
  = flat_map f l.
Proof.
  revert pre. induction l as [|x l IH]; intros pre; simpl; [reflexivity|].
  rewrite list_lookup_middle by reflexivity. f_equal.
  specialize (IH (pre ++ [x])).
  rewrite length_app, <- app_assoc in IH. simpl in IH.
  rewrite Nat.add_1_r in IH. exact IH.
Qed.

Lemma read_heapMessage (ms : list MessageObj) (r : nat) :
  flat_map outlineMessage (readMessage ms r) = heapMessage ms r.
Proof.
  unfold readMessage, heapMessage.
  destruct (ms !! r); simpl; [rewrite app_nil_r|]; reflexivity.
Qed.

(** With the result array in order, the outline of what a reader sees is
    the outline of the heap. *)
Lemma outline_readSummaries (b : Builder) :
  bd_summaries b = seq 0 (length (summaryObjs b)) ->
  outline (readSummaries b) = heapOutline b.
Proof.
  intros Hs. unfold outline, readSummaries, heapOutline. rewrite Hs.
  rewrite flat_map_flat_map. unfold readSummary.
  rewrite <- (flat_map_lookup_seq (heapSummary (messageObjs b)) []
                (summaryObjs b)).
  simpl. apply flat_map_ext. intros r.
  destruct (summaryObjs b !! r) as [o|]; simpl; [|reflexivity].
  rewrite app_nil_r. unfold heapSummary. f_equal.
  rewrite flat_map_flat_map. apply flat_map_ext. intros m.
  apply read_heapMessage.
Qed.

Lemma last_split {A} (l : list A) (n : nat) :
  S n = length l -> exists l0 x, l = l0 ++ [x] /\ length l0 = n.
Proof.
  intros Hn. destruct l as [|y l] using rev_ind; [discriminate|].
  exists l, y. split; [reflexivity|].
  rewrite length_app in Hn. simpl in Hn. lia.
Qed.

Lemma heapMessage_old (ms ext : list MessageObj) (r : nat) :
  r < length ms -> heapMessage (ms ++ ext) r = heapMessage ms r.
Proof.
  intros Hr. unfold heapMessage. rewrite lookup_app_l by exact Hr. reflexivity.
Qed.

Lemma heapMessages_old (ms ext : list MessageObj) (rs : list nat) :
  Forall (fun r => r < length ms) rs ->
  flat_map (heapMessage (ms ++ ext)) rs = flat_map (heapMessage ms) rs.
Proof.
  intros H. apply flat_map_ext_Forall.
  eapply Forall_impl; [exact H|]. intros r Hr. apply heapMessage_old, Hr.
Qed.

Lemma heapSummaries_old (ms ext : list MessageObj) (os : list SummaryObj) :
  Forall (fun r => r < length ms) (concat (map so_messages os)) ->
  flat_map (heapSummary (ms ++ ext)) os = flat_map (heapSummary ms) os.
Proof.
  induction os as [|o os IH]; simpl; [reflexivity|].
  rewrite Forall_app. intros [Ho Hos].
  rewrite IH by exact Hos. unfold heapSummary.
  rewrite heapMessages_old by exact Ho. reflexivity.
Qed.

Lemma Forall_seq_lt (n : nat) : Forall (fun r => r < n) (seq 0 n).
Proof. apply Forall_forall. intros r Hr. apply elem_of_seq in Hr. lia. Qed.

Lemma newSummary_outline (c : jsstring) (b : Builder) :
  heapOutline (newSummary c b) = heapOutline b ++ [(0%Z, c)].
Proof.
  unfold heapOutline, newSummary. simpl.
  rewrite flat_map_app. reflexivity.
Qed.

Lemma clearMessage_outline (b : Builder) :
  heapOutline (clearMessage b) = heapOutline b.
Proof. reflexivity. Qed.

Lemma newSummary_linked (c : jsstring) (b : Builder) :
  WellLinked b -> WellLinked (clearMessage (newSummary c b)).
Proof.
  intros [Hs Hm Hcs Hcm]. split; simpl.
  - rewrite length_app, Hs. simpl. rewrite Nat.add_1_r, seq_S. reflexivity.
  - rewrite map_app, concat_app. simpl. rewrite app_nil_r. exact Hm.
  - intros r [= <-]. rewrite length_app. simpl. lia.
  - intros m [=].
Qed.

Lemma newSummary_no_message (c : jsstring) (b : Builder) :
  currentMessage b = None -> clearMessage (newSummary c b) = newSummary c b.
Proof. intros H. unfold clearMessage, newSummary. simpl. rewrite H. reflexivity. Qed.

(** After [if (!currentSummary) { ... }] the summary cursor is set, the
    links are in order, and at most the placeholder was added. *)
Lemma ensureSummary_linked (b : Builder) :
  WellLinked b ->
  WellLinked (fst (ensureSummary b))
  /\ currentSummary (fst (ensureSummary b)) = Some (snd (ensureSummary b))
  /\ exists pre,
       heapOutline (fst (ensureSummary b)) = heapOutline b ++ pre.
Proof.
  intros Hb. unfold ensureSummary.
  destruct (currentSummary b) as [r|] eqn:Hcs; simpl.
  - split; [exact Hb|]. split; [exact Hcs|].
    exists []. rewrite app_nil_r. reflexivity.
  - assert (Hcm : currentMessage b = None).
    { destruct (currentMessage b) as [m|] eqn:Hm; [|reflexivity].
      destruct (wl_currentMessage b Hb m Hm) as [_ (r & o & ms0 & Hr & _)].
      congruence. }
    rewrite <- (newSummary_no_message _ _ Hcm).
    split; [apply newSummary_linked, Hb|]. split; [reflexivity|].
    exists [(0%Z, unclassified)]. rewrite clearMessage_outline.
    apply newSummary_outline.
Qed.

Lemma newMessage_linked (c : jsstring) (s : nat) (b : Builder) :
  WellLinked b -> currentSummary b = Some s ->
  WellLinked (newMessage c s b)
  /\ heapOutline (newMessage c s b) = heapOutline b ++ [(1%Z, c)]
  /\ currentMessage (newMessage c s b) = Some (length (messageObjs b)).
Proof.
  intros [Hs Hm Hcs Hcm] Hcur.
  destruct (last_split _ _ (Hcs s Hcur)) as (l0 & o & Hl & Hlen).
  unfold newMessage, heapOutline. simpl. rewrite Hl in *. subst s.
  assert (Halter : forall f : SummaryObj -> SummaryObj,
             alter f (length l0) (l0 ++ [o]) = l0 ++ [f o]).
  { intros f. rewrite alter_app_r_alt by lia.
    rewrite Nat.sub_diag. reflexivity. }
  rewrite Halter.
  rewrite map_app, concat_app in Hm. simpl in Hm. rewrite app_nil_r in Hm.
  pose proof (Forall_seq_lt (length (messageObjs b))) as Hlt.
  rewrite <- Hm in Hlt. apply Forall_app in Hlt. destruct Hlt as [Hlt0 Hlto].
  split; [split; simpl|split].
  - rewrite length_app in *. simpl in *. exact Hs.
  - rewrite map_app, concat_app. simpl. rewrite app_nil_r.
    rewrite app_assoc, Hm, length_app. simpl.
    rewrite Nat.add_1_r, seq_S. reflexivity.
  - intros r Hr. rewrite length_app. simpl.
    specialize (Hcs r Hr). rewrite length_app in Hcs. simpl in Hcs. exact Hcs.
  - intros m [= <-]. split; [rewrite length_app; simpl; lia|].
    exists (length l0), {| so_content := so_content o;
                           so_messages := so_messages o ++ [length (messageObjs b)] |},
      (so_messages o).
    split; [exact Hcur|]. split; [|reflexivity].
    apply list_lookup_middle. reflexivity.
  - rewrite !flat_map_app. simpl. rewrite !app_nil_r.
    rewrite heapSummaries_old by exact Hlt0.
    rewrite <- app_assoc. f_equal.
    unfold heapSummary. simpl. rewrite flat_map_app. simpl.
    rewrite app_nil_r, heapMessages_old by exact Hlto.
    unfold heapMessage at 2.
    rewrite list_lookup_middle by reflexivity. reflexivity.
  - reflexivity.
Qed.

Lemma heapMessage_alter_other (g : MessageObj -> MessageObj)
    (ms : list MessageObj) (m r : nat) :
  r <> m -> heapMessage (alter g m ms) r = heapMessage ms r.
Proof.
  intros Hr. unfold heapMessage.
  rewrite list_lookup_alter_ne by congruence. reflexivity.
Qed.

Lemma heapMessages_alter_other (g : MessageObj -> MessageObj)
    (ms : list MessageObj) (m : nat) (rs : list nat) :
  Forall (fun r => r < m) rs ->
  flat_map (heapMessage (alter g m ms)) rs = flat_map (heapMessage ms) rs.
Proof.
  intros H. apply flat_map_ext_Forall.
  eapply Forall_impl; [exact H|].
  intros r Hr. simpl in Hr. apply heapMessage_alter_other. lia.
Qed.

Lemma heapSummaries_alter_other (g : MessageObj -> MessageObj)
    (ms : list MessageObj) (m : nat) (os : list SummaryObj) :
  Forall (fun r => r < m) (concat (map so_messages os)) ->
  flat_map (heapSummary (alter g m ms)) os = flat_map (heapSummary ms) os.
Proof.
  induction os as [|o os IH]; simpl; [reflexivity|].
  rewrite Forall_app. intros [Ho Hos].
  rewrite IH by exact Hos. unfold heapSummary.
  rewrite heapMessages_alter_other by exact Ho. reflexivity.
Qed.

Lemma pushBody_linked (c : jsstring) (m : nat) (b : Builder) :
  WellLinked b -> currentMessage b = Some m ->
  WellLinked (pushBody c m b)
  /\ heapOutline (pushBody c m b) = heapOutline b ++ [(2%Z, c)].
Proof.
  intros [Hs Hm Hcs Hcm] Hcur.
  destruct (Hcm m Hcur) as [Hlen (r & o & ms0 & Hr & Hlook & Hmsgs)].
  split.
  - split; simpl; try assumption.
    + rewrite length_alter. exact Hm.
    + intros m' Hm'. rewrite length_alter. apply Hcm, Hm'.
  - destruct (last_split _ _ (Hcs r Hr)) as (l0 & o' & Hl & Hl0).
    assert (o' = o) as ->.
    { rewrite Hl in Hlook. subst r.
      rewrite list_lookup_middle in Hlook by reflexivity. congruence. }
    destruct (last_split _ _ Hlen) as (m0 & mo & Hmo & Hm0).
    unfold heapOutline, pushBody. simpl.
    rewrite Hl in Hm |- *.
    rewrite map_app, concat_app in Hm. simpl in Hm.
    rewrite app_nil_r, Hmsgs, <- Hlen, seq_S in Hm. simpl in Hm.
    rewrite app_assoc in Hm. apply app_inj_tail in Hm. destruct Hm as [Hm _].
    pose proof (Forall_seq_lt m) as Hlt.
    rewrite <- Hm in Hlt. apply Forall_app in Hlt. destruct Hlt as [Hlt0 Hlto].
    rewrite !flat_map_app. simpl. rewrite !app_nil_r.
    rewrite heapSummaries_alter_other by exact Hlt0.
    rewrite <- app_assoc. f_equal.
    unfold heapSummary. rewrite Hmsgs, !flat_map_app. simpl.
    rewrite !app_nil_r, heapMessages_alter_other by exact Hlto.
    rewrite <- app_assoc. do 2 f_equal.
    unfold heapMessage. rewrite list_lookup_alter_eq, Hmo. subst m.
    rewrite list_lookup_middle by reflexivity. simpl.
    rewrite map_app. reflexivity.
Qed.

Lemma entry_empty (bp : BulletPoint) : isEmpty (bp_text bp) = true -> entry bp = [].
Proof. unfold entry. intros ->. reflexivity. Qed.

(** One turn of the loop keeps the links in order and extends the outline
    at its end: by the placeholders the bullet point lacks, then by the
    bullet point. *)
Lemma placeBullet_linked (b : Builder) (bp : BulletPoint) :
  WellLinked b ->
  WellLinked (placeBullet b bp)
  /\ exists pre,
       heapOutline (placeBullet b bp) = heapOutline b ++ pre ++ entry bp.
Proof.
  intros Hb. unfold placeBullet, entry.
  destruct (isEmpty (bp_text bp)).
  { split; [exact Hb|]. exists []. rewrite !app_nil_r. reflexivity. }
  destruct (level bp =? 0)%Z eqn:H0.
  { apply Z.eqb_eq in H0. rewrite H0. simpl.
    split; [apply newSummary_linked, Hb|].
    exists []. rewrite clearMessage_outline. apply newSummary_outline. }
  destruct (level bp =? 1)%Z eqn:H1.
  { apply Z.eqb_eq in H1. rewrite H1. simpl.
    destruct (ensureSummary_linked b Hb) as (Hb1 & Hcs & pre & Hpre).
    destruct (ensureSummary b) as [b1 s]. simpl in *.
    destruct (newMessage_linked (bp_text bp) s b1 Hb1 Hcs) as (Hb2 & Hout & _).
    split; [exact Hb2|].
    exists pre. rewrite Hout, Hpre, <- app_assoc. reflexivity. }
  destruct (level bp =? 2)%Z eqn:H2.
  { apply Z.eqb_eq in H2. rewrite H2. simpl.
    destruct (currentMessage b) as [m|] eqn:Hcm.
    - destruct (pushBody_linked (bp_text bp) m b Hb Hcm) as [Hb1 Hout].
      split; [exact Hb1|]. exists []. exact Hout.
    - destruct (ensureSummary_linked b Hb) as (Hb1 & Hcs & pre & Hpre).
      destruct (ensureSummary b) as [b1 s]. simpl in *.
      destruct (newMessage_linked unclassified s b1 Hb1 Hcs)
        as (Hb2 & Hout2 & Hcm2).
      destruct (pushBody_linked (bp_text bp) _ _ Hb2 Hcm2) as [Hb3 Hout3].
      split; [exact Hb3|].
      exists (pre ++ [(1%Z, unclassified)]).
      rewrite Hout3, Hout2, Hpre, <- !app_assoc. reflexivity. }
  simpl. split; [exact Hb|]. exists []. rewrite !app_nil_r. reflexivity.
Qed.

Lemma builderInit_linked : WellLinked builderInit.
Proof. split; simpl; try reflexivity; intros ? [=]. Qed.

(** The loop keeps the links in order and only extends the outline; the
    bullet points are found in the extension, in their order. *)
Lemma placeBullets_linked (bps : list BulletPoint) (b : Builder) :
  WellLinked b ->
  WellLinked (placeBullets bps b)
  /\ exists ext,
       heapOutline (placeBullets bps b) = heapOutline b ++ ext
       /\ flat_map entry bps `sublist_of` ext.
Proof.
  revert b. induction bps as [|bp bps IH]; intros b Hb; simpl.
  - split; [exact Hb|]. exists []. rewrite app_nil_r.
    split; [reflexivity|constructor].
  - destruct (placeBullet_linked b bp Hb) as [Hb1 [pre Hpre]].
    destruct (IH _ Hb1) as [Hb2 (ext & Hext & Hsub)].
    split; [exact Hb2|].
    exists ((pre ++ entry bp) ++ ext). split.
    + unfold placeBullets in *. simpl. rewrite Hext, Hpre, <- !app_assoc.
      reflexivity.
    + apply sublist_app; [|exact Hsub].
      apply sublist_inserts_l. reflexivity.
Qed.

(** The outline of any tree of summaries, messages and bodies has no
    orphan. *)
Lemma noOrphans_bodies (hs : bool) (bs : list Body.t) (rest : list (Z * jsstring)) :
  noOrphans hs true (map (fun b => (2%Z, Body.content b)) bs ++ rest)
  = noOrphans hs true rest.
Proof. induction bs as [|b bs IH]; simpl; [reflexivity|exact IH]. Qed.

Lemma noOrphans_messages (hm : bool) (ms : list Message.t)
    (rest : list (Z * jsstring)) :
  (forall hm', noOrphans true hm' rest = true) ->
  noOrphans true hm (flat_map outlineMessage ms ++ rest) = true.
Proof.
  intros Hrest. revert hm.
  induction ms as [|m ms IH]; intros hm; simpl; [apply Hrest|].
  rewrite <- app_assoc, noOrphans_bodies. apply IH.
Qed.

Lemma noOrphans_outline (hs hm : bool) (ss : list Summary.t) :
  noOrphans hs hm (outline ss) = true.
Proof.
  revert hs hm. induction ss as [|s ss IH]; intros hs hm; simpl; [reflexivity|].
  apply noOrphans_messages. intros hm'. apply IH.
Qed.

(** An outline that starts with a summary and a message is that of a tree
    whose first summary and first message have these contents. *)
Lemma outline_starts (ss : list Summary.t) (c t : jsstring)
    (rest : list (Z * jsstring)) :
  outline ss = (0%Z, c) :: (1%Z, t) :: rest ->
  exists bs ms ss',
    ss = Summary.mk c (Message.mk t bs :: ms) :: ss'.
Proof.
  destruct ss as [|[c' ms] ss']; simpl; [discriminate|].
  intros [= -> H].
  destruct ms as [|[t' bs] ms]; simpl in H.
  - destruct ss' as [|s ss'']; simpl in H; discriminate.
  - injection H as -> _. eauto.
Qed.

Lemma outline_body_inside (ss : list Summary.t) (t : jsstring) :
  (2%Z, t) ∈ outline ss ->
  exists s m, s ∈ ss /\ m ∈ Summary.messages s /\ Body.mk t ∈ Message.bodies m.
Proof.
  unfold outline. rewrite list_elem_of_In, in_flat_map.
  intros (s & Hs & Hin). unfold outlineSummary in Hin.
  destruct Hin as [[=]|Hin]. rewrite in_flat_map in Hin.
  destruct Hin as (m & Hm & Hin). unfold outlineMessage in Hin.
  destruct Hin as [[=]|Hin]. rewrite in_map_iff in Hin.
  destruct Hin as ([c] & [= ->] & Hb).
  exists s, m. rewrite !list_elem_of_In. auto.
Qed.

Lemma outline_message_inside (ss : list Summary.t) (t : jsstring) :
  (1%Z, t) ∈ outline ss ->
  exists s m, s ∈ ss /\ m ∈ Summary.messages s /\ Message.content m = t.
Proof.
  unfold outline. rewrite list_elem_of_In, in_flat_map.
  intros (s & Hs & Hin). unfold outlineSummary in Hin.
  destruct Hin as [[=]|Hin]. rewrite in_flat_map in Hin.
  destruct Hin as (m & Hm & Hin). unfold outlineMessage in Hin.
  destruct Hin as [[= Heq]|Hin].
  - exists s, m. rewrite !list_elem_of_In. auto.
  - rewrite in_map_iff in Hin. destruct Hin as (? & [=] & _).
Qed.

Lemma entry_in (bp : BulletPoint) (bps : list BulletPoint) (k : Z) :
  bp ∈ bps -> bp_text bp <> [] -> level bp = k ->
  (k = 0 \/ k = 1 \/ k = 2)%Z ->
  (k, bp_text bp) ∈ flat_map entry bps.
Proof.
  intros Hin Htext Hk Hrange. rewrite list_elem_of_In, in_flat_map.
  exists bp. split; [apply list_elem_of_In, Hin|].
  unfold entry. apply isEmpty_false in Htext. rewrite Htext, Hk.
  destruct Hrange as [->|[->| ->]]; simpl; auto.
Qed.

(** C1.  The outline built from any sequence of bullet points has no orphan.
    In the heap the loop leaves, the result array holds every summary object
    once and the summaries hold every message object once; in the tree a
    reader of the result sees, read in order, a message comes before every
    body and a summary before every message; the bullet points themselves
    are all there, in their order; so every bullet point of level 2 is a body
    of a message of a summary of the result, and every bullet point of level
    1 a message of a summary of the result, whatever came before them. *)
Theorem hierarchy_has_no_orphans (bps : list BulletPoint) :
  let b := placeBullets bps builderInit in
  bd_summaries b = seq 0 (length (summaryObjs b))
  /\ concat (map so_messages (summaryObjs b)) = seq 0 (length (messageObjs b))
  /\ noOrphans false false (outline (buildHierarchy bps)) = true
  /\ flat_map entry bps `sublist_of` outline (buildHierarchy bps)
  /\ (forall bp, bp ∈ bps -> bp_text bp <> [] -> level bp = 2%Z ->
      exists s m, s ∈ buildHierarchy bps /\ m ∈ Summary.messages s
                  /\ Body.mk (bp_text bp) ∈ Message.bodies m)
  /\ (forall bp, bp ∈ bps -> bp_text bp <> [] -> level bp = 1%Z ->
      exists s m, s ∈ buildHierarchy bps /\ m ∈ Summary.messages s
                  /\ Message.content m = bp_text bp).
Proof.
  intros b.
  destruct (placeBullets_linked bps builderInit builderInit_linked)
    as [Hb (ext & Hext & Hsub)].
  fold b in Hb, Hext. simpl in Hext.
  assert (Hout : outline (buildHierarchy bps) = ext).
  { unfold buildHierarchy. fold b.
    rewrite outline_readSummaries by apply Hb. exact Hext. }
  split; [apply Hb|]. split; [apply Hb|].
  split; [apply noOrphans_outline|].
  split; [rewrite Hout; exact Hsub|].
  split.
  - intros bp Hin Htext Hlevel. apply outline_body_inside.
    rewrite Hout. eapply elem_of_sublist; [|exact Hsub].
    apply entry_in with (k := 2%Z); auto.
  - intros bp Hin Htext Hlevel. apply outline_message_inside.
    rewrite Hout. eapply elem_of_sublist; [|exact Hsub].
    apply entry_in with (k := 1%Z); auto.
Qed.

(** A body met before any summary and message still ends inside a message
    inside a summary. *)
Lemma hierarchy_has_no_orphans_witness :
  exists s m,
    s ∈ buildHierarchy [{| bp_text := js "b"; level := 2; paragraph := 0 |};
                        {| bp_text := js "m"; level := 1; paragraph := 1 |}]
    /\ m ∈ Summary.messages s
    /\ Body.mk (js "b") ∈ Message.bodies m.
Proof.
  destruct (hierarchy_has_no_orphans
              [{| bp_text := js "b"; level := 2; paragraph := 0 |};
               {| bp_text := js "m"; level := 1; paragraph := 1 |}])
    as (_ & _ & _ & _ & Hbody & _).
  apply (Hbody {| bp_text := js "b"; level := 2; paragraph := 0 |}).
  - apply list_elem_of_here.
  - discriminate.
  - reflexivity.
Defined.

Example hierarchy_orphan_body :
  buildHierarchy [{| bp_text := js "b"; level := 2; paragraph := 0 |};
                  {| bp_text := js "m"; level := 1; paragraph := 1 |}]
  = [Summary.mk unclassified
       [Message.mk unclassified [Body.mk (js "b")];
        Message.mk (js "m") []]].
Proof. reflexivity. Qed.

(** The scenario of the design document, in both revisions. *)
Example outline_scenario :
  let ps := [flush "Title"; flush "• Summary A";
             indented "  • Message A1" 24; indented "    • Body A1a" 48] in
  requestOfRun ps
  = Some {| summaries :=
              [Summary.mk (js "Summary A")
                 [Message.mk (js "Message A1") [Body.mk (js "Body A1a")]]];
            title := Some (js "Title") |}
  /\ legacyRequest ps
     = {| summaries :=
            [Summary.mk (js "Summary A")
               [Message.mk (js "Message A1") [Body.mk (js "Body A1a")]]];
          title := Some (js "Title") |}.
Proof. split; reflexivity. Qed.

Lemma placeBullets_empty_text (pre : list BulletPoint) (b : Builder) :
  Forall (fun p => bp_text p = []) pre -> placeBullets pre b = b.
Proof.
  induction 1 as [|p pre Hp _ IH]; simpl; [reflexivity|].
  unfold placeBullet. rewrite Hp. simpl. exact IH.
Qed.

(** C5.  When the first bullet point with a text has level 1, whatever
    follows it, the first summary of the result is the synthesized one,
    with the placeholder content (the literal of the script, which reads
    "unclassified"), and its first message is that bullet point. *)
Theorem orphan_message_gets_placeholder_summary
    (pre rest : list BulletPoint) (bp : BulletPoint) :
  Forall (fun p => bp_text p = []) pre ->
  bp_text bp <> [] ->
  level bp = 1%Z ->
  exists bs ms ss,
    buildHierarchy (pre ++ bp :: rest)
    = Summary.mk unclassified (Message.mk (bp_text bp) bs :: ms) :: ss.
Proof.
  intros Hpre Htext Hlevel.
  unfold buildHierarchy, placeBullets. rewrite fold_left_app. simpl.
  fold (placeBullets pre builderInit).
  rewrite (placeBullets_empty_text _ _ Hpre).
  fold (placeBullets rest (placeBullet builderInit bp)).
  destruct (placeBullet_linked builderInit bp builderInit_linked) as [Hb1 _].
  assert (Hfirst : heapOutline (placeBullet builderInit bp)
                   = [(0%Z, unclassified); (1%Z, bp_text bp)]).
  { unfold placeBullet. apply isEmpty_false in Htext. rewrite Htext, Hlevel.
    reflexivity. }
  destruct (placeBullets_linked rest _ Hb1) as [Hb2 (ext & Hext & _)].
  rewrite Hfirst in Hext.
  rewrite <- outline_readSummaries in Hext by apply Hb2.
  eapply outline_starts. exact Hext.
Qed.

Lemma orphan_message_gets_placeholder_summary_witness :
  exists bs ms ss,
    buildHierarchy
      ([{| bp_text := []; level := 0; paragraph := 0 |}]
       ++ {| bp_text := js "Message"; level := 1; paragraph := 1 |}
       :: [{| bp_text := js "Body"; level := 2; paragraph := 2 |}])
    = Summary.mk unclassified (Message.mk (js "Message") bs :: ms) :: ss.
Proof.
  apply (orphan_message_gets_placeholder_summary
           [{| bp_text := []; level := 0; paragraph := 0 |}]
           [{| bp_text := js "Body"; level := 2; paragraph := 2 |}]
           {| bp_text := js "Message"; level := 1; paragraph := 1 |}).
  - repeat constructor.
  - discriminate.
  - reflexivity.
Defined.

(** ** Title and bullet detection *)

(** [firstNonBulletFrom] finds what its name says. *)
Lemma firstNonBulletFrom_Some (i : nat) (ps : list Paragraph) (j : nat)
    (p : Paragraph) :
  firstNonBulletFrom i ps = Some (j, p) ->
  i <= j
  /\ ps !! (j - i) = Some p
  /\ trim (text p) <> []
  /\ isBulletPoint (trim (text p)) p = false
  /\ forall k q, k < j - i -> ps !! k = Some q ->
       trim (text q) = [] \/ isBulletPoint (trim (text q)) q = true.
Proof.
  revert i. induction ps as [|x ps IH]; intros i; cbn [firstNonBulletFrom]; [discriminate|].
  destruct (isEmpty (trim (text x))) eqn:He;
    [|destruct (isBulletPoint (trim (text x)) x) eqn:Hb].
  - intros H. destruct (IH _ H) as (Hle & Hlook & Hne & Hnb & Hbefore).
    replace (j - i) with (S (j - S i)) by lia.
    repeat split; try assumption; [lia|].
    intros [|k] q Hk; simpl; intros Hq.
    + injection Hq as <-. left. apply isEmpty_true, He.
    + apply (Hbefore k q); [lia|exact Hq].
  - intros H. destruct (IH _ H) as (Hle & Hlook & Hne & Hnb & Hbefore).
    replace (j - i) with (S (j - S i)) by lia.
    repeat split; try assumption; [lia|].
    intros [|k] q Hk; simpl; intros Hq.
    + injection Hq as <-. right. exact Hb.
    + apply (Hbefore k q); [lia|exact Hq].
  - intros [= <- <-]. rewrite Nat.sub_diag.
    split; [lia|]. split; [reflexivity|].
    split; [apply isEmpty_false, He|]. split; [exact Hb|intros; lia].
Qed.

Lemma legacyDetect_titled (i : nat) (ps : list Paragraph) (st : LegacyScan) :
  is_Some (titleParagraph st) ->
  legacyDetect i ps st
  = {| titleParagraph := titleParagraph st; titleText := titleText st;
       bulletPoints := bulletPoints st ++ classifiedFrom i ps |}.
Proof.
  intros Hsome. revert i st Hsome.
  induction ps as [|p ps IH]; intros i st Hsome;
    cbn [legacyDetect classifiedFrom].
  - rewrite app_nil_r. destruct st; reflexivity.
  - destruct (isEmpty (trim (text p))); [apply IH, Hsome|].
    rewrite (bool_decide_eq_true_2 _ Hsome). rewrite andb_false_r.
    destruct (isBulletPoint (trim (text p)) p); [|apply IH, Hsome].
    rewrite IH by exact Hsome.
    cbn [titleParagraph titleText bulletPoints].
    rewrite <- app_assoc. reflexivity.
Qed.

Lemma legacyDetect_untitled (i : nat) (ps : list Paragraph) (st : LegacyScan) :
  titleParagraph st = None ->
  legacyDetect i ps st
  = {| titleParagraph := fst <$> firstNonBulletFrom i ps;
       titleText := match firstNonBulletFrom i ps with
                    | Some (_, p) => trim (text p)
                    | None => titleText st
                    end;
       bulletPoints := bulletPoints st ++ classifiedFrom i ps |}.
Proof.
  revert i st. induction ps as [|p ps IH]; intros i st Hnone;
    cbn [legacyDetect classifiedFrom firstNonBulletFrom].
  - rewrite app_nil_r. destruct st; simpl in *. subst. reflexivity.
  - destruct (isEmpty (trim (text p))); [apply IH, Hnone|].
    assert (Hdec : bool_decide (is_Some (titleParagraph st)) = false).
    { apply bool_decide_eq_false. rewrite Hnone. intros [x [=]]. }
    rewrite Hdec, andb_true_r.
    destruct (isBulletPoint (trim (text p)) p) eqn:Hb; cbn [negb].
    + rewrite IH by exact Hnone.
      cbn [titleParagraph titleText bulletPoints].
      rewrite <- app_assoc. reflexivity.
    + rewrite legacyDetect_titled by (cbn [titleParagraph]; eauto).
      reflexivity.
Qed.

(** A bullet point refers to a paragraph that has a text and is classified
    as a bullet. *)
Lemma classifiedFrom_paragraph (i : nat) (ps : list Paragraph) :
  Forall (fun bp =>
            i <= paragraph bp
            /\ exists p, ps !! (paragraph bp - i) = Some p
                 /\ trim (text p) <> []
                 /\ isBulletPoint (trim (text p)) p = true)
         (classifiedFrom i ps).
Proof.
  revert i. induction ps as [|x ps IH]; intros i; cbn [classifiedFrom];
    [constructor|].
  assert (Hrest : Forall (fun bp =>
            i <= paragraph bp
            /\ exists p, (x :: ps) !! (paragraph bp - i) = Some p
                 /\ trim (text p) <> []
                 /\ isBulletPoint (trim (text p)) p = true)
         (classifiedFrom (S i) ps)).
  { eapply Forall_impl; [apply IH|]. simpl.
    intros bp (Hle & p & Hlook & Hp). split; [lia|].
    exists p. replace (paragraph bp - i) with (S (paragraph bp - S i)) by lia.
    split; [exact Hlook|exact Hp]. }
  destruct (isEmpty (trim (text x))) eqn:He; [exact Hrest|].
  destruct (isBulletPoint (trim (text x)) x) eqn:Hb; [|exact Hrest].
  constructor; [|exact Hrest]. simpl. split; [lia|].
  exists x. rewrite Nat.sub_diag. split; [reflexivity|].
  split; [apply isEmpty_false, He|exact Hb].
Qed.

(** The bullet points of the current revision leave out every paragraph
    whose trimmed text is the title. *)
Lemma detectBullets_paragraph (ttl : jsstring) (i : nat) (ps : list Paragraph) :
  Forall (fun bp =>
            i <= paragraph bp
            /\ exists p, ps !! (paragraph bp - i) = Some p
                 /\ trim (text p) <> ttl
                 /\ isBulletPoint (trim (text p)) p = true)
         (detectBullets ttl i ps).
Proof.
  revert i. induction ps as [|x ps IH]; intros i; cbn [detectBullets];
    [constructor|].
  assert (Hrest : Forall (fun bp =>
            i <= paragraph bp
            /\ exists p, (x :: ps) !! (paragraph bp - i) = Some p
                 /\ trim (text p) <> ttl
                 /\ isBulletPoint (trim (text p)) p = true)
         (detectBullets ttl (S i) ps)).
  { eapply Forall_impl; [apply IH|]. simpl.
    intros bp (Hle & p & Hlook & Hp). split; [lia|].
    exists p. replace (paragraph bp - i) with (S (paragraph bp - S i)) by lia.
    split; [exact Hlook|exact Hp]. }
  destruct (isEmpty (trim (text x))) eqn:He; [exact Hrest|].
  destruct (eqb (trim (text x)) ttl) eqn:Ht; [exact Hrest|].
  destruct (isBulletPoint (trim (text x)) x) eqn:Hb; [|exact Hrest].
  constructor; [|exact Hrest]. simpl. split; [lia|].
  exists x. rewrite Nat.sub_diag. split; [reflexivity|].
  split; [apply eqb_false, Ht|exact Hb].
Qed.

(** C4, as the code has it.  In the earlier revision the title is the
    trimmed text of the first paragraph that has a text and is not classified
    as a bullet; it is taken once, a later such paragraph changing nothing,
    and no bullet point refers to it; the bullet points are those of the
    classified paragraphs.  In the current revision the title is the text of
    the first paragraph of the document, whatever its classification, and no
    bullet point refers to a paragraph whose trimmed text is that title. *)
Theorem title_detection (ps : list Paragraph) :
  (titleParagraph (legacyDetect 0 ps legacyScanInit)
   = fst <$> firstNonBulletFrom 0 ps)
  /\ bulletPoints (legacyDetect 0 ps legacyScanInit) = classifiedFrom 0 ps
  /\ (forall i p, firstNonBulletFrom 0 ps = Some (i, p) ->
        title (legacyRequest ps) = Some (trim (text p))
        /\ ps !! i = Some p
        /\ isBulletPoint (trim (text p)) p = false
        /\ (forall k q, k < i -> ps !! k = Some q ->
              trim (text q) = [] \/ isBulletPoint (trim (text q)) q = true)
        /\ Forall (fun bp => paragraph bp <> i)
             (bulletPoints (legacyDetect 0 ps legacyScanInit)))
  /\ (firstNonBulletFrom 0 ps = None -> title (legacyRequest ps) = None)
  /\ (forall d, requestOfRun ps = Some d ->
        exists p0, head ps = Some p0 /\ title d = Some (text p0))
  /\ (forall ttl,
        Forall (fun bp => exists p, ps !! paragraph bp = Some p
                                    /\ trim (text p) <> ttl)
               (detectBullets ttl 0 ps)).
Proof.
  pose proof (legacyDetect_untitled 0 ps legacyScanInit eq_refl) as Hscan.
  simpl in Hscan.
  split; [rewrite Hscan; reflexivity|].
  split; [rewrite Hscan; reflexivity|].
  split; [|split; [|split]].
  - intros i p Hfirst.
    destruct (firstNonBulletFrom_Some _ _ _ _ Hfirst)
      as (_ & Hlook & Hne & Hnb & Hbefore).
    rewrite Nat.sub_0_r in Hlook, Hbefore.
    split; [unfold legacyRequest; rewrite Hscan, Hfirst; reflexivity|].
    split; [exact Hlook|]. split; [exact Hnb|]. split; [exact Hbefore|].
    rewrite Hscan. simpl.
    eapply Forall_impl; [apply classifiedFrom_paragraph|]. simpl.
    intros bp (_ & q & Hq & _ & Hb) Heq.
    rewrite Heq, Nat.sub_0_r in Hq. congruence.
  - intros Hnone. unfold legacyRequest. rewrite Hscan, Hnone. reflexivity.
  - intros d Hd. destruct ps as [|p0 ps']; [discriminate|].
    exists p0. split; [reflexivity|].
    simpl in Hd. unfold buildBulletPointsData in Hd.
    destruct (detectBullets (text p0) 0 (p0 :: ps')); [discriminate|].
    injection Hd as <-. reflexivity.
  - intros ttl.
    eapply Forall_impl; [apply detectBullets_paragraph|]. simpl.
    intros bp (_ & p & Hp & Hne & _). rewrite Nat.sub_0_r in Hp. eauto.
Qed.

Lemma title_detection_witness :
  title (legacyRequest [flush "• Summary A"; flush "Title"; flush "Note"])
  = Some (js "Title").
Proof.
  destruct (title_detection [flush "• Summary A"; flush "Title"; flush "Note"])
    as (_ & _ & Hfirst & _).
  destruct (Hfirst 1 (flush "Title")) as [Htitle _].
  - reflexivity.
  - exact Htitle.
Defined.

(** C4 as stated fails on the current revision: with a bullet as first
    paragraph, the title sent is that bullet, not the first paragraph that
    is no bullet, and the bullet is missing from the outline. *)
Lemma title_is_first_paragraph_counterexample :
  let ps := [flush "• Summary A"; flush "Title"; flush "• Summary B"] in
  firstNonBulletFrom 0 ps = Some (1, flush "Title")
  /\ requestOfRun ps
     = Some {| summaries := [Summary.mk (js "Summary B") []];
               title := Some (js "• Summary A") |}
  /\ ~ (forall d, requestOfRun ps = Some d ->
          exists i p, firstNonBulletFrom 0 ps = Some (i, p)
                      /\ title d = Some (trim (text p))).
Proof.
  split; [reflexivity|]. split; [reflexivity|].
  intros H. destruct (H _ eq_refl) as (i & p & Hfirst & Htitle).
  vm_compute in Hfirst. injection Hfirst as <- <-.
  vm_compute in Htitle. discriminate.
Qed.

(** ** Text locator *)

Lemma startsWith_true (s p : jsstring) :
  startsWith s p = true <-> exists r, s = p ++ r.
Proof.
  unfold startsWith. rewrite bool_decide_eq_true. split.
  - intros H. exists (drop (length p) s).
    rewrite <- H at 1. symmetry. apply take_drop.
  - intros [r ->]. apply take_app_length.
Qed.

Lemma includes_true (s sub : jsstring) :
  includes s sub = true <-> exists a c, s = a ++ sub ++ c.
Proof.
  induction s as [|x s IH]; simpl.
  - rewrite orb_false_r, startsWith_true. split.
    + intros [r Hr]. exists [], r. exact Hr.
    + intros (a & c & H). destruct a; [|discriminate]. eauto.
  - rewrite orb_true_iff, startsWith_true, IH. split.
    + intros [[r Hr]|(a & c & ->)].
      * exists [], r. exact Hr.
      * exists (x :: a), c. reflexivity.
    + intros (a & c & H). destruct a as [|y a]; simpl in H.
      * left. eauto.
      * injection H as -> ->. right. eauto.
Qed.

Lemma includes_trim (s : jsstring) : includes s (trim s) = true.
Proof.
  apply includes_true. destruct (trim_split s) as (a & b & H & _).
  eauto.
Qed.

Lemma includes_take (s sub : jsstring) (n : nat) :
  includes s sub = true -> includes s (take n sub) = true.
Proof.
  rewrite !includes_true. intros (a & c & ->).
  exists a, (drop n sub ++ c).
  rewrite (app_assoc (take n sub)), take_drop. reflexivity.
Qed.

Lemma findParagraph_Some (test : jsstring -> bool) (ps : list Paragraph)
    (i : nat) :
  findParagraph test ps = Some i <->
  exists p, ps !! i = Some p /\ test (text p) = true
            /\ forall j q, j < i -> ps !! j = Some q -> test (text q) = false.
Proof.
  unfold findParagraph. split.
  - destruct (list_find _ ps) as [[i' p]|] eqn:Hfind; [|discriminate].
    simpl. intros [= ->].
    apply list_find_Some in Hfind. destruct Hfind as (Hp & Ht & Hbefore).
    exists p. split; [exact Hp|]. split; [apply Is_true_true, Ht|].
    intros j q Hj Hq. specialize (Hbefore j q Hq Hj).
    destruct (test (text q)); [destruct Hbefore; exact I|reflexivity].
  - intros (p & Hp & Ht & Hbefore).
    assert (Hfind : list_find (fun p => Is_true (test (text p))) ps
                    = Some (i, p)).
    { apply list_find_Some. split; [exact Hp|].
      split; [apply Is_true_true, Ht|].
      intros j q Hq Hj. rewrite (Hbefore j q Hj Hq). exact id. }
    rewrite Hfind. reflexivity.
Qed.

Lemma findParagraph_None (test : jsstring -> bool) (ps : list Paragraph) :
  findParagraph test ps = None <->
  Forall (fun p => test (text p) = false) ps.
Proof.
  unfold findParagraph. rewrite fmap_None, list_find_None.
  split; intros H; eapply Forall_impl; try exact H; intros p; simpl.
  - destruct (test (text p)); [intros Hp; destruct Hp; exact I|reflexivity].
  - intros ->. exact id.
Qed.

Lemma findParagraph_elem (test : jsstring -> bool) (ps : list Paragraph)
    (p : Paragraph) :
  p ∈ ps -> test (text p) = true ->
  exists i, findParagraph test ps = Some i.
Proof.
  intros Hin Ht.
  destruct (findParagraph test ps) as [i|] eqn:Hfind; [eauto|].
  rewrite findParagraph_None, Forall_forall in Hfind.
  rewrite (Hfind p Hin) in Ht. discriminate.
Qed.

Lemma effectiveSearchText_take (t : jsstring) :
  exists n, effectiveSearchText t = take n t.
Proof.
  unfold effectiveSearchText, substring0.
  destruct (maxSearchLength <? length t)%nat.
  - eauto.
  - exists (length t). symmetry. apply firstn_all.
Qed.

(** C10.  A search text that is empty or all white space is turned down by
    the current revision, and one of fewer than three characters by the
    earlier revision, whatever the paragraphs and the editor are: no
    paragraph has a part in the answer, and the functions return a range or
    nothing and change nothing. *)
Theorem blank_search_text_is_rejected (ed : Editor) (ps : list Paragraph)
    (allParagraphs : option (list Paragraph)) (blank short : jsstring) :
  Forall (fun c => isWhiteSpace c = true) blank ->
  length short < 3 ->
  findTextInDocument ps blank = None
  /\ legacyFindTextInDocument ed short allParagraphs = None.
Proof.
  intros Hblank Hshort. split.
  - unfold findTextInDocument, locate.
    rewrite (trim_whitespace _ Hblank). simpl.
    rewrite orb_true_r. reflexivity.
  - unfold legacyFindTextInDocument, legacyLocate.
    apply Nat.ltb_lt in Hshort. rewrite Hshort. reflexivity.
Qed.

Lemma blank_search_text_is_rejected_witness :
  findTextInDocument [flush "a b"; flush "  "] (js "  ") = None
  /\ legacyFindTextInDocument
       {| search := fun _ => [TextRange 0 2]; wildcardHits := [];
          meets := fun _ _ => false; accepts := fun _ _ => true |}
       (js "ab") (Some [flush "ab"]) = None.
Proof.
  apply (blank_search_text_is_rejected _ _ _ (js "  ") (js "ab")).
  - repeat constructor.
  - simpl. lia.
Defined.

(** C2, as the code has it.  Let the target be the trimmed text of a
    paragraph.  The earlier revision, when the target has at least three
    characters, answers at its first step, the comparison of trimmed texts,
    with the first paragraph whose trimmed text is the target.  The current
    revision has no such step: when the target is not empty it answers at
    its first step, the containment of the target (cut to 255 characters) in
    a paragraph's text, with the first paragraph that contains it.  In both,
    a later step answers only if every step before it found nothing. *)
Theorem verbatim_text_is_located_first (ed : Editor) (ps : list Paragraph)
    (p : Paragraph) (t : jsstring) :
  p ∈ ps ->
  trim (text p) = t ->
  (3 <= length t ->
   exists i q,
     legacyLocate ed t (Some ps) = Some (ExactMatch, ParagraphRange i)
     /\ ps !! i = Some q /\ trim (text q) = t
     /\ forall j r, j < i -> ps !! j = Some r -> trim (text r) <> t)
  /\ (t <> [] ->
      exists i q,
        locate ps t = Some (Containment, ParagraphRange i)
        /\ ps !! i = Some q
        /\ includes (text q) (effectiveSearchText t) = true
        /\ forall j r, j < i -> ps !! j = Some r ->
             includes (text r) (effectiveSearchText t) = false)
  /\ (forall t' tier r,
        legacyLocate ed t' (Some ps) = Some (tier, r) ->
        match tier with
        | ExactMatch => True
        | Containment =>
            findParagraph (fun x => eqb (trim x) (trim t')) ps = None
        | ShortenedText =>
            findParagraph (fun x => eqb (trim x) (trim t')) ps = None
            /\ findParagraph (fun x => includes x t') ps = None
        | Keyword =>
            findParagraph (fun x => eqb (trim x) (trim t')) ps = None
            /\ findParagraph (fun x => includes x t') ps = None
            /\ searchShortened ed t' = None
        | LongestWord | Prefix => False
        end)
  /\ (forall t' tier r,
        locate ps t' = Some (tier, r) ->
        match tier with
        | Containment => True
        | LongestWord =>
            findParagraph (fun x => includes x (effectiveSearchText t')) ps
            = None
        | Prefix =>
            findParagraph (fun x => includes x (effectiveSearchText t')) ps
            = None
            /\ (w ← longestWord (significantWords (effectiveSearchText t'));
                findParagraph (fun x => includes x w) ps) = None
        | ExactMatch | ShortenedText | Keyword => False
        end).
Proof.
  intros Hin Ht. split; [|split; [|split]].
  - intros Hlen. unfold legacyLocate.
    assert (Hge : (length t <? 3)%nat = false) by (apply Nat.ltb_ge; lia).
    rewrite Hge. simpl.
    assert (Htrim : trim t = t) by (rewrite <- Ht; apply trim_idempotent).
    rewrite Htrim.
    destruct (findParagraph_elem (fun x => eqb (trim x) t) ps p Hin)
      as [i Hi]; [apply eqb_true, Ht|].
    rewrite Hi. apply findParagraph_Some in Hi.
    destruct Hi as (q & Hq & Hqt & Hbefore).
    exists i, q. split; [reflexivity|]. split; [exact Hq|].
    split; [apply eqb_true, Hqt|].
    intros j r Hj Hr. apply eqb_false. exact (Hbefore j r Hj Hr).
  - intros Hne. unfold locate.
    assert (Htrim : trim t = t) by (rewrite <- Ht; apply trim_idempotent).
    rewrite Htrim.
    apply isEmpty_false in Hne as He. rewrite He.
    apply eqb_false in Hne. rewrite Hne. simpl.
    destruct (findParagraph_elem
                (fun x => includes x (effectiveSearchText t)) ps p Hin)
      as [i Hi].
    { destruct (effectiveSearchText_take t) as [n ->].
      apply includes_take. rewrite <- Ht. apply includes_trim. }
    rewrite Hi. apply findParagraph_Some in Hi.
    destruct Hi as (q & Hq & Hqt & Hbefore).
    exists i, q. auto.
  - intros t' tier r. unfold legacyLocate.
    destruct (length t' <? 3)%nat; [discriminate|]. simpl.
    destruct (findParagraph (fun x => eqb (trim x) (trim t')) ps);
      [intros [= <- _]; exact I|].
    destruct (findParagraph (fun x => includes x t') ps);
      [intros [= <- _]; reflexivity|].
    destruct (searchShortened ed t');
      [intros [= <- _]; auto|].
    destruct (searchKeywords ed (extractKeywords t'));
      [intros [= <- _]; auto|discriminate].
  - intros t' tier r. unfold locate.
    destruct (isEmpty t' || eqb (trim t') []); [discriminate|].
    destruct (findParagraph (fun x => includes x (effectiveSearchText t')) ps);
      [intros [= <- _]; exact I|].
    destruct (w ← longestWord (significantWords (effectiveSearchText t'));
              findParagraph (fun x => includes x w) ps);
      [intros [= <- _]; reflexivity|].
    destruct (10 <? length (effectiveSearchText t'))%nat; [|discriminate].
    destruct (findParagraph _ ps); [intros [= <- _]; auto|discriminate].
Qed.

Lemma verbatim_text_is_located_first_witness :
  exists i q,
    locate [flush "Title"; flush "  • Summary A "] (js "• Summary A")
    = Some (Containment, ParagraphRange i)
    /\ [flush "Title"; flush "  • Summary A "] !! i = Some q
    /\ includes (text q) (effectiveSearchText (js "• Summary A")) = true
    /\ forall j r, j < i ->
         [flush "Title"; flush "  • Summary A "] !! j = Some r ->
         includes (text r) (effectiveSearchText (js "• Summary A")) = false.
Proof.
  destruct (verbatim_text_is_located_first
              (editorFinding [] (TextRange 0 0))
              [flush "Title"; flush "  • Summary A "]
              (flush "  • Summary A ") (js "• Summary A"))
    as (_ & Hcurrent & _).
  - apply list_elem_of_further, list_elem_of_here.
  - reflexivity.
  - apply Hcurrent. discriminate.
Defined.

(** C2 as stated fails.  The current revision answers with the first
    paragraph that contains the target, which need not be the paragraph
    whose trimmed text is the target; the earlier revision turns a target of
    two characters down. *)
Lemma exact_match_counterexample :
  let ps := [flush "abc def"; flush "abc"] in
  flush "abc" ∈ ps
  /\ trim (text (flush "abc")) = js "abc"
  /\ locate ps (js "abc") = Some (Containment, ParagraphRange 0)
  /\ trim (text (flush "abc def")) <> js "abc"
  /\ legacyLocate (editorFinding [] (TextRange 0 0)) (js "ab")
       (Some [flush "ab"]) = None
  /\ ~ (forall (qs : list Paragraph) (p : Paragraph),
          p ∈ qs ->
          exists i q, findTextInDocument qs (trim (text p))
                      = Some (ParagraphRange i)
                      /\ qs !! i = Some q
                      /\ trim (text q) = trim (text p)).
Proof.
  split; [apply list_elem_of_further, list_elem_of_here|].
  split; [reflexivity|]. split; [reflexivity|]. split; [discriminate|].
  split; [reflexivity|].
  intros H.
  destruct (H [flush "abc def"; flush "abc"] (flush "abc"))
    as (i & q & Hfind & Hq & Htrim).
  - apply list_elem_of_further, list_elem_of_here.
  - vm_compute in Hfind. injection Hfind as <-.
    simpl in Hq. injection Hq as <-. vm_compute in Htrim. discriminate.
Qed.

Lemma dedupe_from_elem (seen ws : list jsstring) (x : jsstring) :
  x ∈ dedupe_from seen ws <-> x ∈ ws /\ x ∉ seen.
Proof.
  revert seen. induction ws as [|w ws IH]; intros seen; simpl.
  - rewrite elem_of_nil. tauto.
  - destruct (bool_decide (w ∈ seen)) eqn:Hw.
    + apply bool_decide_eq_true in Hw. rewrite IH, elem_of_cons.
      split; [tauto|]. intros [[->|H] Hn]; tauto.
    + apply bool_decide_eq_false in Hw.
      rewrite !elem_of_cons, IH, not_elem_of_cons.
      split.
      * intros [->|(H & Hne & Hn)]; tauto.
      * intros [[->|H] Hn]; [tauto|].
        destruct (decide (x = w)) as [->|Hne]; tauto.
Qed.

Lemma dedupe_from_NoDup (seen ws : list jsstring) :
  NoDup (dedupe_from seen ws).
Proof.
  revert seen. induction ws as [|w ws IH]; intros seen; simpl.
  - constructor.
  - destruct (bool_decide (w ∈ seen)); [apply IH|].
    constructor; [|apply IH].
    rewrite dedupe_from_elem, not_elem_of_cons. tauto.
Qed.

(** The keywords: the pieces of the text of at least three characters that
    are no common word, each once. *)
Lemma extractKeywords_spec (t : jsstring) :
  NoDup (extractKeywords t)
  /\ forall k, k ∈ extractKeywords t <->
       k ∈ splitWS t /\ 3 <= length k /\ k ∉ commonWords.
Proof.
  unfold extractKeywords, dedupe. split; [apply dedupe_from_NoDup|].
  intros k. rewrite dedupe_from_elem, list_elem_of_filter, elem_of_nil.
  unfold isKeyword.
  destruct (length k <? 3)%nat eqn:Hlen.
  - apply Nat.ltb_lt in Hlen. simpl. split; [tauto|]. intros (_ & H & _). lia.
  - apply Nat.ltb_ge in Hlen.
    case_bool_decide as Hc; simpl.
    + tauto.
    + split.
      * intros [[_ H] _]. auto.
      * intros (H & _ & _). split; [split; [exact I|exact H]|tauto].
Qed.

(** The keyword loop answers with the first hit of the first keyword of
    more than three characters that has one. *)
Lemma searchKeywords_spec (ed : Editor) (keywords : list jsstring) :
  searchKeywords ed keywords
  = head (flat_map (search ed)
            (filter (fun k => 3 < length k) keywords)).
Proof.
  induction keywords as [|k ks IH]; simpl; [reflexivity|].
  destruct (3 <? length k)%nat eqn:Hk.
  - apply Nat.ltb_lt in Hk. rewrite filter_cons_True by exact Hk. simpl.
    destruct (search ed k); simpl; [exact IH|reflexivity].
  - apply Nat.ltb_ge in Hk. rewrite filter_cons_False by lia. exact IH.
Qed.

(** C8, as the code has it.  In the earlier revision, when the comparison
    of trimmed texts, the containment and the search for the first words
    have all found nothing for a target of at least three characters, the
    answer is the first hit, in the whole body, of the first keyword that
    has more than three characters and a hit; the keywords are the pieces of
    the target of at least three characters that are no common word, each
    once, so that a keyword of exactly three characters is never searched.
    The current revision has no keyword step: it answers with a paragraph,
    and with nothing when its three steps found nothing. *)
Theorem keyword_fallback (ed : Editor) (ps : list Paragraph) (t : jsstring) :
  3 <= length t ->
  findParagraph (fun x => eqb (trim x) (trim t)) ps = None ->
  findParagraph (fun x => includes x t) ps = None ->
  searchShortened ed t = None ->
  legacyFindTextInDocument ed t (Some ps)
  = head (flat_map (search ed)
            (filter (fun k => 3 < length k) (extractKeywords t)))
  /\ (forall r, legacyFindTextInDocument ed t (Some ps) = Some r ->
        legacyLocate ed t (Some ps) = Some (Keyword, r))
  /\ NoDup (extractKeywords t)
  /\ (forall k, k ∈ extractKeywords t <->
        k ∈ splitWS t /\ 3 <= length k /\ k ∉ commonWords)
  /\ (forall qs t' tier r,
        locate qs t' = Some (tier, r) ->
        tier <> Keyword /\ exists i, r = ParagraphRange i).
Proof.
  intros Hlen Hexact Hcontain Hshort.
  assert (Hge : (length t <? 3)%nat = false) by (apply Nat.ltb_ge; lia).
  assert (Hloc : legacyLocate ed t (Some ps)
                 = match searchKeywords ed (extractKeywords t) with
                   | Some r => Some (Keyword, r)
                   | None => None
                   end).
  { unfold legacyLocate. rewrite Hge. simpl.
    rewrite Hexact, Hcontain, Hshort. reflexivity. }
  split; [|split; [|split; [|split]]].
  - unfold legacyFindTextInDocument. rewrite Hloc, <- searchKeywords_spec.
    destruct (searchKeywords ed (extractKeywords t)); reflexivity.
  - intros r. unfold legacyFindTextInDocument. rewrite Hloc.
    destruct (searchKeywords ed (extractKeywords t)); simpl; congruence.
  - apply extractKeywords_spec.
  - apply extractKeywords_spec.
  - intros qs t' tier r. unfold locate.
    destruct (isEmpty t' || eqb (trim t') []); [discriminate|].
    destruct (findParagraph _ qs);
      [intros [= <- <-]; split; [discriminate|eauto]|].
    destruct (w ← longestWord (significantWords (effectiveSearchText t'));
              findParagraph (fun x => includes x w) qs);
      [intros [= <- <-]; split; [discriminate|eauto]|].
    destruct (10 <? length (effectiveSearchText t'))%nat; [|discriminate].
    destruct (findParagraph _ qs);
      [intros [= <- <-]; split; [discriminate|eauto]|discriminate].
Qed.

Lemma keyword_fallback_witness :
  legacyFindTextInDocument (editorFinding (js "story") (TextRange 7 12))
    (js "our story") (Some [flush "Title"])
  = head (flat_map (search (editorFinding (js "story") (TextRange 7 12)))
            (filter (fun k => 3 < length k) (extractKeywords (js "our story")))).
Proof.
  apply (keyword_fallback (editorFinding (js "story") (TextRange 7 12))
           [flush "Title"] (js "our story")).
  - simpl. lia.
  - reflexivity.
  - reflexivity.
  - reflexivity.
Defined.

Example keyword_fallback_hit :
  legacyLocate (editorFinding (js "story") (TextRange 7 12))
    (js "our story") (Some [flush "Title"])
  = Some (Keyword, TextRange 7 12).
Proof. reflexivity. Qed.

(** C8 as stated fails.  In the earlier revision a keyword of three
    characters is extracted but not searched, so that its hit is not
    returned; the current revision does not search the body at all. *)
Lemma keyword_of_three_characters_counterexample :
  let ed := editorFinding (js "abc") (TextRange 0 3) in
  extractKeywords (js "abc") = [js "abc"]
  /\ search ed (js "abc") = [TextRange 0 3]
  /\ keywordFallbackAsStated ed (js "abc") = Some (TextRange 0 3)
  /\ legacyFindTextInDocument ed (js "abc") (Some []) = None
  /\ findTextInDocument [] (js "abc") = None
  /\ legacyFindTextInDocument ed (js "abc") (Some [])
     <> keywordFallbackAsStated ed (js "abc").
Proof.
  repeat split; try reflexivity. discriminate.
Qed.

(** ** Scope priority resolver *)

Lemma scopeValue_inj (a b : EvaluationScope) :
  scopeValue a = scopeValue b -> a = b.
Proof. destruct a, b; intros H; try reflexivity; vm_compute in H; discriminate. Qed.

(** The three comparisons the script tries come to one: equality. *)
Lemma isMatchingScope_true (a b : EvaluationScope) :
  isMatchingScope a b = true <-> a = b.
Proof.
  unfold isMatchingScope. rewrite !orb_true_iff, bool_decide_eq_true, eqb_true.
  split.
  - intros [[H|H]|H]; auto using scopeValue_inj.
  - intros ->. auto.
Qed.

Lemma hasIssues_true (r : EvaluationResult) :
  hasIssues r = true <->
  exists cr, cr ∈ criteria_results r /\ has_issues cr = true.
Proof.
  unfold hasIssues. rewrite existsb_exists.
  split; intros (cr & H & Hcr); exists cr; split; auto;
    apply list_elem_of_In; exact H.
Qed.

Lemma scopeHasIssues_true (rs : list EvaluationResult) (sc : EvaluationScope) :
  scopeHasIssues rs sc = true <->
  exists r cr, r ∈ rs /\ scope r = sc
               /\ cr ∈ criteria_results r /\ has_issues cr = true.
Proof.
  unfold scopeHasIssues. rewrite existsb_exists. split.
  - intros (r & Hr & H). apply andb_true_iff in H. destruct H as [Hs Hi].
    apply isMatchingScope_true in Hs. apply hasIssues_true in Hi.
    destruct Hi as (cr & Hcr & Hi).
    exists r, cr. rewrite list_elem_of_In. auto.
  - intros (r & cr & Hr & Hs & Hcr & Hi). exists r.
    split; [apply list_elem_of_In, Hr|].
    apply andb_true_iff. split; [apply isMatchingScope_true, Hs|].
    apply hasIssues_true. eauto.
Qed.

Lemma firstWithIssues_Some (rs : list EvaluationResult)
    (order : list EvaluationScope) (sc : EvaluationScope) :
  firstWithIssues rs order = Some sc <->
  exists before after,
    order = before ++ sc :: after
    /\ Forall (fun s => scopeHasIssues rs s = false) before
    /\ scopeHasIssues rs sc = true.
Proof.
  induction order as [|s order IH]; simpl.
  - split; [discriminate|]. intros (before & after & H & _).
    destruct before; discriminate.
  - destruct (scopeHasIssues rs s) eqn:Hs.
    + split.
      * intros [= <-]. exists [], order. repeat split; auto.
      * intros (before & after & H & Hb & Hsc).
        destruct before as [|s' before]; simpl in H.
        -- injection H as -> _. reflexivity.
        -- injection H as -> _. inversion Hb; congruence.
    + rewrite IH. split.
      * intros (before & after & -> & Hb & Hsc).
        exists (s :: before), after. repeat split; auto.
      * intros (before & after & H & Hb & Hsc).
        destruct before as [|s' before]; simpl in H.
        -- injection H as -> _. congruence.
        -- injection H as -> ->. inversion Hb; subst. eauto.
Qed.

Lemma firstWithIssues_None (rs : list EvaluationResult)
    (order : list EvaluationScope) :
  firstWithIssues rs order = None <->
  Forall (fun s => scopeHasIssues rs s = false) order.
Proof.
  induction order as [|s order IH]; simpl.
  - split; [constructor|reflexivity].
  - destruct (scopeHasIssues rs s) eqn:Hs.
    + split; [discriminate|]. inversion 1; congruence.
    + rewrite IH. split; [constructor; assumption|inversion 1; assumption].
Qed.

Lemma scopePriority_complete (sc : EvaluationScope) : sc ∈ scopePriority.
Proof. destruct sc; unfold scopePriority; repeat constructor. Qed.

(** C3.  The resolver scans the fixed order and takes the first scope for
    which some result of that scope has a failing criterion; it then shows
    the comments of that scope alone, and those of all results when no scope
    has an issue.  So issues only in MESSAGE_WITH_BODIES select that scope,
    and issues in DOCUMENT_WIDE and SUMMARY_PAIRS select DOCUMENT_WIDE. *)
Theorem highest_priority_scope_is_first_with_issues (ed : Editor) (w : World) :
  let rs := evaluationResults (session w) in
  scopePriority
  = [DOCUMENT_WIDE; ALL_SUMMARIES; SUMMARY_PAIRS; SUMMARY_WITH_MESSAGES;
     MESSAGES_UNDER_SUMMARY; MESSAGE_WITH_BODIES]
  /\ (forall sc,
        scopeHasIssues rs sc = true <->
        exists r cr, r ∈ rs /\ scope r = sc
                     /\ cr ∈ criteria_results r /\ has_issues cr = true)
  /\ (forall sc,
        highestPriorityScope rs = Some sc <->
        exists before after,
          scopePriority = before ++ sc :: after
          /\ Forall (fun s => scopeHasIssues rs s = false) before
          /\ scopeHasIssues rs sc = true)
  /\ (highestPriorityScope rs = None <->
      forall sc, scopeHasIssues rs sc = false)
  /\ (scopeHasIssues rs MESSAGE_WITH_BODIES = true ->
      (forall sc, sc <> MESSAGE_WITH_BODIES -> scopeHasIssues rs sc = false) ->
      highestPriorityScope rs = Some MESSAGE_WITH_BODIES)
  /\ (scopeHasIssues rs DOCUMENT_WIDE = true ->
      scopeHasIssues rs SUMMARY_PAIRS = true ->
      highestPriorityScope rs = Some DOCUMENT_WIDE)
  /\ showHighestPriorityComments ed w
     = match highestPriorityScope rs with
       | Some sc => filterCommentsByScope ed sc w
       | None => showAllComments ed w
       end.
Proof.
  intros rs. split; [reflexivity|].
  split; [intros sc; apply scopeHasIssues_true|].
  split; [intros sc; apply firstWithIssues_Some|].
  split; [|split; [|split]].
  - unfold highestPriorityScope. rewrite firstWithIssues_None, Forall_forall.
    split; [|auto]. intros H sc. apply H, scopePriority_complete.
  - intros Hlast Hothers. unfold highestPriorityScope, scopePriority. simpl.
    rewrite !Hothers by discriminate. rewrite Hlast. reflexivity.
  - intros Hwide _. unfold highestPriorityScope, scopePriority. simpl.
    rewrite Hwide. reflexivity.
  - unfold showHighestPriorityComments. fold rs.
    destruct rs as [|r rs'] eqn:Hrs; [|reflexivity].
    simpl. unfold showAllComments. fold rs. rewrite Hrs. reflexivity.
Qed.

Lemma highest_priority_scope_is_first_with_issues_witness :
  highestPriorityScope
    [failing "Message A1" MESSAGE_WITH_BODIES MESSAGE_BODY_CONSISTENCY]
  = Some MESSAGE_WITH_BODIES.
Proof.
  destruct (highest_priority_scope_is_first_with_issues
              (editorFinding [] (TextRange 0 0))
              (worldWith [] []
                 [failing "Message A1" MESSAGE_WITH_BODIES
                    MESSAGE_BODY_CONSISTENCY]))
    as (_ & _ & _ & _ & Honly & _).
  apply Honly.
  - reflexivity.
  - intros sc Hsc. destruct sc; try reflexivity. congruence.
Defined.

Example highest_priority_scope_both :
  highestPriorityScope
    [failing "Summary B" SUMMARY_PAIRS CONJUNCTION_VALIDITY;
     failing "Summary A" DOCUMENT_WIDE RHETORICAL_EXPRESSION]
  = Some DOCUMENT_WIDE.
Proof. reflexivity. Qed.

(** ** The check and the score *)

(** C6.  When the call of the evaluation service fails in transport or
    comes back with a status that is not ok (or with a body that does not
    parse), [run] leaves everything as it was: the results and the last
    response of the session, the comments and highlights of the document,
    and the display. *)
Theorem gateway_failure_changes_nothing (ed : Editor)
    (fetch : BulletPointsRequest -> FetchOutcome) (w : World) :
  (forall req,
     fetch req = TransportFailure
     \/ (exists body, fetch req = Response false body)
     \/ fetch req = Response true None) ->
  run ed fetch w = w
  /\ evaluationResults (session (run ed fetch w)) = evaluationResults (session w)
  /\ lastCheckResults (session (run ed fetch w)) = lastCheckResults (session w)
  /\ comments (document (run ed fetch w)) = comments (document w)
  /\ highlighted (document (run ed fetch w)) = highlighted (document w).
Proof.
  intros Hfail.
  assert (Hrun : run ed fetch w = w).
  { unfold run.
    destruct (requestOfRun (paragraphs (document w))) as [d|]; [|reflexivity].
    destruct (summaries d); [reflexivity|].
    destruct (Hfail d) as [->|[[body ->]| ->]]; reflexivity. }
  rewrite Hrun. auto.
Qed.

Lemma gateway_failure_changes_nothing_witness :
  run (editorFinding [] (TextRange 0 0))
      (fun _ => Response false None)
      (worldWith [flush "Title"; flush "• Summary A"]
         [{| anchor := ParagraphRange 1; commentText := js "old" |}]
         [failing "Summary A" DOCUMENT_WIDE RHETORICAL_EXPRESSION])
  = worldWith [flush "Title"; flush "• Summary A"]
      [{| anchor := ParagraphRange 1; commentText := js "old" |}]
      [failing "Summary A" DOCUMENT_WIDE RHETORICAL_EXPRESSION].
Proof.
  apply (gateway_failure_changes_nothing
           (editorFinding [] (TextRange 0 0)) (fun _ => Response false None)).
  intros req. right. left. exists None. reflexivity.
Defined.

Lemma atLeast_round (q : Q) :
  Qle_bool 90 q = true -> atLeast (Math_round (Finite q)) 90 = true.
Proof.
  intros H. apply Qle_bool_iff in H. unfold Math_round, atLeast.
  apply Qle_bool_iff. rewrite <- Zle_Qle.
  rewrite <- (Qfloor_Z 90). apply Qfloor_resp_le.
  apply Qle_trans with q; [exact H|].
  rewrite <- (Qplus_0_r q) at 1. apply Qplus_le_r. discriminate.
Qed.

(** A score of at least 90 is shown with the first message. *)
Lemma updateScore_excellent (n : JSNumber) (w : World) :
  atLeast n 90 = true ->
  scoreMessage (display (updateScore n w)) = excellentMessage.
Proof.
  intros H. unfold updateScore, setScore, scoreTier, excellentMessage.
  cbn [display scoreMessage].
  destruct n as [| | |q]; try discriminate.
  - cbn [isNaN Math_round atLeast fst]. reflexivity.
  - cbn [isNaN]. rewrite (atLeast_round q H). cbn [fst]. reflexivity.
Qed.

(** ** Annotation passes *)

Lemma sameInputs_refl (w : World) : sameInputs w w.
Proof. repeat split. Qed.

Lemma sameInputs_trans (w1 w2 w3 : World) :
  sameInputs w1 w2 -> sameInputs w2 w3 -> sameInputs w1 w3.
Proof.
  intros (H1 & H2 & H3) (H4 & H5 & H6).
  repeat split; congruence.
Qed.

Lemma filter_all {A} (P : A -> Prop) `{forall x, Decision (P x)} (l : list A) :
  Forall P l -> filter P l = l.
Proof.
  induction 1 as [|x l Hx _ IH]; [reflexivity|].
  rewrite filter_cons_True by exact Hx. rewrite IH. reflexivity.
Qed.

Lemma filter_none {A} (P : A -> Prop) `{forall x, Decision (P x)} (l : list A) :
  Forall (fun x => ~ P x) l -> filter P l = [].
Proof.
  induction 1 as [|x l Hx _ IH]; [reflexivity|].
  rewrite filter_cons_False by exact Hx. exact IH.
Qed.

(** Clearing keeps the comments that meet no hit. *)
Lemma fold_deleteMeeting (ed : Editor) (hits : list Range) (cs : list Comment) :
  fold_left (deleteMeeting ed) hits cs
  = filter (fun c => Forall (fun hit => ~ Is_true (meets ed hit (anchor c))) hits)
      cs.
Proof.
  revert cs. induction hits as [|h hits IH]; intros cs; simpl.
  - symmetry. apply filter_all, Forall_forall. intros c _. constructor.
  - rewrite IH. unfold deleteMeeting. rewrite list_filter_filter.
    apply list_filter_iff. intros c. rewrite Forall_cons. tauto.
Qed.

Lemma cleared_app (ed : Editor) (a b : list Comment) :
  cleared ed (a ++ b) = cleared ed a ++ cleared ed b.
Proof. unfold cleared. rewrite !fold_deleteMeeting. apply filter_app. Qed.

Lemma cleared_idempotent (ed : Editor) (cs : list Comment) :
  cleared ed (cleared ed cs) = cleared ed cs.
Proof.
  unfold cleared. rewrite !fold_deleteMeeting.
  apply list_filter_filter_l. auto.
Qed.

(** Clearing removes every comment attached to a paragraph, when the
    wild-card search reaches every paragraph. *)
Lemma cleared_covered (ed : Editor) (ps : list Paragraph) (cs : list Comment) :
  covers ed ps -> Forall (onParagraph ps) cs -> cleared ed cs = [].
Proof.
  intros Hcov Hcs. unfold cleared. rewrite fold_deleteMeeting.
  apply filter_none. eapply Forall_impl; [exact Hcs|].
  intros c (i & Hc & Hi) Hall.
  destruct (Hcov i Hi) as (hit & Hhit & Hmeets).
  rewrite Forall_forall in Hall. apply (Hall hit Hhit).
  rewrite Hc, Hmeets. exact I.
Qed.

Lemma removeAllComments_spec (ed : Editor) (w : World) :
  comments (document (removeAllComments ed w)) = cleared ed (comments (document w))
  /\ sameInputs w (removeAllComments ed w).
Proof. split; [reflexivity|repeat split]. Qed.

(** Highlight, comment and record: what the turn adds to the comments and
    whether it ends normally depend on the range and the result alone. *)
Lemma annotateRange_spec (ed : Editor) (sc : EvaluationScope)
    (result : EvaluationResult) (r : Range) :
  exists added ok,
    Forall (fun c => anchor c = r) added
    /\ forall w,
         comments (document (fst (annotateRange ed sc result r w)))
         = comments (document w) ++ added
         /\ snd (annotateRange ed sc result r w) = ok
         /\ sameInputs w (fst (annotateRange ed sc result r w)).
Proof.
  unfold annotateRange, addCommentSafely, recordRange.
  destruct (accepts ed r (composeComment sc result)).
  - destruct (issuesCriteria result) as [|cr crs].
    + exists [{| anchor := r; commentText := composeComment sc result |}], false.
      split; [repeat constructor|]. intros w. repeat split.
    + exists [{| anchor := r; commentText := composeComment sc result |}], true.
      split; [repeat constructor|]. intros w. repeat split.
  - exists [], true. split; [constructor|].
    intros w. cbn [fst snd]. rewrite app_nil_r. repeat split.
Qed.

Lemma locate_onParagraph (ps : list Paragraph) (t : jsstring) (r : Range) :
  findTextInDocument ps t = Some r ->
  exists i, r = ParagraphRange i /\ i < length ps.
Proof.
  unfold findTextInDocument.
  destruct (locate ps t) as [[tier r']|] eqn:Hloc; [|discriminate].
  simpl. intros [= ->]. revert Hloc. unfold locate.
  assert (Hfound : forall test i, findParagraph test ps = Some i ->
                                  i < length ps).
  { intros test i Hi. apply findParagraph_Some in Hi.
    destruct Hi as (p & Hp & _). eapply lookup_lt_Some, Hp. }
  destruct (isEmpty t || eqb (trim t) []); [discriminate|].
  destruct (findParagraph _ ps) as [i|] eqn:H1.
  { intros H. inversion H; subst. eauto. }
  destruct (w ← longestWord (significantWords (effectiveSearchText t));
            findParagraph (fun x => includes x w) ps) as [i|] eqn:H2.
  { intros H. inversion H; subst. exists i. split; [reflexivity|].
    destruct (longestWord _) as [w|]; [|discriminate].
    simpl in H2. eauto. }
  destruct (10 <? length (effectiveSearchText t))%nat; [|discriminate].
  destruct (findParagraph
              (fun x => includes x (substring0 10 (effectiveSearchText t))) ps)
    as [i|] eqn:H3; [|discriminate].
  intros H. inversion H; subst. eauto.
Qed.

(** One turn of the loop: what it adds to the comments and whether it ends
    normally depend on the paragraphs and the page title alone, and what it
    adds is attached to paragraphs. *)
Lemma annotateResult_spec (ed : Editor) (sc : EvaluationScope)
    (result : EvaluationResult) (ps : list Paragraph) (ttl : jsstring) :
  exists added ok,
    Forall (onParagraph ps) added
    /\ forall w,
         paragraphs (document w) = ps ->
         pageTitle (display w) = ttl ->
         comments (document (fst (annotateResult ed sc result w)))
         = comments (document w) ++ added
         /\ snd (annotateResult ed sc result w) = ok
         /\ sameInputs w (fst (annotateResult ed sc result w)).
Proof.
  assert (Hrange : forall r, (exists i, r = ParagraphRange i /\ i < length ps) ->
    exists added ok,
      Forall (onParagraph ps) added
      /\ forall w,
           comments (document (fst (annotateRange ed sc result r w)))
           = comments (document w) ++ added
           /\ snd (annotateRange ed sc result r w) = ok
           /\ sameInputs w (fst (annotateRange ed sc result r w))).
  { intros r (i & Hr & Hi).
    destruct (annotateRange_spec ed sc result r) as (added & ok & Hanchor & H).
    exists added, ok. split; [|exact H].
    eapply Forall_impl; [exact Hanchor|]. intros c Hc. exists i.
    split; [congruence|exact Hi]. }
  assert (Hnothing : forall ok : bool,
    exists added ok',
      Forall (onParagraph ps) added
      /\ forall w : World,
           comments (document w) = comments (document w) ++ added
           /\ ok = ok' /\ sameInputs w w).
  { intros ok. exists [], ok. split; [constructor|].
    intros w. rewrite app_nil_r. repeat split. }
  destruct (bool_decide (sc = ALL_SUMMARIES) && eqb (target_text result) ttl)
    eqn:Htitle.
  - destruct ps as [|p0 ps'].
    + destruct (Hnothing false) as (added & ok & Hadded & H).
      exists added, ok. split; [exact Hadded|].
      intros w Hps Httl. unfold annotateResult.
      rewrite Httl, Htitle, Hps. apply H.
    + destruct (Hrange (ParagraphRange 0)) as (added & ok & Hadded & H).
      { exists 0. split; [reflexivity|simpl; lia]. }
      exists added, ok. split; [exact Hadded|].
      intros w Hps Httl. unfold annotateResult.
      rewrite Httl, Htitle, Hps. apply H.
  - destruct (findTextInDocument ps (target_text result)) as [r|] eqn:Hfind.
    + destruct (Hrange r (locate_onParagraph _ _ _ Hfind))
        as (added & ok & Hadded & H).
      exists added, ok. split; [exact Hadded|].
      intros w Hps Httl. unfold annotateResult.
      rewrite Httl, Htitle, Hps, Hfind. apply H.
    + destruct (Hnothing true) as (added & ok & Hadded & H).
      exists added, ok. split; [exact Hadded|].
      intros w Hps Httl. unfold annotateResult.
      rewrite Httl, Htitle, Hps, Hfind. apply H.
Qed.

Lemma annotateAll_spec (ed : Editor)
    (scopeOf : EvaluationResult -> EvaluationScope)
    (rs : list EvaluationResult) (ps : list Paragraph) (ttl : jsstring) :
  exists added ok,
    Forall (onParagraph ps) added
    /\ forall w,
         paragraphs (document w) = ps ->
         pageTitle (display w) = ttl ->
         comments (document (fst (annotateAll ed scopeOf rs w)))
         = comments (document w) ++ added
         /\ snd (annotateAll ed scopeOf rs w) = ok
         /\ sameInputs w (fst (annotateAll ed scopeOf rs w)).
Proof.
  induction rs as [|result rest IH].
  - exists [], true. split; [constructor|].
    intros w _ _. simpl. rewrite app_nil_r. repeat split.
  - destruct (annotateResult_spec ed (scopeOf result) result ps ttl)
      as (added1 & ok1 & Hadded1 & H1).
    destruct IH as (added2 & ok2 & Hadded2 & H2).
    destruct ok1.
    + exists (added1 ++ added2), ok2.
      split; [apply Forall_app; auto|].
      intros w Hps Httl. simpl.
      destruct (H1 w Hps Httl) as (Hc1 & Hok1 & Hs1).
      destruct (annotateResult ed (scopeOf result) result w) as [w1 ok].
      simpl in *. subst ok.
      destruct Hs1 as (Hp1 & He1 & Hd1).
      destruct (H2 w1) as (Hc2 & Hok2 & Hs2); [congruence|congruence|].
      split; [rewrite Hc2, Hc1, app_assoc; reflexivity|].
      split; [exact Hok2|].
      eapply sameInputs_trans; [|exact Hs2]. repeat split; assumption.
    + exists added1, false. split; [exact Hadded1|].
      intros w Hps Httl. simpl.
      destruct (H1 w Hps Httl) as (Hc1 & Hok1 & Hs1).
      destruct (annotateResult ed (scopeOf result) result w) as [w1 ok].
      simpl in *. subst ok. auto.
Qed.

(** What a pass leaves of the comments: those the clearing left, then those
    the pass attached, which depend on the inputs of the pass alone. *)
Lemma showAllComments_spec (ed : Editor) (ps : list Paragraph)
    (rs : list EvaluationResult) (d : Display) :
  exists added,
    Forall (onParagraph ps) added
    /\ forall w,
         paragraphs (document w) = ps ->
         evaluationResults (session w) = rs ->
         display w = d ->
         sameInputs w (showAllComments ed w)
         /\ comments (document (showAllComments ed w))
            = match rs with
              | [] => comments (document w)
              | _ :: _ => cleared ed (comments (document w)) ++ added
              end.
Proof.
  destruct rs as [|r0 rs'].
  { exists []. split; [constructor|]. intros w _ Hrs _.
    unfold showAllComments. rewrite Hrs. split; [apply sameInputs_refl|reflexivity]. }
  destruct (filter (fun r => Is_true (hasIssues r)) (r0 :: rs'))
    as [|r1 rs1] eqn:Hfilter.
  - exists []. split; [constructor|]. intros w _ Hrs _.
    unfold showAllComments. rewrite Hrs.
    cbn [removeAllComments setComments session evaluationResults].
    rewrite Hrs, Hfilter. rewrite app_nil_r.
    split; [repeat split|reflexivity].
  - destruct (annotateAll_spec ed scope (r1 :: rs1) ps (pageTitle d))
      as (added & ok & Hadded & H).
    exists added. split; [exact Hadded|]. intros w Hps Hrs Hd.
    unfold showAllComments. rewrite Hrs.
    cbn [removeAllComments setComments session evaluationResults].
    rewrite Hrs, Hfilter.
    destruct (H (setCommentRanges ∅ (removeAllComments ed w)))
      as (Hc & _ & Hs).
    { exact Hps. }
    { simpl. rewrite Hd. reflexivity. }
    split.
    + eapply sameInputs_trans; [|exact Hs]. repeat split.
    + exact Hc.
Qed.

Lemma filterCommentsByScope_spec (ed : Editor) (sc : EvaluationScope)
    (ps : list Paragraph) (rs : list EvaluationResult) (d : Display) :
  exists added,
    Forall (onParagraph ps) added
    /\ forall w,
         paragraphs (document w) = ps ->
         evaluationResults (session w) = rs ->
         display w = d ->
         sameInputs w (filterCommentsByScope ed sc w)
         /\ comments (document (filterCommentsByScope ed sc w))
            = match rs with
              | [] => comments (document w)
              | _ :: _ => cleared ed (comments (document w)) ++ added
              end.
Proof.
  destruct rs as [|r0 rs'].
  { exists []. split; [constructor|]. intros w _ Hrs _.
    unfold filterCommentsByScope. rewrite Hrs.
    split; [apply sameInputs_refl|reflexivity]. }
  destruct (filter (fun r => Is_true (isMatchingScope (scope r) sc && hasIssues r))
              (r0 :: rs'))
    as [|r1 rs1] eqn:Hfilter.
  - exists []. split; [constructor|]. intros w _ Hrs _.
    unfold filterCommentsByScope. rewrite Hrs.
    cbn [removeAllComments setComments session evaluationResults].
    rewrite Hrs, Hfilter. rewrite app_nil_r.
    split; [repeat split|reflexivity].
  - destruct (annotateAll_spec ed (fun _ => sc) (r1 :: rs1) ps (pageTitle d))
      as (added & ok & Hadded & H).
    exists added. split; [exact Hadded|]. intros w Hps Hrs Hd.
    unfold filterCommentsByScope. rewrite Hrs.
    cbn [removeAllComments setComments session evaluationResults].
    rewrite Hrs, Hfilter.
    destruct (H (setCommentRanges ∅ (removeAllComments ed w)))
      as (Hc & _ & Hs).
    { exact Hps. }
    { simpl. rewrite Hd. reflexivity. }
    destruct (annotateAll ed (fun _ => sc) (r1 :: rs1)
                (setCommentRanges ∅ (removeAllComments ed w))) as [w2 ok2].
    cbn [fst] in Hc, Hs.
    assert (Hs' : sameInputs w w2).
    { eapply sameInputs_trans; [|exact Hs]. repeat split. }
    destruct ok2; [|split; assumption].
    split; [|exact Hc].
    destruct Hs' as (H1 & H2 & H3). repeat split; assumption.
Qed.

(** Two passes of the same kind in a row leave the comments of one. *)
Lemma pass_twice (ed : Editor) (pass : World -> World) (w : World)
    (added : list Comment) :
  covers ed (paragraphs (document w)) ->
  Forall (onParagraph (paragraphs (document w))) added ->
  (forall w',
     paragraphs (document w') = paragraphs (document w) ->
     evaluationResults (session w') = evaluationResults (session w) ->
     display w' = display w ->
     sameInputs w' (pass w')
     /\ comments (document (pass w'))
        = match evaluationResults (session w) with
          | [] => comments (document w')
          | _ :: _ => cleared ed (comments (document w')) ++ added
          end) ->
  comments (document (pass (pass w))) = comments (document (pass w)).
Proof.
  intros Hcov Hadded H.
  destruct (H w eq_refl eq_refl eq_refl) as ((Hp & He & Hd) & Hc1).
  destruct (H (pass w) Hp He Hd) as (_ & Hc2).
  rewrite Hc2. destruct (evaluationResults (session w)); [reflexivity|].
  rewrite Hc1, cleared_app, cleared_idempotent.
  rewrite (cleared_covered ed _ added Hcov Hadded), app_nil_r. reflexivity.
Qed.

(** C9.  With an editor whose wild-card search reaches every paragraph, so
    that [removeAllComments] does remove the comments attached to
    paragraphs, showing all comments twice in a row leaves the comments,
    and so the number of comments, that showing them once leaves, and the
    same holds for showing the comments of one scope: each pass clears
    first and then attaches what the unchanged paragraphs, results and page
    determine. *)
Theorem annotation_pass_is_idempotent (ed : Editor) (w : World)
    (sc : EvaluationScope) :
  covers ed (paragraphs (document w)) ->
  comments (document (showAllComments ed (showAllComments ed w)))
  = comments (document (showAllComments ed w))
  /\ length (comments (document (showAllComments ed (showAllComments ed w))))
     = length (comments (document (showAllComments ed w)))
  /\ comments (document (filterCommentsByScope ed sc
                           (filterCommentsByScope ed sc w)))
     = comments (document (filterCommentsByScope ed sc w))
  /\ length (comments (document (filterCommentsByScope ed sc
                                   (filterCommentsByScope ed sc w))))
     = length (comments (document (filterCommentsByScope ed sc w)))
  /\ (Forall (onParagraph (paragraphs (document w))) (comments (document w)) ->
      comments (document (removeAllComments ed w)) = []).
Proof.
  intros Hcov.
  assert (Hall : comments (document (showAllComments ed (showAllComments ed w)))
                 = comments (document (showAllComments ed w))).
  { destruct (showAllComments_spec ed (paragraphs (document w))
                (evaluationResults (session w)) (display w))
      as (added & Hadded & H).
    apply (pass_twice ed (showAllComments ed) w added Hcov Hadded).
    intros w' Hp He Hd. apply H; assumption. }
  assert (Hone : comments (document (filterCommentsByScope ed sc
                                       (filterCommentsByScope ed sc w)))
                 = comments (document (filterCommentsByScope ed sc w))).
  { destruct (filterCommentsByScope_spec ed sc (paragraphs (document w))
                (evaluationResults (session w)) (display w))
      as (added & Hadded & H).
    apply (pass_twice ed (filterCommentsByScope ed sc) w added Hcov Hadded).
    intros w' Hp He Hd. apply H; assumption. }
  split; [exact Hall|]. split; [rewrite Hall; reflexivity|].
  split; [exact Hone|]. split; [rewrite Hone; reflexivity|].
  intros Hold. apply (cleared_covered ed _ _ Hcov Hold).
Qed.

Lemma paragraphEditor_covers (ps : list Paragraph) :
  covers (paragraphEditor (length ps)) ps.
Proof.
  intros i Hi. exists (ParagraphRange i). split.
  - simpl. apply list_elem_of_fmap. exists i. split; [reflexivity|].
    apply elem_of_seq. lia.
  - simpl. apply bool_decide_eq_true. reflexivity.
Qed.

Lemma annotation_pass_is_idempotent_witness :
  length (comments (document
    (showAllComments (paragraphEditor 2)
       (showAllComments (paragraphEditor 2)
          (worldWith [flush "Title"; flush "• Summary A"]
             [{| anchor := ParagraphRange 1; commentText := js "old" |}]
             [failing "Summary A" DOCUMENT_WIDE RHETORICAL_EXPRESSION])))))
  = length (comments (document
      (showAllComments (paragraphEditor 2)
         (worldWith [flush "Title"; flush "• Summary A"]
            [{| anchor := ParagraphRange 1; commentText := js "old" |}]
            [failing "Summary A" DOCUMENT_WIDE RHETORICAL_EXPRESSION])))).
Proof.
  destruct (annotation_pass_is_idempotent (paragraphEditor 2)
              (worldWith [flush "Title"; flush "• Summary A"]
                 [{| anchor := ParagraphRange 1; commentText := js "old" |}]
                 [failing "Summary A" DOCUMENT_WIDE RHETORICAL_EXPRESSION])
              DOCUMENT_WIDE) as (_ & H & _).
  - intros i Hi. exists (ParagraphRange i). simpl in Hi.
    destruct i as [|[|i]]; [| |lia].
    + split; [apply list_elem_of_here|reflexivity].
    + split; [apply list_elem_of_further, list_elem_of_here|reflexivity].
  - exact H.
Defined.

(** One pass replaces the old comment by the new one; a second pass leaves
    one comment again.  With an editor whose wild-card search hits nothing,
    the comments pile up. *)
Example annotation_pass_counts :
  let w := worldWith [flush "Title"; flush "• Summary A"]
             [{| anchor := ParagraphRange 1; commentText := js "old" |}]
             [failing "Summary A" DOCUMENT_WIDE RHETORICAL_EXPRESSION] in
  length (comments (document (showAllComments (paragraphEditor 2) w))) = 1
  /\ length (comments (document
       (showAllComments (paragraphEditor 2)
          (showAllComments (paragraphEditor 2) w)))) = 1
  /\ length (comments (document
       (showAllComments (paragraphEditor 0)
          (showAllComments (paragraphEditor 0) w)))) = 3.
Proof. vm_compute. auto. Qed.

(** The passes leave the display alone. *)
Lemma showHighestPriorityComments_sameInputs (ed : Editor) (w : World) :
  sameInputs w (showHighestPriorityComments ed w).
Proof.
  unfold showHighestPriorityComments.
  destruct (evaluationResults (session w)) eqn:Hrs; [apply sameInputs_refl|].
  destruct (highestPriorityScope _) as [sc|].
  - destruct (filterCommentsByScope_spec ed sc (paragraphs (document w))
                (evaluationResults (session w)) (display w))
      as (added & _ & H).
    apply H; reflexivity.
  - destruct (showAllComments_spec ed (paragraphs (document w))
                (evaluationResults (session w)) (display w))
      as (added & _ & H).
    apply H; reflexivity.
Qed.

Lemma reflectResponse_display (ed : Editor) (responseData : EvaluationResponse)
    (w : World) :
  display (reflectResponse ed responseData w)
  = display (updateScore (scoreOfResponse (score responseData)) w).
Proof.
  unfold reflectResponse.
  destruct (eqb (status responseData) (js "success")); [|reflexivity].
  destruct (showHighestPriorityComments_sameInputs ed
              (removeAllComments ed
                 (setEvaluationResults (results responseData)
                    (updateScore (scoreOfResponse (score responseData))
                       (setLastCheckResults (Some responseData) w)))))
    as (_ & _ & Hd).
  rewrite Hd. reflexivity.
Qed.

(** C7.  When the score of the response is missing, [null] or not a number,
    the score shown is 100, with the first ("excellent") message; and every
    score of at least 90 is shown with that message.  The display [run]
    leaves for a response is the one [updateScore] makes for its score. *)
Theorem missing_score_shows_100 (ed : Editor) (w : World) (f : ScoreField)
    (n : JSNumber) (responseData : EvaluationResponse) :
  f = ScoreAbsent \/ f = ScoreNull \/ f = ScoreNumber NaN \/ f = ScoreOther NaN ->
  atLeast n 90 = true ->
  scoreOfResponse f = Finite 100
  /\ scoreDisplay (display (updateScore (scoreOfResponse f) w))
     = Some (Finite 100)
  /\ scoreMessage (display (updateScore (scoreOfResponse f) w))
     = excellentMessage
  /\ scoreMessage (display (updateScore n w)) = excellentMessage
  /\ display (reflectResponse ed responseData w)
     = display (updateScore (scoreOfResponse (score responseData)) w).
Proof.
  intros Hf Hn.
  assert (H100 : scoreOfResponse f = Finite 100).
  { destruct Hf as [->|[->|[->| ->]]]; reflexivity. }
  split; [exact H100|]. rewrite H100.
  split; [reflexivity|].
  split; [apply updateScore_excellent; reflexivity|].
  split; [apply updateScore_excellent, Hn|].
  apply reflectResponse_display.
Qed.

Lemma missing_score_shows_100_witness :
  scoreDisplay (display (updateScore (scoreOfResponse ScoreNull)
                           (worldWith [] [] [])))
  = Some (Finite 100)
  /\ scoreMessage (display (updateScore (Finite (181 # 2))
                             (worldWith [] [] [])))
     = excellentMessage.
Proof.
  destruct (missing_score_shows_100 (paragraphEditor 0) (worldWith [] [] [])
              ScoreNull (Finite (181 # 2))
              {| status := js "success"; message := []; results := [];
                 score := ScoreNull |})
    as (_ & Hshown & _ & Hround & _).
  - right. left. reflexivity.
  - reflexivity.
  - split; [exact Hshown|exact Hround].
Defined.

(** The display after a check whose response arrived and parsed. *)
Lemma run_display (ed : Editor) (fetch : BulletPointsRequest -> FetchOutcome)
    (w : World) (d : BulletPointsRequest) (responseData : EvaluationResponse) :
  requestOfRun (paragraphs (document w)) = Some d ->
  summaries d <> [] ->
  fetch d = Response true (Some responseData) ->
  display (run ed fetch w)
  = display (updateScore (scoreOfResponse (score responseData)) w).
Proof.
  intros Hreq Hsum Hfetch. unfold run. rewrite Hreq.
  destruct (summaries d); [congruence|].
  rewrite Hfetch. apply reflectResponse_display.
Qed.

(** ** Further examples *)

Example numbered_paragraphs :
  matchesNumbered (js "1. foo") = true
  /\ matchesNumbered (js "12) x") = true
  /\ matchesNumbered (js "1.foo") = false
  /\ matchesNumbered (js "a1. x") = false.
Proof. repeat split. Qed.

Example clean_texts :
  cleanText (js "• 1. foo") = js "foo"
  /\ cleanText (js "1.foo") = js "foo"
  /\ cleanText (js "-") = [].
Proof. repeat split. Qed.

Example levels_of_indents :
  inferLevel (indented "x" (239 # 10)) = 0%Z
  /\ inferLevel (indented "x" 24) = 1%Z
  /\ inferLevel (indented "x" 72) = 2%Z
  /\ inferLevel (indented "x" (-5)) = 0%Z.
Proof. repeat split. Qed.

Example locate_by_longest_word :
  locate [flush "hello world"; flush "foo"] (js "say hello")
  = Some (LongestWord, ParagraphRange 0).
Proof. reflexivity. Qed.

Example locate_by_prefix :
  locate [flush "hello world"; flush "abcdefghijkl"] (js "abcdefghijXYZ")
  = Some (Prefix, ParagraphRange 1).
Proof. reflexivity. Qed.

Example legacy_locate_exact_first :
  legacyLocate (paragraphEditor 2) (js "abc")
    (Some [flush "abc def"; flush " abc "])
  = Some (ExactMatch, ParagraphRange 1).
Proof. reflexivity. Qed.

Example check_after_failure_and_success :
  let w := worldWith [flush "Title"; flush "• Summary A"] [] [] in
  let response :=
    {| status := js "success"; message := [];
       results := [failing "Summary A" DOCUMENT_WIDE RHETORICAL_EXPRESSION];
       score := ScoreNull |} in
  run (paragraphEditor 2) (fun _ => TransportFailure) w = w
  /\ comments (document
       (run (paragraphEditor 2) (fun _ => Response true (Some response)) w))
     = [{| anchor := ParagraphRange 1;
           commentText :=
             composeComment DOCUMENT_WIDE
               (failing "Summary A" DOCUMENT_WIDE RHETORICAL_EXPRESSION) |}]
  /\ scoreDisplay (display
       (run (paragraphEditor 2) (fun _ => Response true (Some response)) w))
     = Some (Finite 100).
Proof. vm_compute. auto. Qed.

(** * Further properties *)

(** ** Hierarchy builder: the loop on the flat entries *)

Lemma entry_cases (bp : BulletPoint) :
  (entry bp = []
   /\ (bp_text bp = []
       \/ (level bp <> 0 /\ level bp <> 1 /\ level bp <> 2)%Z))
  \/ (entry bp = [(level bp, bp_text bp)] /\ bp_text bp <> []
      /\ (level bp = 0 \/ level bp = 1 \/ level bp = 2)%Z).
Proof.
  unfold entry. destruct (isEmpty (bp_text bp)) eqn:He.
  - left. split; [reflexivity|]. left. apply isEmpty_true, He.
  - apply isEmpty_false in He.
    destruct (level bp =? 0)%Z eqn:H0; [apply Z.eqb_eq in H0; right; auto|].
    destruct (level bp =? 1)%Z eqn:H1; [apply Z.eqb_eq in H1; right; auto|].
    destruct (level bp =? 2)%Z eqn:H2; [apply Z.eqb_eq in H2; right; auto|].
    apply Z.eqb_neq in H0, H1, H2. left. simpl. auto.
Qed.

Lemma linked_message_has_summary (b : Builder) :
  WellLinked b -> currentSummary b = None -> currentMessage b = None.
Proof.
  intros Hb Hcs. destruct (currentMessage b) as [m|] eqn:Hm; [|reflexivity].
  destruct (wl_currentMessage b Hb m Hm) as [_ (r & o & ms0 & Hr & _)].
  congruence.
Qed.

(** One turn of the loop does to the outline of the heap what [repair] does
    to the entry. *)
Lemma placeBullet_repair (b : Builder) (bp : BulletPoint) :
  WellLinked b ->
  WellLinked (placeBullet b bp)
  /\ forall rest,
       heapOutline (placeBullet b bp)
       ++ repair (isSet (currentSummary (placeBullet b bp)))
            (isSet (currentMessage (placeBullet b bp))) rest
       = heapOutline b
         ++ repair (isSet (currentSummary b)) (isSet (currentMessage b))
              (entry bp ++ rest).
Proof.
  intros Hb. unfold placeBullet, entry.
  destruct (isEmpty (bp_text bp)); [split; [exact Hb|reflexivity]|].
  destruct (level bp =? 0)%Z eqn:H0.
  { apply Z.eqb_eq in H0. rewrite H0. cbn [orb app repair Z.eqb].
    split; [apply newSummary_linked, Hb|]. intros rest.
    rewrite clearMessage_outline, newSummary_outline, <- app_assoc.
    reflexivity. }
  destruct (level bp =? 1)%Z eqn:H1.
  { apply Z.eqb_eq in H1. rewrite H1. cbn [orb app repair Z.eqb].
    unfold ensureSummary.
    destruct (currentSummary b) as [s|] eqn:Hcs.
    - destruct (newMessage_linked (bp_text bp) s b Hb Hcs) as (Hb2 & Hout & Hcm).
      split; [exact Hb2|]. intros rest.
      rewrite Hout, Hcm. cbn [newMessage currentSummary]. rewrite Hcs.
      cbn [isSet app]. rewrite <- app_assoc. reflexivity.
    - pose proof (linked_message_has_summary b Hb Hcs) as Hnone.
      pose proof (newSummary_linked unclassified b Hb) as Hb1.
      rewrite (newSummary_no_message _ _ Hnone) in Hb1.
      destruct (newMessage_linked (bp_text bp) (length (summaryObjs b))
                  (newSummary unclassified b) Hb1 eq_refl)
        as (Hb2 & Hout & Hcm).
      split; [exact Hb2|]. intros rest.
      rewrite Hout, Hcm, newSummary_outline.
      cbn [newMessage newSummary currentSummary isSet app].
      rewrite <- !app_assoc. reflexivity. }
  destruct (level bp =? 2)%Z eqn:H2.
  { apply Z.eqb_eq in H2. rewrite H2. cbn [orb app repair Z.eqb].
    destruct (currentMessage b) as [m|] eqn:Hcm.
    - destruct (pushBody_linked (bp_text bp) m b Hb Hcm) as [Hb1 Hout].
      split; [exact Hb1|]. intros rest.
      destruct (wl_currentMessage b Hb m Hcm) as [_ (r & _ & _ & Hr & _)].
      rewrite Hout. cbn [pushBody currentSummary currentMessage].
      rewrite Hcm, Hr. cbn [isSet app]. rewrite <- app_assoc. reflexivity.
    - unfold ensureSummary.
      destruct (currentSummary b) as [s|] eqn:Hcs.
      + destruct (newMessage_linked unclassified s b Hb Hcs)
          as (Hb2 & Hout2 & Hcm2).
        destruct (pushBody_linked (bp_text bp) _ _ Hb2 Hcm2) as [Hb3 Hout3].
        split; [exact Hb3|]. intros rest.
        rewrite Hout3, Hout2.
        cbn [pushBody newMessage currentSummary currentMessage].
        rewrite Hcs. cbn [isSet app]. rewrite <- !app_assoc. reflexivity.
      + pose proof (newSummary_linked unclassified b Hb) as Hb1.
        rewrite (newSummary_no_message _ _ Hcm) in Hb1.
        destruct (newMessage_linked unclassified (length (summaryObjs b))
                    (newSummary unclassified b) Hb1 eq_refl)
          as (Hb2 & Hout2 & Hcm2).
        destruct (pushBody_linked (bp_text bp) _ _ Hb2 Hcm2) as [Hb3 Hout3].
        split; [exact Hb3|]. intros rest.
        rewrite Hout3, Hout2, newSummary_outline.
        cbn [pushBody newMessage newSummary currentSummary currentMessage
             isSet app].
        rewrite <- !app_assoc. reflexivity. }
  split; [exact Hb|reflexivity].
Qed.

Lemma placeBullets_repair (bps : list BulletPoint) (b : Builder) :
  WellLinked b ->
  heapOutline (placeBullets bps b)
  = heapOutline b
    ++ repair (isSet (currentSummary b)) (isSet (currentMessage b))
         (flat_map entry bps).
Proof.
  revert b. induction bps as [|bp bps IH]; intros b Hb.
  - simpl. rewrite app_nil_r. reflexivity.
  - destruct (placeBullet_repair b bp Hb) as [Hb1 Hstep].
    unfold placeBullets in *. simpl. rewrite IH by exact Hb1. apply Hstep.
Qed.

(** The outline of the result is the repaired sequence of entries. *)
Lemma outline_buildHierarchy (bps : list BulletPoint) :
  outline (buildHierarchy bps) = repair false false (flat_map entry bps).
Proof.
  unfold buildHierarchy.
  destruct (placeBullets_linked bps builderInit builderInit_linked) as [Hb _].
  rewrite outline_readSummaries by apply Hb.
  rewrite placeBullets_repair by apply builderInit_linked. reflexivity.
Qed.

Lemma repair_noOrphans (hs hm : bool) (es : list (Z * jsstring)) :
  (hm = true -> hs = true) ->
  noOrphans hs hm es = true -> repair hs hm es = es.
Proof.
  revert hs hm. induction es as [|[lv t] es IH]; intros hs hm Hflags; simpl;
    [reflexivity|].
  destruct (lv =? 0)%Z eqn:H0.
  { apply Z.eqb_eq in H0. subst lv. intros H.
    rewrite IH by (discriminate || exact H). reflexivity. }
  destruct (lv =? 1)%Z eqn:H1.
  { apply Z.eqb_eq in H1. subst lv. intros H.
    apply andb_true_iff in H. destruct H as [-> H]. simpl.
    rewrite IH by (reflexivity || exact H). reflexivity. }
  destruct (lv =? 2)%Z eqn:H2; [|discriminate].
  apply Z.eqb_eq in H2. subst lv. intros H.
  apply andb_true_iff in H. destruct H as [-> H].
  rewrite (Hflags eq_refl) in H. simpl.
  rewrite IH by (reflexivity || exact H). reflexivity.
Qed.

(** X1.  A sequence of bullet points that is well nested already (a summary
    before every message, a message since the last summary before every
    body) is built as it stands: the outline of the result, read in order,
    is the sequence of the bullet points that have a text, with no
    placeholder added and nothing moved. *)
Theorem well_nested_outline_is_kept (bps : list BulletPoint) :
  noOrphans false false (flat_map entry bps) = true ->
  outline (buildHierarchy bps) = flat_map entry bps.
Proof.
  intros H. rewrite outline_buildHierarchy.
  apply repair_noOrphans; [discriminate|exact H].
Qed.

Lemma well_nested_outline_is_kept_witness :
  outline (buildHierarchy
             [{| bp_text := js "S"; level := 0; paragraph := 1 |};
              {| bp_text := js "M"; level := 1; paragraph := 2 |};
              {| bp_text := []; level := 2; paragraph := 3 |};
              {| bp_text := js "B"; level := 2; paragraph := 4 |}])
  = flat_map entry
      [{| bp_text := js "S"; level := 0; paragraph := 1 |};
       {| bp_text := js "M"; level := 1; paragraph := 2 |};
       {| bp_text := []; level := 2; paragraph := 3 |};
       {| bp_text := js "B"; level := 2; paragraph := 4 |}].
Proof.
  apply (well_nested_outline_is_kept
           [{| bp_text := js "S"; level := 0; paragraph := 1 |};
            {| bp_text := js "M"; level := 1; paragraph := 2 |};
            {| bp_text := []; level := 2; paragraph := 3 |};
            {| bp_text := js "B"; level := 2; paragraph := 4 |}]).
  reflexivity.
Defined.

(** The outline determines the tree. *)
Lemma outline_bodies_inj (bs bs' : list Body.t) (x x' : list (Z * jsstring)) :
  (forall e r, x = e :: r -> fst e <> 2%Z) ->
  (forall e r, x' = e :: r -> fst e <> 2%Z) ->
  map (fun b => (2%Z, Body.content b)) bs ++ x
  = map (fun b => (2%Z, Body.content b)) bs' ++ x' ->
  bs = bs' /\ x = x'.
Proof.
  intros Hx Hx'. revert bs'.
  induction bs as [|[c] bs IH]; intros [|[c'] bs']; simpl; intros H.
  - auto.
  - exfalso. apply (Hx _ _ H). reflexivity.
  - exfalso. symmetry in H. apply (Hx' _ _ H). reflexivity.
  - injection H as -> H. destruct (IH _ H) as [-> ->]. auto.
Qed.

Lemma outline_head_level (ss : list Summary.t) e r :
  outline ss = e :: r -> fst e = 0%Z.
Proof. destruct ss as [|s ss]; simpl; [discriminate|]. intros [= <- _]. reflexivity. Qed.

Lemma outline_messages_head (ms : list Message.t) (x : list (Z * jsstring)) e r :
  (forall e r, x = e :: r -> fst e = 0%Z) ->
  flat_map outlineMessage ms ++ x = e :: r -> fst e = 0%Z \/ fst e = 1%Z.
Proof.
  intros Hx. destruct ms as [|m ms]; simpl.
  - intros H. left. eapply Hx, H.
  - intros [= <- _]. right. reflexivity.
Qed.

Lemma outline_messages_inj (ms ms' : list Message.t)
    (x x' : list (Z * jsstring)) :
  (forall e r, x = e :: r -> fst e = 0%Z) ->
  (forall e r, x' = e :: r -> fst e = 0%Z) ->
  flat_map outlineMessage ms ++ x = flat_map outlineMessage ms' ++ x' ->
  ms = ms' /\ x = x'.
Proof.
  intros Hx Hx'. revert ms'.
  induction ms as [|[c bs] ms IH]; intros [|[c' bs'] ms']; simpl; intros H.
  - auto.
  - exfalso. pose proof (Hx _ _ H) as Hl. discriminate.
  - exfalso. symmetry in H. pose proof (Hx' _ _ H) as Hl. discriminate.
  - injection H as -> H. rewrite <- !app_assoc in H.
    apply outline_bodies_inj in H.
    + destruct H as [-> H]. destruct (IH _ H) as [-> ->]. auto.
    + intros e r He.
      destruct (outline_messages_head ms x e r Hx He) as [Hl|Hl];
        rewrite Hl; discriminate.
    + intros e r He.
      destruct (outline_messages_head ms' x' e r Hx' He) as [Hl|Hl];
        rewrite Hl; discriminate.
Qed.

Lemma outline_inj (ss ss' : list Summary.t) :
  outline ss = outline ss' -> ss = ss'.
Proof.
  revert ss'. induction ss as [|[c ms] ss IH]; intros [|[c' ms'] ss']; simpl;
    try discriminate; [reflexivity|].
  intros H. injection H as -> H.
  apply outline_messages_inj in H.
  - destruct H as [-> H]. rewrite (IH _ H). reflexivity.
  - intros e r. apply outline_head_level.
  - intros e r. apply outline_head_level.
Qed.

Lemma outline_levels (ss : list Summary.t) :
  Forall (fun e => fst e = 0 \/ fst e = 1 \/ fst e = 2)%Z (outline ss).
Proof.
  apply Forall_forall. intros e. unfold outline.
  rewrite list_elem_of_In, in_flat_map. intros (s & _ & Hin).
  destruct Hin as [<-|Hin]; [auto|].
  rewrite in_flat_map in Hin. destruct Hin as (m & _ & Hin).
  destruct Hin as [<-|Hin]; [auto|].
  rewrite in_map_iff in Hin. destruct Hin as (b & <- & _). auto.
Qed.

Lemma entry_bulletOfEntry (es : list (Z * jsstring)) :
  Forall (fun e => snd e <> []) es ->
  Forall (fun e => fst e = 0 \/ fst e = 1 \/ fst e = 2)%Z es ->
  flat_map entry (map bulletOfEntry es) = es.
Proof.
  induction es as [|[lv t] es IH]; [reflexivity|].
  rewrite !Forall_cons. intros [Ht Hts] [Hl Hls]. simpl in Ht, Hl.
  cbn [map flat_map]. rewrite IH by assumption.
  unfold entry, bulletOfEntry. cbn [bp_text level fst snd].
  apply isEmpty_false in Ht. rewrite Ht.
  destruct Hl as [->|[->| ->]]; reflexivity.
Qed.

(** X2.  Flattening an outline and building it again gives the outline
    back: for every tree of summaries, messages and bodies none of which has
    an empty content, the builder run on the entries of the tree, read in
    order with their levels, returns the tree. *)
Theorem flatten_then_build (ss : list Summary.t) :
  contentsPresent ss ->
  buildHierarchy (map bulletOfEntry (outline ss)) = ss.
Proof.
  intros Hpresent. apply outline_inj.
  rewrite outline_buildHierarchy.
  rewrite entry_bulletOfEntry by (exact Hpresent || apply outline_levels).
  apply repair_noOrphans; [discriminate|apply noOrphans_outline].
Qed.

Lemma flatten_then_build_witness :
  buildHierarchy
    (map bulletOfEntry
       (outline [Summary.mk (js "S1") [];
                 Summary.mk (js "S2")
                   [Message.mk (js "M") [Body.mk (js "B1"); Body.mk (js "B2")];
                    Message.mk (js "N") []]]))
  = [Summary.mk (js "S1") [];
     Summary.mk (js "S2")
       [Message.mk (js "M") [Body.mk (js "B1"); Body.mk (js "B2")];
        Message.mk (js "N") []]].
Proof.
  apply (flatten_then_build
           [Summary.mk (js "S1") [];
            Summary.mk (js "S2")
              [Message.mk (js "M") [Body.mk (js "B1"); Body.mk (js "B2")];
               Message.mk (js "N") []]]).
  unfold contentsPresent. repeat constructor; discriminate.
Defined.

(** An empty content is not kept: the builder skips it. *)
Example flatten_then_build_needs_contents :
  buildHierarchy (map bulletOfEntry (outline [Summary.mk [] []])) = [].
Proof. reflexivity. Qed.

Lemma textsOfLevel_app (k : Z) (a b : list (Z * jsstring)) :
  textsOfLevel k (a ++ b) = textsOfLevel k a ++ textsOfLevel k b.
Proof. unfold textsOfLevel. rewrite filter_app, map_app. reflexivity. Qed.

Lemma textsOfLevel_cons (k lv : Z) (t : jsstring) (es : list (Z * jsstring)) :
  textsOfLevel k ((lv, t) :: es)
  = (if decide (lv = k) then [t] else []) ++ textsOfLevel k es.
Proof.
  unfold textsOfLevel. rewrite filter_cons. cbn [fst].
  destruct (decide (lv = k)); reflexivity.
Qed.

(** The repair adds no body. *)
Lemma textsOfLevel_2_repair (hs hm : bool) (es : list (Z * jsstring)) :
  Forall (fun e => fst e = 0 \/ fst e = 1 \/ fst e = 2)%Z es ->
  textsOfLevel 2 (repair hs hm es) = textsOfLevel 2 es.
Proof.
  intros H. revert hs hm.
  induction H as [|[lv t] es Hl _ IH]; intros hs hm; [reflexivity|].
  simpl in Hl. cbn [repair].
  destruct Hl as [->|[->| ->]]; cbn [Z.eqb Pos.eqb].
  - rewrite !textsOfLevel_cons, IH. reflexivity.
  - rewrite textsOfLevel_app, !textsOfLevel_cons, IH.
    destruct hs; reflexivity.
  - rewrite textsOfLevel_app, !textsOfLevel_cons, IH.
    destruct hm, hs; reflexivity.
Qed.

Lemma entry_levels (bps : list BulletPoint) :
  Forall (fun e => fst e = 0 \/ fst e = 1 \/ fst e = 2)%Z (flat_map entry bps).
Proof.
  induction bps as [|bp bps IH]; simpl; [constructor|].
  apply Forall_app. split; [|exact IH].
  destruct (entry_cases bp) as [[-> _]|(-> & _ & Hl)]; [constructor|].
  constructor; [exact Hl|constructor].
Qed.

Lemma textsOfLevel_entries (k : Z) (bps : list BulletPoint) :
  (k = 0 \/ k = 1 \/ k = 2)%Z ->
  textsOfLevel k (flat_map entry bps)
  = map bp_text (filter (fun bp => bp_text bp <> [] /\ level bp = k) bps).
Proof.
  intros Hk. induction bps as [|bp bps IH]; [reflexivity|].
  cbn [flat_map]. rewrite textsOfLevel_app, IH, filter_cons.
  destruct (entry_cases bp) as [[-> Hno]|(-> & Ht & Hl)].
  - destruct (decide (bp_text bp <> [] /\ level bp = k)) as [[Ht Hlk]|_];
      [|reflexivity].
    exfalso. destruct Hno as [He|(H0 & H1 & H2)]; [congruence|].
    destruct Hk as [->|[->| ->]]; congruence.
  - rewrite textsOfLevel_cons. cbn [textsOfLevel filter map app].
    destruct (decide (level bp = k)) as [Hlk|Hlk].
    + rewrite decide_True by auto. reflexivity.
    + rewrite decide_False by tauto. reflexivity.
Qed.

Lemma bodyContents_outline (ss : list Summary.t) :
  bodyContents ss = textsOfLevel 2 (outline ss).
Proof.
  unfold bodyContents, outline.
  induction ss as [|s ss IH]; [reflexivity|].
  cbn [flat_map]. rewrite textsOfLevel_app, <- IH. f_equal.
  unfold outlineSummary. rewrite textsOfLevel_cons.
  rewrite decide_False by discriminate. cbn [app].
  induction (Summary.messages s) as [|m ms IHm]; [reflexivity|].
  cbn [flat_map]. rewrite textsOfLevel_app, <- IHm. f_equal.
  unfold outlineMessage. rewrite textsOfLevel_cons.
  rewrite decide_False by discriminate. cbn [app].
  induction (Message.bodies m) as [|b bs IHb]; [reflexivity|].
  cbn [map]. rewrite textsOfLevel_cons, decide_True by reflexivity.
  cbn [app]. rewrite IHb. reflexivity.
Qed.

(** X3.  The bodies of the result, in reading order, are exactly the bullet
    points of level 2 that have a text, in their order: the builder neither
    loses a body nor makes one up, whatever parents it had to synthesize. *)
Theorem bodies_are_the_level_2_bullets (bps : list BulletPoint) :
  bodyContents (buildHierarchy bps)
  = map bp_text (filter (fun bp => bp_text bp <> [] /\ level bp = 2%Z) bps).
Proof.
  rewrite bodyContents_outline, outline_buildHierarchy.
  rewrite textsOfLevel_2_repair by apply entry_levels.
  apply textsOfLevel_entries. auto.
Qed.

Lemma textsOfLevel_0_repair_true (hm : bool) (es : list (Z * jsstring)) :
  Forall (fun e => fst e = 0 \/ fst e = 1 \/ fst e = 2)%Z es ->
  textsOfLevel 0 (repair true hm es) = textsOfLevel 0 es.
Proof.
  intros H. revert hm.
  induction H as [|[lv t] es Hl _ IH]; intros hm; [reflexivity|].
  simpl in Hl. cbn [repair].
  destruct Hl as [->|[->| ->]]; cbn [Z.eqb Pos.eqb].
  - rewrite !textsOfLevel_cons, IH. reflexivity.
  - cbn [app]. rewrite !textsOfLevel_cons, IH. reflexivity.
  - rewrite textsOfLevel_app, !textsOfLevel_cons, IH.
    destruct hm; reflexivity.
Qed.

Lemma summaryContents_outline (ss : list Summary.t) :
  map Summary.content ss = textsOfLevel 0 (outline ss).
Proof.
  unfold outline. induction ss as [|s ss IH]; [reflexivity|].
  cbn [flat_map map]. rewrite textsOfLevel_app, <- IH.
  unfold outlineSummary. rewrite textsOfLevel_cons.
  rewrite decide_True by reflexivity.
  assert (Hnone : textsOfLevel 0 (flat_map outlineMessage (Summary.messages s))
                  = []).
  { induction (Summary.messages s) as [|m ms IHm]; [reflexivity|].
    cbn [flat_map]. rewrite textsOfLevel_app, IHm, app_nil_r.
    unfold outlineMessage. rewrite textsOfLevel_cons.
    rewrite decide_False by discriminate. cbn [app].
    induction (Message.bodies m) as [|b bs IHb]; [reflexivity|].
    cbn [map]. rewrite textsOfLevel_cons, decide_False by discriminate.
    exact IHb. }
  rewrite Hnone. reflexivity.
Qed.

(** X4.  The summaries of the result are the bullet points of level 0 that
    have a text, in their order, with one placeholder summary in front
    exactly when the first bullet point that is placed has level 1 or 2: at
    most one summary is synthesized, and only at the start. *)
Theorem summaries_are_the_level_0_bullets (bps : list BulletPoint) :
  map Summary.content (buildHierarchy bps)
  = match flat_map entry bps with
    | (lv, _) :: _ => if (lv =? 0)%Z then [] else [unclassified]
    | [] => []
    end
    ++ map bp_text (filter (fun bp => bp_text bp <> [] /\ level bp = 0%Z) bps).
Proof.
  rewrite summaryContents_outline, outline_buildHierarchy.
  rewrite <- (textsOfLevel_entries 0) by auto.
  pose proof (entry_levels bps) as Hl.
  destruct (flat_map entry bps) as [|[lv t] es]; [reflexivity|].
  apply Forall_cons in Hl. destruct Hl as [Hlv Hes]. simpl in Hlv.
  cbn [repair].
  destruct Hlv as [->|[->| ->]]; cbn [Z.eqb Pos.eqb].
  - rewrite !textsOfLevel_cons, textsOfLevel_0_repair_true by exact Hes.
    reflexivity.
  - cbn [app]. rewrite !textsOfLevel_cons, textsOfLevel_0_repair_true
      by exact Hes. reflexivity.
  - cbn [app]. rewrite !textsOfLevel_cons, textsOfLevel_0_repair_true
      by exact Hes. reflexivity.
Qed.

Example summaries_with_placeholder :
  map Summary.content
    (buildHierarchy [{| bp_text := js "b"; level := 2; paragraph := 0 |};
                     {| bp_text := js "s"; level := 0; paragraph := 1 |};
                     {| bp_text := js "m"; level := 1; paragraph := 2 |}])
  = [unclassified; js "s"].
Proof. reflexivity. Qed.

(** ** Paragraph normalizer *)

Lemma Qfloor_24_ge (k : Z) (x : Q) :
  (k <= Qfloor (x / 24))%Z <-> (inject_Z (24 * k) <= x)%Q.
Proof.
  split.
  - intros H. rewrite Zle_Qle in H.
    pose proof (Qfloor_le (x / 24)) as Hf.
    assert (Hk : (inject_Z k <= x / 24)%Q) by (eapply Qle_trans; eauto).
    rewrite inject_Z_mult.
    assert (Hx : (x == (x / 24) * 24)%Q) by field.
    rewrite Hx, (Qmult_comm (inject_Z 24) (inject_Z k)).
    apply Qmult_le_compat_r; [exact Hk|discriminate].
  - intros H. rewrite <- (Qfloor_Z k). apply Qfloor_resp_le.
    apply Qle_shift_div_l; [reflexivity|].
    rewrite inject_Z_mult, (Qmult_comm (inject_Z 24) (inject_Z k)) in H.
    exact H.
Qed.

Lemma Qpositive_true (x : Q) : Qpositive x = true <-> (0 < x)%Q.
Proof.
  unfold Qpositive. rewrite negb_true_iff. split.
  - intros H. apply Qnot_le_lt. intros Hle.
    apply Qle_bool_iff in Hle. congruence.
  - intros H. destruct (Qle_bool x 0) eqn:Hb; [|reflexivity].
    apply Qle_bool_iff in Hb. exfalso. eapply Qlt_not_le; eauto.
Qed.

(** X5.  The level of a paragraph follows its left indent by steps of 24
    points and is never more than 2: level 0 below 24 points (and for an
    indent that is zero or negative), level 1 from 24 up to 48 points, level
    2 from 48 points on. *)
Theorem level_follows_left_indent (p : Paragraph) :
  (0 <= inferLevel p <= 2)%Z
  /\ (inferLevel p = 0%Z <-> (leftIndent p < 24)%Q)
  /\ (inferLevel p = 1%Z <-> (24 <= leftIndent p)%Q /\ (leftIndent p < 48)%Q)
  /\ (inferLevel p = 2%Z <-> (48 <= leftIndent p)%Q).
Proof.
  unfold inferLevel.
  destruct (Qpositive (leftIndent p)) eqn:Hpos.
  - apply Qpositive_true in Hpos.
    pose proof (Qfloor_24_ge 0 (leftIndent p)) as H0.
    pose proof (Qfloor_24_ge 1 (leftIndent p)) as H1.
    pose proof (Qfloor_24_ge 2 (leftIndent p)) as H2.
    change (inject_Z (24 * 0)) with 0%Q in H0.
    change (inject_Z (24 * 1)) with 24%Q in H1.
    change (inject_Z (24 * 2)) with 48%Q in H2.
    assert (Hf0 : (0 <= Qfloor (leftIndent p / 24))%Z)
      by (apply H0, Qlt_le_weak, Hpos).
    destruct (Qlt_le_dec (leftIndent p) 24) as [Hlt24|Hge24].
    + assert (Hf : (Qfloor (leftIndent p / 24) = 0)%Z).
      { destruct (Z_le_gt_dec 1 (Qfloor (leftIndent p / 24))) as [Hc|Hc];
          [|lia].
        apply H1 in Hc. exfalso. eapply Qlt_not_le; eauto. }
      rewrite Hf. simpl. split; [lia|].
      split; [tauto|]. split.
      * split; [discriminate|]. intros [Hc _].
        exfalso. eapply Qlt_not_le; eauto.
      * split; [discriminate|]. intros Hc. exfalso.
        eapply Qlt_not_le; [exact Hlt24|].
        eapply Qle_trans; [|exact Hc]. discriminate.
    + assert (Hf1 : (1 <= Qfloor (leftIndent p / 24))%Z) by (apply H1, Hge24).
      destruct (Qlt_le_dec (leftIndent p) 48) as [Hlt48|Hge48].
      * assert (Hf : (Qfloor (leftIndent p / 24) = 1)%Z).
        { destruct (Z_le_gt_dec 2 (Qfloor (leftIndent p / 24))) as [Hc|Hc];
            [|lia].
          apply H2 in Hc. exfalso. eapply Qlt_not_le; eauto. }
        rewrite Hf. simpl. split; [lia|]. split.
        -- split; [discriminate|]. intros Hc.
           exfalso. eapply Qlt_not_le; eauto.
        -- split; [tauto|]. split; [discriminate|].
           intros Hc. exfalso. eapply Qlt_not_le; eauto.
      * assert (Hf2 : (2 <= Qfloor (leftIndent p / 24))%Z) by (apply H2, Hge48).
        rewrite Z.min_l by exact Hf2. split; [lia|]. split.
        -- split; [discriminate|]. intros Hc.
           exfalso. eapply Qlt_not_le; eauto.
        -- split; [|tauto]. split; [discriminate|].
           intros [_ Hc]. exfalso. eapply Qlt_not_le; eauto.
  - assert (Hle : (leftIndent p <= 0)%Q).
    { apply Qnot_lt_le. intros Hc. apply Qpositive_true in Hc. congruence. }
    assert (Hlt : (leftIndent p < 24)%Q)
      by (eapply Qle_lt_trans; [exact Hle|reflexivity]).
    split; [lia|]. split; [tauto|]. split.
    + split; [discriminate|]. intros [Hc _].
      exfalso. eapply Qlt_not_le; eauto.
    + split; [discriminate|]. intros Hc. exfalso.
      eapply Qlt_not_le; [exact Hlt|].
      eapply Qle_trans; [|exact Hc]. discriminate.
Qed.

Lemma detectBullets_sorted (ttl : jsstring) (i : nat) (ps : list Paragraph) :
  StronglySorted lt (map paragraph (detectBullets ttl i ps)).
Proof.
  revert i. induction ps as [|x ps IH]; intros i; cbn [detectBullets];
    [constructor|].
  destruct (isEmpty (trim (text x))); [apply IH|].
  destruct (eqb (trim (text x)) ttl); [apply IH|].
  destruct (isBulletPoint (trim (text x)) x); [|apply IH].
  cbn [map mkBulletPoint paragraph]. constructor; [apply IH|].
  apply Forall_map.
  eapply Forall_impl; [apply (detectBullets_paragraph ttl (S i) ps)|].
  simpl. intros bp [Hle _]. lia.
Qed.

Lemma classifiedFrom_sorted (i : nat) (ps : list Paragraph) :
  StronglySorted lt (map paragraph (classifiedFrom i ps)).
Proof.
  revert i. induction ps as [|x ps IH]; intros i; cbn [classifiedFrom];
    [constructor|].
  destruct (isEmpty (trim (text x))); [apply IH|].
  destruct (isBulletPoint (trim (text x)) x); [|apply IH].
  cbn [map mkBulletPoint paragraph]. constructor; [apply IH|].
  apply Forall_map.
  eapply Forall_impl; [apply (classifiedFrom_paragraph (S i) ps)|].
  simpl. intros bp [Hle _]. lia.
Qed.

(** X6.  The bullet points come in the order of the document, in both
    revisions: the positions of the paragraphs they refer to increase
    strictly, so that no paragraph yields two bullet points, and each
    bullet point carries the cleaned text and the level of the paragraph at
    that position. *)
Theorem bullet_points_keep_document_order (ttl : jsstring)
    (ps : list Paragraph) :
  StronglySorted lt (map paragraph (detectBullets ttl 0 ps))
  /\ StronglySorted lt
       (map paragraph (bulletPoints (legacyDetect 0 ps legacyScanInit)))
  /\ Forall (fun bp => exists p,
               ps !! paragraph bp = Some p
               /\ bp_text bp = cleanText (trim (text p))
               /\ level bp = inferLevel p)
       (detectBullets ttl 0 ps
        ++ bulletPoints (legacyDetect 0 ps legacyScanInit)).
Proof.
  rewrite (legacyDetect_untitled 0 ps legacyScanInit eq_refl).
  cbn [bulletPoints legacyScanInit app].
  split; [apply detectBullets_sorted|].
  split; [apply classifiedFrom_sorted|].
  assert (Hfrom : forall i, Forall (fun bp => exists p,
               ps !! (paragraph bp - i) = Some p
               /\ bp_text bp = cleanText (trim (text p))
               /\ level bp = inferLevel p)
            (detectBullets ttl i ps)
          /\ Forall (fun bp => exists p,
               ps !! (paragraph bp - i) = Some p
               /\ bp_text bp = cleanText (trim (text p))
               /\ level bp = inferLevel p)
            (classifiedFrom i ps)).
  { induction ps as [|x ps IH]; intros i;
      cbn [detectBullets classifiedFrom]; [split; constructor|].
    assert (Hshift : forall l,
      i < S i ->
      Forall (fun bp => S i <= paragraph bp) l ->
      Forall (fun bp => exists p,
               ps !! (paragraph bp - S i) = Some p
               /\ bp_text bp = cleanText (trim (text p))
               /\ level bp = inferLevel p) l ->
      Forall (fun bp => exists p,
               (x :: ps) !! (paragraph bp - i) = Some p
               /\ bp_text bp = cleanText (trim (text p))
               /\ level bp = inferLevel p) l).
    { intros l _ Hge Hl. rewrite Forall_forall in Hge, Hl.
      apply Forall_forall. intros bp Hbp.
      destruct (Hl bp Hbp) as (p & Hp & Hrest). exists p.
      pose proof (Hge bp Hbp).
      replace (paragraph bp - i) with (S (paragraph bp - S i)) by lia.
      split; [exact Hp|exact Hrest]. }
    destruct (IH (S i)) as [IHd IHc].
    assert (Hd : Forall (fun bp => S i <= paragraph bp)
                   (detectBullets ttl (S i) ps)).
    { eapply Forall_impl; [apply detectBullets_paragraph|].
      simpl. intros bp [H _]. exact H. }
    assert (Hc : Forall (fun bp => S i <= paragraph bp)
                   (classifiedFrom (S i) ps)).
    { eapply Forall_impl; [apply classifiedFrom_paragraph|].
      simpl. intros bp [H _]. exact H. }
    specialize (Hshift _ (Nat.lt_succ_diag_r i) Hd IHd) as Hd'.
    specialize (Hshift _ (Nat.lt_succ_diag_r i) Hc IHc) as Hc'.
    assert (Hhere : exists p,
               (x :: ps) !! (paragraph (mkBulletPoint i (trim (text x)) x) - i)
               = Some p
               /\ bp_text (mkBulletPoint i (trim (text x)) x)
                  = cleanText (trim (text p))
               /\ level (mkBulletPoint i (trim (text x)) x) = inferLevel p).
    { exists x. cbn [mkBulletPoint paragraph bp_text level].
      rewrite Nat.sub_diag. auto. }
    destruct (isEmpty (trim (text x))); [auto|].
    destruct (isBulletPoint (trim (text x)) x);
      destruct (eqb (trim (text x)) ttl); auto. }
  destruct (Hfrom 0) as [Hd Hc]. apply Forall_app. split.
  - eapply Forall_impl; [exact Hd|]. simpl. intros bp (p & Hp & Hrest).
    rewrite Nat.sub_0_r in Hp. eauto.
  - eapply Forall_impl; [exact Hc|]. simpl. intros bp (p & Hp & Hrest).
    rewrite Nat.sub_0_r in Hp. eauto.
Qed.

(** ** When the check calls the evaluation service *)

Lemma flat_map_entry_nil (bps : list BulletPoint) :
  flat_map entry bps = [] <-> Forall (fun bp => entry bp = []) bps.
Proof.
  induction bps as [|bp bps IH]; simpl.
  - split; [constructor|reflexivity].
  - rewrite Forall_cons, <- IH. split.
    + intros H. apply app_eq_nil in H. exact H.
    + intros [-> ->]. reflexivity.
Qed.

Lemma repair_nil (es : list (Z * jsstring)) :
  Forall (fun e => fst e = 0 \/ fst e = 1 \/ fst e = 2)%Z es ->
  repair false false es = [] -> es = [].
Proof.
  destruct es as [|[lv t] es]; [reflexivity|].
  rewrite Forall_cons. intros [Hl _]. simpl in Hl.
  destruct Hl as [->|[->| ->]]; cbn [repair Z.eqb Pos.eqb app]; discriminate.
Qed.

(** The outline is empty exactly when no bullet point is placed. *)
Lemma buildHierarchy_nil (bps : list BulletPoint) :
  buildHierarchy bps = [] <-> Forall (fun bp => entry bp = []) bps.
Proof.
  rewrite <- flat_map_entry_nil.
  pose proof (outline_buildHierarchy bps) as Hout. split.
  - intros H. rewrite H in Hout. symmetry in Hout.
    apply repair_nil in Hout; [exact Hout|apply entry_levels].
  - intros H. rewrite H in Hout.
    destruct (buildHierarchy bps); [reflexivity|discriminate].
Qed.

Lemma detected_entry_nil (ttl : jsstring) (ps : list Paragraph)
    (bp : BulletPoint) :
  bp ∈ detectBullets ttl 0 ps -> (entry bp = [] <-> bp_text bp = []).
Proof.
  intros Hin.
  assert (Hlevel : (0 <= level bp <= 2)%Z).
  { revert Hin. generalize 0. induction ps as [|x ps IH]; intros i;
      cbn [detectBullets]; [rewrite elem_of_nil; tauto|].
    destruct (isEmpty (trim (text x))); [apply IH|].
    destruct (eqb (trim (text x)) ttl); [apply IH|].
    destruct (isBulletPoint (trim (text x)) x); [|apply IH].
    rewrite elem_of_cons. intros [->|H]; [|eapply IH, H].
    cbn [mkBulletPoint level].
    unfold inferLevel. destruct (Qpositive (leftIndent x)) eqn:Hpos; [|lia].
    apply Qpositive_true in Hpos.
    assert (0 <= Qfloor (leftIndent x / 24))%Z; [|lia].
    apply Qfloor_24_ge. apply Qlt_le_weak, Hpos. }
  destruct (entry_cases bp) as [[He [Ht|Hno]]|(He & Ht & _)].
  - tauto.
  - lia.
  - rewrite He. split; [discriminate|congruence].
Qed.

(** X7.  The current [run] calls the evaluation service exactly when some
    detected bullet point has a text.  If none has (no paragraph is
    classified as a bullet, or every bullet is a bare marker), [run] leaves
    the world as it is whatever the service would answer; otherwise the
    request it sends has at least one summary and [run] is what the answer
    of the service to that request makes it. *)
Theorem run_calls_service_iff_some_bullet_has_text (ed : Editor)
    (fetch : BulletPointsRequest -> FetchOutcome) (w : World)
    (titleParagraph : Paragraph) (rest : list Paragraph) :
  paragraphs (document w) = titleParagraph :: rest ->
  (Forall (fun bp => bp_text bp = [])
     (detectBullets (text titleParagraph) 0 (titleParagraph :: rest)) ->
   run ed fetch w = w)
  /\ (Exists (fun bp => bp_text bp <> [])
        (detectBullets (text titleParagraph) 0 (titleParagraph :: rest)) ->
      exists d,
        requestOfRun (paragraphs (document w)) = Some d
        /\ summaries d <> []
        /\ title d = Some (text titleParagraph)
        /\ run ed fetch w
           = match fetch d with
             | Response true (Some responseData) =>
                 reflectResponse ed responseData w
             | _ => w
             end).
Proof.
  intros Hps. unfold run. rewrite Hps. cbn [requestOfRun].
  unfold buildBulletPointsData.
  set (bps := detectBullets (text titleParagraph) 0 (titleParagraph :: rest)).
  assert (Hentry : forall bp, bp ∈ bps -> (entry bp = [] <-> bp_text bp = []))
    by (intros bp; apply detected_entry_nil).
  split.
  - intros Hall.
    assert (Hnil : buildHierarchy bps = []).
    { apply buildHierarchy_nil, Forall_forall. intros bp Hbp.
      apply Hentry; [exact Hbp|].
      rewrite Forall_forall in Hall. apply Hall, Hbp. }
    destruct bps; [reflexivity|]. cbn [summaries]. rewrite Hnil. reflexivity.
  - intros Hex.
    assert (Hne : buildHierarchy bps <> []).
    { intros Hnil. apply buildHierarchy_nil in Hnil.
      apply Exists_exists in Hex. destruct Hex as (bp & Hbp & Ht).
      rewrite Forall_forall in Hnil. apply Ht, (Hentry bp Hbp), Hnil, Hbp. }
    destruct bps as [|bp0 bps'] eqn:Hbps.
    { apply Exists_nil in Hex. destruct Hex. }
    eexists. split; [reflexivity|]. cbn [summaries title].
    split; [exact Hne|]. split; [reflexivity|].
    destruct (buildHierarchy (bp0 :: bps')); [congruence|].
    destruct (fetch _) as [|[|] [r|]]; reflexivity.
Qed.

Lemma run_calls_service_iff_some_bullet_has_text_witness :
  run (paragraphEditor 2) (fun _ => Response true None)
      (worldWith [flush "Title"; flush "•"] [] [])
  = worldWith [flush "Title"; flush "•"] [] [].
Proof.
  destruct (run_calls_service_iff_some_bullet_has_text
              (paragraphEditor 2) (fun _ => Response true None)
              (worldWith [flush "Title"; flush "•"] [] [])
              (flush "Title") [flush "•"] eq_refl) as [Hnone _].
  apply Hnone. repeat constructor.
Defined.

(** ** Text locator: what an answer contains *)

Lemma effectiveSearchText_is_take (t : jsstring) :
  effectiveSearchText t = take maxSearchLength t.
Proof.
  unfold effectiveSearchText, substring0.
  destruct (maxSearchLength <? length t)%nat eqn:H; [reflexivity|].
  apply Nat.ltb_ge in H. symmetry. apply take_ge. exact H.
Qed.

Lemma trim_nil : trim [] = [].
Proof. reflexivity. Qed.

(** X8.  Only the first 255 characters of a search text count: two search
    texts that are not blank and agree on their first 255 characters are
    located alike by the current locator, step and range. *)
Theorem only_first_255_characters_count (ps : list Paragraph)
    (s s' : jsstring) :
  trim s <> [] -> trim s' <> [] ->
  take maxSearchLength s = take maxSearchLength s' ->
  locate ps s = locate ps s'
  /\ length (effectiveSearchText s) <= 255.
Proof.
  intros Hs Hs' Htake.
  assert (Hguard : forall u, trim u <> [] ->
                     isEmpty u || eqb (trim u) [] = false).
  { intros u Hu. apply orb_false_iff. split.
    - apply isEmpty_false. intros ->. apply Hu, trim_nil.
    - apply eqb_false, Hu. }
  split.
  - unfold locate. rewrite (Hguard s Hs), (Hguard s' Hs').
    rewrite !effectiveSearchText_is_take, Htake. reflexivity.
  - rewrite effectiveSearchText_is_take, length_take. unfold maxSearchLength.
    lia.
Qed.

Lemma only_first_255_characters_count_witness :
  locate [flush "abc"] (replicate 255 0x61%N ++ js "x")
  = locate [flush "abc"] (replicate 255 0x61%N ++ js "yz").
Proof.
  apply (only_first_255_characters_count [flush "abc"]
           (replicate 255 0x61%N ++ js "x") (replicate 255 0x61%N ++ js "yz")).
  - vm_compute. discriminate.
  - vm_compute. discriminate.
  - vm_compute. reflexivity.
Defined.

(** The pieces of [split(/\s+/)] are parts of the text. *)
Lemma splitWS_from_part (inSep : bool) (cur s w : jsstring) :
  w ∈ splitWS_from inSep cur s -> exists a c, cur ++ s = a ++ w ++ c.
Proof.
  revert inSep cur. induction s as [|x s IH]; intros inSep cur; simpl.
  - rewrite list_elem_of_singleton. intros ->.
    exists [], []. rewrite !app_nil_r. reflexivity.
  - assert (Hsep : w ∈ splitWS_from true [] s ->
                   exists a c, cur ++ x :: s = a ++ w ++ c).
    { intros H. destruct (IH _ _ H) as (a & c & Hac). simpl in Hac.
      exists (cur ++ x :: a), c. rewrite Hac, <- app_assoc. reflexivity. }
    destruct (isWhiteSpace x).
    + destruct inSep; [exact Hsep|].
      rewrite elem_of_cons. intros [->|H]; [|exact (Hsep H)].
      exists [], (x :: s). reflexivity.
    + intros H. destruct (IH _ _ H) as (a & c & Hac).
      exists a, c. rewrite <- Hac, <- app_assoc. reflexivity.
Qed.

Lemma splitWS_part (t w : jsstring) : w ∈ splitWS t -> includes t w = true.
Proof.
  intros H. apply includes_true.
  destruct (splitWS_from_part false [] t w H) as (a & c & Hac). eauto.
Qed.

Lemma fold_longer (ws : list jsstring) (w0 : jsstring) :
  (fold_left longer ws w0 = w0 \/ fold_left longer ws w0 ∈ ws)
  /\ length w0 <= length (fold_left longer ws w0)
  /\ Forall (fun v => length v <= length (fold_left longer ws w0)) ws.
Proof.
  revert w0. induction ws as [|v ws IH]; intros w0; simpl.
  - split; [auto|]. split; [lia|constructor].
  - destruct (IH (longer w0 v)) as (Hin & Hge & Hall).
    assert (Hl : length w0 <= length (longer w0 v)
                 /\ length v <= length (longer w0 v)
                 /\ (longer w0 v = w0 \/ longer w0 v = v)).
    { unfold longer. destruct (length v <? length w0)%nat eqn:H.
      - apply Nat.ltb_lt in H. split; [lia|]. split; [lia|auto].
      - apply Nat.ltb_ge in H. split; [lia|]. split; [lia|auto]. }
    destruct Hl as (H0 & Hv & Hwhich).
    split; [|split; [lia|constructor; [lia|exact Hall]]].
    destruct Hin as [Heq|Hin].
    + rewrite Heq. destruct Hwhich as [->| ->]; [auto|].
      right. apply list_elem_of_here.
    + right. apply list_elem_of_further, Hin.
Qed.

(** X9.  The word the second step of the current locator looks for is a
    longest one: [reduce] returns a word of the list than which no word of
    the list is longer, and nothing only for the empty list. *)
Theorem longest_word_is_longest (ws : list jsstring) :
  (longestWord ws = None <-> ws = [])
  /\ forall w, longestWord ws = Some w ->
       w ∈ ws /\ Forall (fun v => length v <= length w) ws.
Proof.
  destruct ws as [|w0 ws]; simpl.
  - split; [tauto|discriminate].
  - split; [split; discriminate|]. intros w [= <-].
    destruct (fold_longer ws w0) as (Hin & Hge & Hall).
    split.
    + destruct Hin as [->|Hin];
        [apply list_elem_of_here|apply list_elem_of_further, Hin].
    + constructor; assumption.
Qed.

Lemma longest_word_is_longest_witness :
  js "wxyz" ∈ [js "abcd"; js "ab"; js "wxyz"]
  /\ Forall (fun v => length v <= length (js "wxyz"))
       [js "abcd"; js "ab"; js "wxyz"].
Proof.
  destruct (longest_word_is_longest [js "abcd"; js "ab"; js "wxyz"])
    as [_ H].
  apply H. reflexivity.
Defined.





(** ** Earlier locator: the shortened text and the answers *)

Lemma splitSpace_from_nonempty (cur s : jsstring) : splitSpace_from cur s <> [].
Proof.
  revert cur. induction s as [|x s IH]; intros cur; simpl; [discriminate|].
  destruct (x =? 0x20)%N; [discriminate|apply IH].
Qed.

Lemma join_cons (sep w : jsstring) (ws : list jsstring) :
  ws <> [] -> join sep (w :: ws) = w ++ sep ++ join sep ws.
Proof. destruct ws; [congruence|reflexivity]. Qed.

Lemma join_splitSpace_from (cur s : jsstring) :
  join (js " ") (splitSpace_from cur s) = cur ++ s.
Proof.
  revert cur. induction s as [|x s IH]; intros cur; simpl.
  - rewrite app_nil_r. reflexivity.
  - destruct (x =? 0x20)%N eqn:Hx.
    + apply N.eqb_eq in Hx. subst x.
      rewrite join_cons by apply splitSpace_from_nonempty.
      rewrite IH. reflexivity.
    + rewrite IH, <- app_assoc. reflexivity.
Qed.

Lemma join_take_prefix (sep : jsstring) (ws : list jsstring) (k : nat) :
  join sep (take k ws) `prefix_of` join sep ws.
Proof.
  revert k. induction ws as [|w ws IH]; intros k.
  - rewrite take_nil. reflexivity.
  - destruct k as [|k]; [apply prefix_nil|]. cbn [take].
    destruct ws as [|w' ws]; [rewrite take_nil; reflexivity|].
    rewrite (join_cons sep w (w' :: ws)) by discriminate.
    destruct (take k (w' :: ws)) as [|u us] eqn:Hk.
    + simpl. apply prefix_app_r. reflexivity.
    + rewrite join_cons by discriminate. rewrite <- Hk.
      apply prefix_app, prefix_app, IH.
Qed.

Lemma shortSearchText_prefix (s : jsstring) : shortSearchText s `prefix_of` s.
Proof.
  unfold shortSearchText.
  rewrite <- (join_splitSpace_from [] s) at 3. apply join_take_prefix.
Qed.

Lemma shortSearchText_includes (s : jsstring) :
  includes s (shortSearchText s) = true.
Proof.
  destruct (shortSearchText_prefix s) as [c Hc].
  apply includes_true. exists [], c. exact Hc.
Qed.


(** X11.  Splitting a text at its spaces and joining the pieces with a
    space gives the text back, so the shortened text the earlier locator
    searches for (its first five words) is a beginning of the search
    text. *)
Theorem shortened_text_is_a_beginning (s : jsstring) :
  join (js " ") (splitSpace s) = s
  /\ shortSearchText s `prefix_of` s
  /\ includes s (shortSearchText s) = true.
Proof.
  split; [apply (join_splitSpace_from [] s)|].
  split; [apply shortSearchText_prefix|apply shortSearchText_includes].
Qed.

Example shortened_text_example :
  shortSearchText (js "one two  three four five six") = js "one two  three four".
Proof. reflexivity. Qed.



(** ** Score *)

Lemma scoreOfResponse_not_NaN (f : ScoreField) : isNaN (scoreOfResponse f) = false.
Proof.
  unfold scoreOfResponse.
  destruct f as [| |n|n]; try reflexivity; destruct n; reflexivity.
Qed.

(** X13.  The score shown is never "not a number", and a score that is a
    finite number is shown as the nearest integer, a half going up, and is
    never replaced by the default: for the number [q] the display shows the
    integer [z] with [z - 1/2 <= q < z + 1/2]. *)
Theorem shown_score_is_nearest_integer (w : World) (f : ScoreField) (q : Q) :
  (exists m, scoreDisplay (display (updateScore (scoreOfResponse f) w)) = Some m
             /\ isNaN m = false)
  /\ exists z,
       scoreDisplay (display (updateScore
                                (scoreOfResponse (ScoreNumber (Finite q))) w))
       = Some (Finite (inject_Z z))
       /\ (inject_Z z - (1 # 2) <= q)%Q /\ (q < inject_Z z + (1 # 2))%Q.
Proof.
  split.
  - exists (Math_round (scoreOfResponse f)). split.
    + unfold updateScore, setScore. cbn [display scoreDisplay].
      rewrite scoreOfResponse_not_NaN. reflexivity.
    + pose proof (scoreOfResponse_not_NaN f) as H.
      destruct (scoreOfResponse f); [discriminate|reflexivity..].
  - exists (Qfloor (q + (1 # 2))).
    split; [unfold updateScore, setScore; cbn [display scoreDisplay];
            reflexivity|].
    pose proof (Qfloor_le (q + (1 # 2))) as Hle.
    pose proof (Qlt_floor (q + (1 # 2))) as Hlt.
    rewrite inject_Z_plus in Hlt. change (inject_Z 1) with 1%Q in Hlt.
    split.
    + apply Qplus_le_l with (z := (1 # 2)%Q).
      eapply Qle_trans; [|exact Hle].
      unfold Qminus. rewrite <- Qplus_assoc.
      setoid_replace ((- (1 # 2)) + (1 # 2))%Q with 0%Q using relation Qeq
        by reflexivity.
      rewrite Qplus_0_r. apply Qle_refl.
    + apply Qplus_lt_l with (z := (1 # 2)%Q).
      eapply Qlt_le_trans; [exact Hlt|].
      rewrite <- Qplus_assoc.
      setoid_replace ((1 # 2) + (1 # 2))%Q with 1%Q using relation Qeq
        by reflexivity.
      apply Qle_refl.
Qed.

Example shown_score_examples :
  scoreDisplay (display (updateScore (scoreOfResponse (ScoreNumber (Finite 0)))
                           (worldWith [] [] [])))
  = Some (Finite 0)
  /\ scoreDisplay (display (updateScore
                              (scoreOfResponse (ScoreNumber (Finite (179 # 2))))
                              (worldWith [] [] [])))
     = Some (Finite 90)
  /\ scoreMessage (display (updateScore
                              (scoreOfResponse (ScoreNumber (Finite (179 # 2))))
                              (worldWith [] [] [])))
     = excellentMessage.
Proof. vm_compute. auto. Qed.

(** ** Scope labels and scope buttons *)

Lemma initialScopeFlags_lookup (sc : EvaluationScope) :
  initialScopeFlags !! scopeValue sc = Some false.
Proof. destruct sc; vm_compute; reflexivity. Qed.

Lemma fold_markScope_lookup (rs : list EvaluationResult)
    (m : gmap jsstring bool) (sc : EvaluationScope) :
  fold_left markScope rs m !! scopeValue sc
  = if scopeHasIssues rs sc then Some true else m !! scopeValue sc.
Proof.
  revert m. induction rs as [|r rs IH]; intros m; [reflexivity|].
  cbn [fold_left]. rewrite IH. unfold scopeHasIssues. cbn [existsb].
  fold (scopeHasIssues rs sc).
  destruct (scopeHasIssues rs sc); [rewrite orb_true_r; reflexivity|].
  rewrite orb_false_r. unfold markScope.
  destruct (hasIssues r); [|rewrite andb_false_r; reflexivity].
  rewrite andb_true_r.
  destruct (isMatchingScope (scope r) sc) eqn:Hm.
  - apply isMatchingScope_true in Hm. rewrite Hm.
    apply lookup_insert_eq.
  - rewrite lookup_insert_ne; [reflexivity|].
    intros Heq. apply scopeValue_inj in Heq.
    apply isMatchingScope_true in Heq. congruence.
Qed.

(** X14.  The flag [updateScopeStatus] computes for a scope is the one the
    resolver computes: for every scope the table holds, under the value of
    the scope, whether some result of that scope has a failing criterion. *)
Theorem status_flags_agree_with_resolver (rs : list EvaluationResult)
    (sc : EvaluationScope) :
  statusFlags rs !! scopeValue sc = Some (scopeHasIssues rs sc).
Proof.
  unfold statusFlags. rewrite fold_markScope_lookup, initialScopeFlags_lookup.
  destruct (scopeHasIssues rs sc); reflexivity.
Qed.

Lemma statusId_inj (a b : EvaluationScope) :
  scopeValue a ++ js "-status" = scopeValue b ++ js "-status" -> a = b.
Proof. intros H. apply app_inv_tail in H. apply scopeValue_inj, H. Qed.

Lemma writeStatus_lookup (flags labels : gmap jsstring bool)
    (sc : EvaluationScope) (id : jsstring) :
  writeStatus flags labels sc !! id
  = if bool_decide (id = scopeValue sc ++ js "-status")
    then match labels !! id with
         | Some _ => Some (match flags !! scopeValue sc with
                           | Some true => true
                           | _ => false
                           end)
         | None => None
         end
    else labels !! id.
Proof.
  unfold writeStatus, jsstring in *. case_bool_decide as Hid.
  - subst id. repeat case_match; simplify_eq;
      rewrite ?lookup_insert_eq; congruence.
  - repeat case_match; simplify_eq;
      rewrite ?lookup_insert_ne by congruence; congruence.
Qed.

Lemma fold_writeStatus_other (flags : gmap jsstring bool)
    (scs : list EvaluationScope) (labels : gmap jsstring bool) (id : jsstring) :
  (forall sc, sc ∈ scs -> id <> scopeValue sc ++ js "-status") ->
  fold_left (writeStatus flags) scs labels !! id = labels !! id.
Proof.
  revert labels. induction scs as [|sc scs IH]; intros labels Hid;
    [reflexivity|].
  cbn [fold_left]. rewrite IH.
  - rewrite writeStatus_lookup.
    rewrite bool_decide_eq_false_2; [reflexivity|].
    apply Hid, list_elem_of_here.
  - intros sc' Hsc'. apply Hid, list_elem_of_further, Hsc'.
Qed.

Lemma fold_writeStatus_at (flags : gmap jsstring bool)
    (scs : list EvaluationScope) (labels : gmap jsstring bool)
    (sc : EvaluationScope) :
  NoDup scs -> sc ∈ scs ->
  fold_left (writeStatus flags) scs labels !! (scopeValue sc ++ js "-status")
  = match labels !! (scopeValue sc ++ js "-status") with
    | Some _ => Some (match flags !! scopeValue sc with
                      | Some true => true
                      | _ => false
                      end)
    | None => None
    end.
Proof.
  revert labels. induction scs as [|sc0 scs IH]; intros labels Hnd Hin.
  - apply elem_of_nil in Hin. destruct Hin.
  - apply NoDup_cons in Hnd. destruct Hnd as [Hnotin Hnd].
    cbn [fold_left]. apply elem_of_cons in Hin. destruct Hin as [->|Hin].
    + rewrite fold_writeStatus_other.
      * rewrite writeStatus_lookup, bool_decide_eq_true_2 by reflexivity.
        reflexivity.
      * intros sc' Hsc' Heq. apply statusId_inj in Heq. congruence.
    + rewrite IH by assumption.
      rewrite writeStatus_lookup, bool_decide_eq_false_2; [reflexivity|].
      intros Heq. apply statusId_inj in Heq. congruence.
Qed.

Lemma statusScopes_complete (sc : EvaluationScope) : sc ∈ statusScopes.
Proof. destruct sc; unfold statusScopes; repeat constructor. Qed.

Lemma statusScopes_NoDup : NoDup statusScopes.
Proof.
  unfold statusScopes.
  repeat (constructor; [rewrite ?elem_of_cons, elem_of_nil; intuition discriminate|]).
  constructor.
Qed.

(** X15.  [updateScopeStatus] writes a label only where the page has an
    element whose [id] is the value of a scope followed by "-status": such a
    label then shows whether that scope has an issue, and every other
    element is left as it is.  The labels of the task pane page carry the
    names of the scopes in capitals instead, so that on this page no label
    is ever updated, whatever the results. *)
Theorem status_labels_follow_scope_values (rs : list EvaluationResult)
    (labels : gmap jsstring bool) :
  (forall sc,
     updateScopeStatus rs labels !! (scopeValue sc ++ js "-status")
     = match labels !! (scopeValue sc ++ js "-status") with
       | Some _ => Some (scopeHasIssues rs sc)
       | None => None
       end)
  /\ (forall id,
        (forall sc, id <> scopeValue sc ++ js "-status") ->
        updateScopeStatus rs labels !! id = labels !! id)
  /\ updateScopeStatus rs pageLabels = pageLabels.
Proof.
  assert (Hat : forall ls sc,
     updateScopeStatus rs ls !! (scopeValue sc ++ js "-status")
     = match ls !! (scopeValue sc ++ js "-status") with
       | Some _ => Some (scopeHasIssues rs sc)
       | None => None
       end).
  { intros ls sc. unfold updateScopeStatus.
    rewrite fold_writeStatus_at
      by (apply statusScopes_NoDup || apply statusScopes_complete).
    unfold statusFlags.
    rewrite fold_markScope_lookup, initialScopeFlags_lookup.
    destruct (ls !! _); [|reflexivity].
    destruct (scopeHasIssues rs sc); reflexivity. }
  assert (Hother : forall ls id,
        (forall sc, id <> scopeValue sc ++ js "-status") ->
        updateScopeStatus rs ls !! id = ls !! id).
  { intros ls id Hid. unfold updateScopeStatus.
    apply fold_writeStatus_other. intros sc _. apply Hid. }
  split; [apply Hat|]. split; [apply Hother|].
  apply map_eq. intros id.
  destruct (decide (id ∈ map (fun sc => scopeValue sc ++ js "-status")
                              statusScopes)) as [Hin|Hno].
  - apply list_elem_of_fmap in Hin. destruct Hin as [sc [-> _]].
    rewrite Hat.
    assert (Hnone : pageLabels !! (scopeValue sc ++ js "-status") = None)
      by (destruct sc; vm_compute; reflexivity).
    unfold jsstring in *. rewrite Hnone. reflexivity.
  - apply Hother. intros sc Heq. apply Hno.
    apply list_elem_of_fmap. exists sc. split; [exact Heq|].
    apply statusScopes_complete.
Qed.

(** ** Scope buttons *)

Lemma accepted_attribute_is_no_scope_value (a : jsstring)
    (sc hp : EvaluationScope) :
  scopeOfAttribute a = Some sc -> a <> scopeValue hp.
Proof.
  unfold scopeOfAttribute.
  destruct (eqb a (js "DOCUMENT_WIDE")) eqn:H1.
  { apply eqb_true in H1. intros _. rewrite H1.
    destruct hp; vm_compute; discriminate. }
  destruct (eqb a (js "ALL_SUMMARIES")) eqn:H2.
  { apply eqb_true in H2. intros _. rewrite H2.
    destruct hp; vm_compute; discriminate. }
  destruct (eqb a (js "SUMMARY_PAIRS")) eqn:H3.
  { apply eqb_true in H3. intros _. rewrite H3.
    destruct hp; vm_compute; discriminate. }
  destruct (eqb a (js "SUMMARY_WITH_MESSAGES")) eqn:H4.
  { apply eqb_true in H4. intros _. rewrite H4.
    destruct hp; vm_compute; discriminate. }
  destruct (eqb a (js "MESSAGES_UNDER_SUMMARY")) eqn:H5.
  { apply eqb_true in H5. intros _. rewrite H5.
    destruct hp; vm_compute; discriminate. }
  destruct (eqb a (js "MESSAGE_WITH_BODIES")) eqn:H6.
  { apply eqb_true in H6. intros _. rewrite H6.
    destruct hp; vm_compute; discriminate. }
  discriminate.
Qed.

(** X16.  The click handler of a scope button accepts the names of the
    scopes in capitals, which is what the buttons of the task pane page
    carry, while [showHighestPriorityComments] compares the attribute of a
    button with the value of the scope, which is in small letters: a button
    the click handler accepts is never given the class [active] after a
    check, whatever the scope of highest priority, and of the buttons of the
    page none is. *)
Theorem accepted_button_is_never_activated (a : jsstring)
    (sc hp : EvaluationScope) :
  scopeOfAttribute a = Some sc ->
  isActivated hp (Some a) = false
  /\ activateButtons pageButtons hp = [].
Proof.
  intros Ha. split.
  - unfold isActivated.
    assert (Hne : eqb a (scopeValue hp) = false).
    { eapply eqb_false, accepted_attribute_is_no_scope_value, Ha. }
    rewrite Hne. apply andb_false_r.
  - destruct hp; vm_compute; reflexivity.
Qed.

Lemma accepted_button_is_never_activated_witness :
  scopeOfAttribute (js "DOCUMENT_WIDE") = Some DOCUMENT_WIDE
  /\ isActivated DOCUMENT_WIDE (Some (js "DOCUMENT_WIDE")) = false
  /\ activateButtons pageButtons DOCUMENT_WIDE = [].
Proof.
  split; [vm_compute; reflexivity|].
  apply (accepted_button_is_never_activated
           (js "DOCUMENT_WIDE") DOCUMENT_WIDE DOCUMENT_WIDE).
  vm_compute; reflexivity.
Defined.

(** ** Where the comments of a pass come from *)

Lemma attachedFor_mono (scopeOf : EvaluationResult -> EvaluationScope)
    (rs rs' : list EvaluationResult) (hl hl' : list Range) (c : Comment) :
  (forall r, r ∈ rs -> r ∈ rs') -> (forall x, x ∈ hl -> x ∈ hl') ->
  attachedFor scopeOf rs hl c -> attachedFor scopeOf rs' hl' c.
Proof.
  intros Hrs Hhl (Ha & r & Hr & Hc). split; [auto|]. exists r. auto.
Qed.

Lemma annotateRange_effect (ed : Editor) (sc : EvaluationScope)
    (result : EvaluationResult) (r : Range) (w : World) :
  exists added,
    highlighted (document (fst (annotateRange ed sc result r w)))
    = highlighted (document w) ++ [r]
    /\ comments (document (fst (annotateRange ed sc result r w)))
       = comments (document w) ++ added
    /\ length added <= 1
    /\ Forall (fun c => anchor c = r
                        /\ commentText c = composeComment sc result) added.
Proof.
  unfold annotateRange, addCommentSafely, recordRange.
  destruct (accepts ed r (composeComment sc result)).
  - exists [{| anchor := r; commentText := composeComment sc result |}].
    destruct (issuesCriteria result); cbn [fst];
      (split; [reflexivity|]); (split; [reflexivity|]);
      (split; [simpl; lia|]); repeat constructor.
  - exists []. cbn [fst]. rewrite app_nil_r.
    split; [reflexivity|]. split; [reflexivity|].
    split; [simpl; lia|constructor].
Qed.

Lemma annotateResult_effect (ed : Editor) (sc : EvaluationScope)
    (result : EvaluationResult) (w : World) :
  exists hl added,
    highlighted (document (fst (annotateResult ed sc result w)))
    = highlighted (document w) ++ hl
    /\ comments (document (fst (annotateResult ed sc result w)))
       = comments (document w) ++ added
    /\ length added <= 1
    /\ Forall (fun c => anchor c ∈ hl
                        /\ commentText c = composeComment sc result) added
    /\ sameInputs w (fst (annotateResult ed sc result w)).
Proof.
  assert (Hrange : forall r,
    exists hl added,
      highlighted (document (fst (annotateRange ed sc result r w)))
      = highlighted (document w) ++ hl
      /\ comments (document (fst (annotateRange ed sc result r w)))
         = comments (document w) ++ added
      /\ length added <= 1
      /\ Forall (fun c => anchor c ∈ hl
                          /\ commentText c = composeComment sc result) added
      /\ sameInputs w (fst (annotateRange ed sc result r w))).
  { intros r.
    destruct (annotateRange_effect ed sc result r w)
      as (added & Hh & Hc & Hlen & Hall).
    exists [r], added. repeat (split; [assumption|]).
    split.
    - eapply Forall_impl; [exact Hall|]. intros c [-> Ht].
      split; [apply list_elem_of_here|exact Ht].
    - destruct (annotateRange_spec ed sc result r) as (a & ok & _ & H).
      apply H. }
  assert (Hnothing :
    exists hl added,
      highlighted (document w) = highlighted (document w) ++ hl
      /\ comments (document w) = comments (document w) ++ added
      /\ length added <= 1
      /\ Forall (fun c => anchor c ∈ hl
                          /\ commentText c = composeComment sc result) added
      /\ sameInputs w w).
  { exists [], []. rewrite !app_nil_r. repeat (split; [reflexivity|]).
    split; [simpl; lia|]. split; [constructor|apply sameInputs_refl]. }
  unfold annotateResult.
  destruct (bool_decide (sc = ALL_SUMMARIES)
            && eqb (target_text result) (pageTitle (display w))).
  - destruct (paragraphs (document w)); [exact Hnothing|apply Hrange].
  - destruct (findTextInDocument _ _); [apply Hrange|exact Hnothing].
Qed.

Lemma annotateAll_effect (ed : Editor)
    (scopeOf : EvaluationResult -> EvaluationScope)
    (rs : list EvaluationResult) (w : World) :
  exists hl added,
    highlighted (document (fst (annotateAll ed scopeOf rs w)))
    = highlighted (document w) ++ hl
    /\ comments (document (fst (annotateAll ed scopeOf rs w)))
       = comments (document w) ++ added
    /\ length added <= length rs
    /\ Forall (attachedFor scopeOf rs hl) added.
Proof.
  revert w. induction rs as [|result rest IH]; intros w.
  - exists [], []. simpl. rewrite !app_nil_r.
    split; [reflexivity|]. split; [reflexivity|]. split; [lia|constructor].
  - destruct (annotateResult_effect ed (scopeOf result) result w)
      as (hl1 & added1 & Hh1 & Hc1 & Hlen1 & Hall1 & _).
    cbn [annotateAll].
    destruct (annotateResult ed (scopeOf result) result w) as [w1 ok].
    cbn [fst] in Hh1, Hc1.
    assert (Hfirst : Forall (attachedFor scopeOf (result :: rest) hl1) added1).
    { eapply Forall_impl; [exact Hall1|]. intros c [Ha Ht].
      split; [exact Ha|]. exists result. split; [apply list_elem_of_here|exact Ht]. }
    destruct ok.
    + destruct (IH w1) as (hl2 & added2 & Hh2 & Hc2 & Hlen2 & Hall2).
      exists (hl1 ++ hl2), (added1 ++ added2).
      rewrite Hh2, Hh1, Hc2, Hc1, <- !app_assoc.
      repeat (split; [reflexivity|]).
      split; [rewrite length_app; simpl; lia|].
      apply Forall_app. split.
      * eapply Forall_impl; [exact Hfirst|]. intros c.
        apply attachedFor_mono; [auto|].
        intros x Hx. apply elem_of_app. auto.
      * eapply Forall_impl; [exact Hall2|]. intros c.
        apply attachedFor_mono.
        -- intros r Hr. apply list_elem_of_further, Hr.
        -- intros x Hx. apply elem_of_app. auto.
    + exists hl1, added1. cbn [fst].
      repeat (split; [assumption|]).
      split; [simpl; lia|exact Hfirst].
Qed.

Lemma matching_and_failing (sc : EvaluationScope) (r : EvaluationResult) :
  Is_true (isMatchingScope (scope r) sc && hasIssues r)
  <-> scope r = sc /\ hasIssues r = true.
Proof.
  rewrite Is_true_true, andb_true_iff, isMatchingScope_true. reflexivity.
Qed.

Lemma filterCommentsByScope_effect (ed : Editor) (sc : EvaluationScope)
    (w : World) :
  exists hl added,
    highlighted (document (filterCommentsByScope ed sc w))
    = highlighted (document w) ++ hl
    /\ comments (document (filterCommentsByScope ed sc w))
       = match evaluationResults (session w) with
         | [] => comments (document w)
         | _ :: _ => cleared ed (comments (document w))
         end ++ added
    /\ length added
       <= length (filter (fun r => scope r = sc /\ hasIssues r = true)
                    (evaluationResults (session w)))
    /\ Forall (attachedFor (fun _ => sc)
                 (filter (fun r => scope r = sc /\ hasIssues r = true)
                    (evaluationResults (session w))) hl) added.
Proof.
  rewrite <- (list_filter_iff _ _ _ (matching_and_failing sc)).
  unfold filterCommentsByScope.
  destruct (evaluationResults (session w)) as [|r0 rs'] eqn:Hrs.
  { exists [], []. rewrite !app_nil_r.
    split; [reflexivity|]. split; [reflexivity|]. split; [simpl; lia|constructor]. }
  cbn [removeAllComments setComments session evaluationResults].
  rewrite Hrs.
  destruct (filter (fun r => Is_true (isMatchingScope (scope r) sc && hasIssues r))
              (r0 :: rs')) as [|r1 rs1] eqn:Hfilter.
  { exists [], []. rewrite !app_nil_r.
    split; [reflexivity|]. split; [reflexivity|]. split; [simpl; lia|constructor]. }
  destruct (annotateAll_effect ed (fun _ => sc) (r1 :: rs1)
              (setCommentRanges ∅ (removeAllComments ed w)))
    as (hl & added & Hh & Hc & Hlen & Hall).
  exists hl, added.
  destruct (annotateAll ed (fun _ => sc) (r1 :: rs1)
              (setCommentRanges ∅ (removeAllComments ed w))) as [w2 ok].
  cbn [fst] in Hh, Hc.
  assert (Hdoc : document (if ok then setActiveScope (Some sc) w2 else w2)
                 = document w2) by (destruct ok; reflexivity).
  rewrite Hdoc. auto.
Qed.

Lemma showAllComments_effect (ed : Editor) (w : World) :
  exists hl added,
    highlighted (document (showAllComments ed w))
    = highlighted (document w) ++ hl
    /\ comments (document (showAllComments ed w))
       = match evaluationResults (session w) with
         | [] => comments (document w)
         | _ :: _ => cleared ed (comments (document w))
         end ++ added
    /\ length added
       <= length (filter (fun r => hasIssues r = true)
                    (evaluationResults (session w)))
    /\ Forall (attachedFor scope
                 (filter (fun r => hasIssues r = true)
                    (evaluationResults (session w))) hl) added.
Proof.
  rewrite <- (list_filter_iff (fun r => Is_true (hasIssues r)) _ _
                (fun r => Is_true_true (hasIssues r))).
  unfold showAllComments.
  destruct (evaluationResults (session w)) as [|r0 rs'] eqn:Hrs.
  { exists [], []. rewrite !app_nil_r.
    split; [reflexivity|]. split; [reflexivity|]. split; [simpl; lia|constructor]. }
  cbn [removeAllComments setComments session evaluationResults].
  rewrite Hrs.
  destruct (filter (fun r => Is_true (hasIssues r)) (r0 :: rs'))
    as [|r1 rs1] eqn:Hfilter.
  { exists [], []. rewrite !app_nil_r.
    split; [reflexivity|]. split; [reflexivity|]. split; [simpl; lia|constructor]. }
  apply (annotateAll_effect ed scope (r1 :: rs1)
           (setCommentRanges ∅ (removeAllComments ed w))).
Qed.

(** X17.  The comments a pass attaches come from the results that failed:
    after the clearing, [filterCommentsByScope] attaches at most one comment
    for each result of the requested scope with a failing criterion, and
    each comment it attaches carries the text composed for such a result
    and sits on a range the pass has highlighted; [showAllComments] does the
    same for the results with a failing criterion of every scope, each
    comment headed by the scope of its result. *)
Theorem attached_comments_come_from_failing_results (ed : Editor)
    (sc : EvaluationScope) (w : World) :
  (exists added,
     comments (document (filterCommentsByScope ed sc w))
     = match evaluationResults (session w) with
       | [] => comments (document w)
       | _ :: _ => cleared ed (comments (document w))
       end ++ added
     /\ length added
        <= length (filter (fun r => scope r = sc /\ hasIssues r = true)
                     (evaluationResults (session w)))
     /\ Forall (fun c =>
          anchor c ∈ highlighted (document (filterCommentsByScope ed sc w))
          /\ exists r, r ∈ evaluationResults (session w)
                       /\ scope r = sc /\ hasIssues r = true
                       /\ commentText c = composeComment sc r) added)
  /\ (exists added,
        comments (document (showAllComments ed w))
        = match evaluationResults (session w) with
          | [] => comments (document w)
          | _ :: _ => cleared ed (comments (document w))
          end ++ added
        /\ length added
           <= length (filter (fun r => hasIssues r = true)
                        (evaluationResults (session w)))
        /\ Forall (fun c =>
             anchor c ∈ highlighted (document (showAllComments ed w))
             /\ exists r, r ∈ evaluationResults (session w)
                          /\ hasIssues r = true
                          /\ commentText c = composeComment (scope r) r) added).
Proof.
  split.
  - destruct (filterCommentsByScope_effect ed sc w)
      as (hl & added & Hh & Hc & Hlen & Hall).
    exists added. split; [exact Hc|]. split; [exact Hlen|].
    eapply Forall_impl; [exact Hall|].
    intros c (Ha & r & Hr & Ht). split.
    + rewrite Hh. apply elem_of_app. auto.
    + apply list_elem_of_filter in Hr. destruct Hr as [[Hsc Hi] Hr].
      exists r. auto.
  - destruct (showAllComments_effect ed w)
      as (hl & added & Hh & Hc & Hlen & Hall).
    exists added. split; [exact Hc|]. split; [exact Hlen|].
    eapply Forall_impl; [exact Hall|].
    intros c (Ha & r & Hr & Ht). split.
    + rewrite Hh. apply elem_of_app. auto.
    + apply list_elem_of_filter in Hr. destruct Hr as [Hi Hr].
      exists r. auto.
Qed.

Lemma showHighestPriorityComments_effect (ed : Editor) (w : World) :
  exists hl, highlighted (document (showHighestPriorityComments ed w))
             = highlighted (document w) ++ hl.
Proof.
  unfold showHighestPriorityComments.
  destruct (evaluationResults (session w)).
  { exists []. rewrite app_nil_r. reflexivity. }
  destruct (highestPriorityScope _) as [sc|].
  - destruct (filterCommentsByScope_effect ed sc w) as (hl & _ & Hh & _).
    exists hl. exact Hh.
  - destruct (showAllComments_effect ed w) as (hl & _ & Hh & _).
    exists hl. exact Hh.
Qed.

(** X18.  The script never takes a highlight away: clearing the comments
    leaves the highlighted ranges as they are, and a pass over the results,
    the choice of the scope of highest priority and a whole check only add
    to them, so that the ranges highlighted for an earlier set of results
    stay highlighted. *)
Theorem highlights_are_never_removed (ed : Editor)
    (fetch : BulletPointsRequest -> FetchOutcome) (sc : EvaluationScope)
    (w : World) :
  highlighted (document (removeAllComments ed w)) = highlighted (document w)
  /\ highlighted (document w)
       `prefix_of` highlighted (document (showAllComments ed w))
  /\ highlighted (document w)
       `prefix_of` highlighted (document (filterCommentsByScope ed sc w))
  /\ highlighted (document w)
       `prefix_of` highlighted (document (showHighestPriorityComments ed w))
  /\ highlighted (document w)
       `prefix_of` highlighted (document (run ed fetch w)).
Proof.
  split; [reflexivity|].
  split.
  { destruct (showAllComments_effect ed w) as (hl & _ & Hh & _).
    exists hl. exact Hh. }
  split.
  { destruct (filterCommentsByScope_effect ed sc w) as (hl & _ & Hh & _).
    exists hl. exact Hh. }
  split.
  { apply showHighestPriorityComments_effect. }
  unfold run.
  destruct (requestOfRun _) as [d|]; [|reflexivity].
  destruct (summaries d); [reflexivity|].
  destruct (fetch d) as [|[|] [resp|]]; try reflexivity.
  unfold reflectResponse.
  destruct (eqb (status resp) (js "success")); [|reflexivity].
  apply (showHighestPriorityComments_effect ed
           (removeAllComments ed
              (setEvaluationResults (results resp)
                 (updateScore (scoreOfResponse (score resp))
                    (setLastCheckResults (Some resp) w))))).
Qed.

(** ** Passes with nothing to show *)

Lemma scopeHasIssues_false_filter (rs : list EvaluationResult)
    (sc : EvaluationScope) :
  scopeHasIssues rs sc = false ->
  filter (fun r => Is_true (isMatchingScope (scope r) sc && hasIssues r)) rs
  = [].
Proof.
  unfold scopeHasIssues. intros H. apply filter_none, Forall_forall.
  intros r Hr Ht. apply Is_true_true in Ht.
  assert (Hex : existsb (fun r => isMatchingScope (scope r) sc && hasIssues r)
                  rs = true).
  { apply existsb_exists. exists r. split; [apply list_elem_of_In, Hr|exact Ht]. }
  congruence.
Qed.

Lemma nothing_failing_scope (rs : list EvaluationResult)
    (sc : EvaluationScope) :
  Forall (fun r => hasIssues r = false) rs -> scopeHasIssues rs sc = false.
Proof.
  intros Hall. unfold scopeHasIssues.
  destruct (existsb _ rs) eqn:Hex; [|reflexivity].
  apply existsb_exists in Hex. destruct Hex as (r & Hr & H).
  apply andb_true_iff in H. destruct H as [_ Hi].
  rewrite Forall_forall in Hall.
  rewrite (Hall r) in Hi by (apply list_elem_of_In, Hr). discriminate.
Qed.

(** X19.  A pass that finds nothing to show only clears.  When results are
    held and none of the requested scope has a failing criterion,
    [filterCommentsByScope] is [removeAllComments]: the comments are
    deleted, those of the other scopes too, and neither the active scope
    nor the recorded ranges change.  When no result at all has a failing
    criterion, [showAllComments] and [showHighestPriorityComments] are
    [removeAllComments] as well. *)
Theorem pass_with_nothing_to_show_only_clears (ed : Editor)
    (sc : EvaluationScope) (w : World) :
  evaluationResults (session w) <> [] ->
  (scopeHasIssues (evaluationResults (session w)) sc = false ->
   filterCommentsByScope ed sc w = removeAllComments ed w)
  /\ (Forall (fun r => hasIssues r = false) (evaluationResults (session w)) ->
      showAllComments ed w = removeAllComments ed w
      /\ showHighestPriorityComments ed w = removeAllComments ed w).
Proof.
  intros Hne.
  assert (Hfilter : scopeHasIssues (evaluationResults (session w)) sc = false ->
                    filterCommentsByScope ed sc w = removeAllComments ed w).
  { intros Hsc. unfold filterCommentsByScope.
    destruct (evaluationResults (session w)) as [|r0 rs'] eqn:Hrs;
      [congruence|].
    cbn [removeAllComments setComments session evaluationResults].
    rewrite Hrs, (scopeHasIssues_false_filter _ _ Hsc). reflexivity. }
  split; [exact Hfilter|].
  intros Hall.
  assert (Hshow : showAllComments ed w = removeAllComments ed w).
  { unfold showAllComments.
    destruct (evaluationResults (session w)) as [|r0 rs'] eqn:Hrs;
      [congruence|].
    cbn [removeAllComments setComments session evaluationResults].
    rewrite Hrs, filter_none; [reflexivity|].
    eapply Forall_impl; [exact Hall|].
    intros r Hr Ht. apply Is_true_true in Ht. congruence. }
  split; [exact Hshow|].
  unfold showHighestPriorityComments.
  destruct (evaluationResults (session w)) as [|r0 rs'] eqn:Hrs;
    [congruence|].
  assert (Hnone : highestPriorityScope (r0 :: rs') = None).
  { apply firstWithIssues_None, Forall_forall.
    intros s _. apply nothing_failing_scope, Hall. }
  rewrite Hnone. exact Hshow.
Qed.

Lemma pass_with_nothing_to_show_only_clears_witness :
  let w := worldWith [flush "Title"; flush "• Summary A"]
             [{| anchor := ParagraphRange 1; commentText := js "old" |}]
             [{| target_text := js "Summary A"; scope := SUMMARY_PAIRS;
                 criteria_results :=
                   [{| criteria := CONJUNCTION_VALIDITY; has_issues := false;
                       issues := [] |}] |}] in
  filterCommentsByScope (paragraphEditor 2) SUMMARY_PAIRS w
  = removeAllComments (paragraphEditor 2) w
  /\ showHighestPriorityComments (paragraphEditor 2) w
     = removeAllComments (paragraphEditor 2) w.
Proof.
  intros w.
  destruct (pass_with_nothing_to_show_only_clears
              (paragraphEditor 2) SUMMARY_PAIRS w) as [Hfilter Hshow].
  - discriminate.
  - split.
    + apply Hfilter. reflexivity.
    + apply Hshow. repeat constructor.
Defined.

(** ** What a check records *)

Lemma annotateAll_lastCheckResults (ed : Editor)
    (scopeOf : EvaluationResult -> EvaluationScope)
    (rs : list EvaluationResult) (w : World) :
  lastCheckResults (session (fst (annotateAll ed scopeOf rs w)))
  = lastCheckResults (session w).
Proof.
  revert w. induction rs as [|result rest IH]; intros w; [reflexivity|].
  cbn [annotateAll].
  assert (H1 : lastCheckResults
                 (session (fst (annotateResult ed (scopeOf result) result w)))
               = lastCheckResults (session w)).
  { assert (Hrange : forall r,
      lastCheckResults
        (session (fst (annotateRange ed (scopeOf result) result r w)))
      = lastCheckResults (session w)).
    { intros r. unfold annotateRange, addCommentSafely, recordRange.
      destruct (accepts ed r _); [|reflexivity].
      destruct (issuesCriteria result); reflexivity. }
    unfold annotateResult.
    destruct (_ && _).
    - destruct (paragraphs (document w)); [reflexivity|apply Hrange].
    - destruct (findTextInDocument _ _); [apply Hrange|reflexivity]. }
  destruct (annotateResult ed (scopeOf result) result w) as [w1 ok].
  cbn [fst] in H1. destruct ok; [|exact H1].
  rewrite IH. exact H1.
Qed.

Lemma showHighestPriorityComments_lastCheckResults (ed : Editor) (w : World) :
  lastCheckResults (session (showHighestPriorityComments ed w))
  = lastCheckResults (session w).
Proof.
  unfold showHighestPriorityComments.
  destruct (evaluationResults (session w)) as [|r0 rs'] eqn:Hrs;
    [reflexivity|].
  destruct (highestPriorityScope _) as [sc|].
  - unfold filterCommentsByScope. rewrite Hrs.
    destruct (filter _ _) as [|r1 rs1]; [reflexivity|].
    pose proof (annotateAll_lastCheckResults ed (fun _ => sc) (r1 :: rs1)
                  (setCommentRanges ∅ (removeAllComments ed w))) as H.
    destruct (annotateAll ed (fun _ => sc) (r1 :: rs1)
                (setCommentRanges ∅ (removeAllComments ed w))) as [w2 ok].
    cbn [fst] in H. destruct ok; exact H.
  - unfold showAllComments. rewrite Hrs.
    destruct (filter _ _) as [|r1 rs1]; [reflexivity|].
    apply (annotateAll_lastCheckResults ed scope (r1 :: rs1)
             (setCommentRanges ∅ (removeAllComments ed w))).
Qed.

(** X20.  A check whose response arrives and parses records it: afterwards
    the session holds the response as the last one and its results as the
    results the passes work on, whatever its status, and the paragraphs of
    the document are those of before.  When the status of the response is
    not "success", the document is left as it is: no comment is deleted or
    attached and nothing is highlighted. *)
Theorem check_records_the_response (ed : Editor)
    (fetch : BulletPointsRequest -> FetchOutcome) (w : World)
    (d : BulletPointsRequest) (responseData : EvaluationResponse) :
  requestOfRun (paragraphs (document w)) = Some d ->
  summaries d <> [] ->
  fetch d = Response true (Some responseData) ->
  lastCheckResults (session (run ed fetch w)) = Some responseData
  /\ evaluationResults (session (run ed fetch w)) = results responseData
  /\ paragraphs (document (run ed fetch w)) = paragraphs (document w)
  /\ (status responseData <> js "success" ->
      document (run ed fetch w) = document w).
Proof.
  intros Hreq Hsum Hfetch. unfold run. rewrite Hreq.
  destruct (summaries d); [congruence|].
  rewrite Hfetch. unfold reflectResponse.
  set (w3 := setEvaluationResults (results responseData)
               (updateScore (scoreOfResponse (score responseData))
                  (setLastCheckResults (Some responseData) w))).
  destruct (eqb (status responseData) (js "success")) eqn:Hst.
  - destruct (showHighestPriorityComments_sameInputs ed
                (removeAllComments ed w3)) as (Hp & He & _).
    split; [rewrite showHighestPriorityComments_lastCheckResults; reflexivity|].
    split; [rewrite He; reflexivity|].
    split; [rewrite Hp; reflexivity|].
    apply eqb_true in Hst. congruence.
  - repeat split.
Qed.

Lemma check_records_the_response_witness :
  let resp := {| status := js "error"; message := [];
                 results := [failing "Summary A" DOCUMENT_WIDE
                               RHETORICAL_EXPRESSION];
                 score := ScoreNull |} in
  let w := worldWith [flush "Title"; flush "• Summary A"]
             [{| anchor := ParagraphRange 1; commentText := js "old" |}] [] in
  evaluationResults (session (run (paragraphEditor 2)
                                (fun _ => Response true (Some resp)) w))
  = results resp
  /\ document (run (paragraphEditor 2)
                 (fun _ => Response true (Some resp)) w)
     = document w.
Proof.
  intros resp w.
  edestruct (check_records_the_response (paragraphEditor 2)
               (fun _ => Response true (Some resp)) w)
    as (_ & Hres & _ & Hdoc).
  - vm_compute. reflexivity.
  - vm_compute. discriminate.
  - reflexivity.
  - split; [exact Hres|]. apply Hdoc. vm_compute. discriminate.
Defined.

(** ** The annotation of the earlier revision *)

Lemma legacyHighlight_loop (ed : Editor) (titleParagraph : option nat)
    (rs : list EvaluationResult) (w : LegacyDocument) :
  fold_left (legacyHighlightResult ed titleParagraph) rs w
  = {| l_document :=
         {| paragraphs := paragraphs (l_document w);
            comments := comments (l_document w);
            highlighted :=
              highlighted (l_document w)
              ++ flat_map (legacyHighlightOf ed titleParagraph
                             (paragraphs (l_document w))) rs |};
       redText := redText w |}.
Proof.
  revert w. induction rs as [|result rest IH]; intros [[ps cs hs] red].
  - cbn [fold_left flat_map]. rewrite app_nil_r. reflexivity.
  - cbn [fold_left flat_map]. rewrite IH.
    unfold legacyHighlightResult, legacyHighlightOf.
    cbn [l_document paragraphs comments highlighted redText].
    destruct (issuesCriteria result); [reflexivity|].
    destruct (if bool_decide (scope result = ALL_SUMMARIES)
              then titleParagraph else None).
    + cbn [legacyHighlight l_document paragraphs comments highlighted redText].
      rewrite <- app_assoc. reflexivity.
    + destruct (legacyFindTextInDocument ed (target_text result) (Some ps)).
      * cbn [legacyHighlight l_document paragraphs comments highlighted
             redText option_list].
        rewrite <- app_assoc. reflexivity.
      * cbn [l_document paragraphs comments highlighted redText option_list].
        reflexivity.
Qed.

Lemma legacyComment_loop (ed : Editor) (rs : list EvaluationResult)
    (w : LegacyDocument) :
  fold_left (legacyCommentResult ed) rs w
  = {| l_document :=
         {| paragraphs := paragraphs (l_document w);
            comments :=
              comments (l_document w)
              ++ flat_map (legacyCommentOf ed (paragraphs (l_document w))) rs;
            highlighted := highlighted (l_document w) |};
       redText :=
         redText w ++ flat_map (legacyRedOf ed (paragraphs (l_document w))) rs |}.
Proof.
  revert w. induction rs as [|result rest IH]; intros [[ps cs hs] red].
  - cbn [fold_left flat_map]. rewrite !app_nil_r. reflexivity.
  - cbn [fold_left flat_map]. rewrite IH.
    unfold legacyCommentResult, legacyCommentOf, legacyRedOf,
      legacyAddCommentSafely.
    cbn [l_document paragraphs comments highlighted redText].
    destruct (issuesCriteria result); [reflexivity|].
    destruct (legacyFindTextInDocument ed (target_text result) (Some ps))
      as [r|]; [|reflexivity].
    destruct (accepts ed r (safeCommentText (legacyComposeComment result)));
      cbn [legacyRedden l_document paragraphs comments highlighted redText];
      rewrite <- ?app_assoc; reflexivity.
Qed.

(** What the two loops make of a document. *)
Lemma legacyAnnotate_spec (ed : Editor) (titleParagraph : option nat)
    (rs : list EvaluationResult) (w : LegacyDocument) :
  legacyAnnotate ed titleParagraph rs w
  = {| l_document :=
         {| paragraphs := paragraphs (l_document w);
            comments :=
              comments (l_document w)
              ++ flat_map (legacyCommentOf ed (paragraphs (l_document w))) rs;
            highlighted :=
              highlighted (l_document w)
              ++ flat_map (legacyHighlightOf ed titleParagraph
                             (paragraphs (l_document w))) rs |};
       redText :=
         redText w ++ flat_map (legacyRedOf ed (paragraphs (l_document w))) rs |}.
Proof.
  unfold legacyAnnotate.
  rewrite legacyComment_loop, legacyHighlight_loop. reflexivity.
Qed.

(** The comments and marks a check of the earlier revision adds depend on
    the paragraphs alone, which it leaves as they are. *)
Lemma legacyRun_spec (ed : Editor) (fetch : BulletPointsRequest -> FetchOutcome)
    (ps : list Paragraph) :
  exists rs,
    (forall r, r ∈ rs ->
       exists responseData,
         fetch (legacyRequest ps) = Response true (Some responseData)
         /\ status responseData = js "success"
         /\ r ∈ results responseData)
    /\ forall w, paragraphs (l_document w) = ps ->
      legacyRun ed fetch w
      = {| l_document :=
             {| paragraphs := ps;
                comments :=
                  comments (l_document w) ++ flat_map (legacyCommentOf ed ps) rs;
                highlighted :=
                  highlighted (l_document w)
                  ++ flat_map (legacyHighlightOf ed
                                 (titleParagraph (legacyDetect 0 ps legacyScanInit))
                                 ps) rs |};
           redText := redText w ++ flat_map (legacyRedOf ed ps) rs |}.
Proof.
  assert (Hsame : forall w, paragraphs (l_document w) = ps ->
    w = {| l_document :=
             {| paragraphs := ps;
                comments := comments (l_document w) ++ flat_map (legacyCommentOf ed ps) [];
                highlighted :=
                  highlighted (l_document w)
                  ++ flat_map (legacyHighlightOf ed
                                 (titleParagraph (legacyDetect 0 ps legacyScanInit))
                                 ps) [] |};
           redText := redText w ++ flat_map (legacyRedOf ed ps) [] |}).
  { intros [[ps' cs hs] red] Hps. cbn in Hps. subst ps'.
    cbn [flat_map l_document paragraphs comments highlighted redText].
    rewrite !app_nil_r. reflexivity. }
  assert (Hnone : forall r : EvaluationResult, r ∈ [] ->
    exists responseData,
      fetch (legacyRequest ps) = Response true (Some responseData)
      /\ status responseData = js "success"
      /\ r ∈ results responseData).
  { intros r Hr. apply elem_of_nil in Hr. destruct Hr. }
  destruct (summaries (legacyRequest ps)) as [|s0 ss] eqn:Hsum.
  { exists []. split; [exact Hnone|]. intros w Hps. unfold legacyRun.
    rewrite Hps, Hsum. apply Hsame, Hps. }
  destruct (fetch (legacyRequest ps)) as [|[|] [responseData|]] eqn:Hfetch;
    try (exists []; split; [exact Hnone|]; intros w Hps; unfold legacyRun;
         rewrite Hps, Hsum, Hfetch; apply Hsame, Hps).
  destruct (eqb (status responseData) (js "success")) eqn:Hst.
  - exists (results responseData). split.
    { intros r Hr. exists responseData. apply eqb_true in Hst. auto. }
    intros w Hps. unfold legacyRun.
    rewrite Hps, Hsum, Hfetch, Hst, legacyAnnotate_spec, Hps. reflexivity.
  - exists []. split; [exact Hnone|]. intros w Hps. unfold legacyRun.
    rewrite Hps, Hsum, Hfetch, Hst. apply Hsame, Hps.
Qed.

Lemma safeCommentText_length (t : jsstring) :
  length (safeCommentText t) <= 507.
Proof.
  unfold safeCommentText, substring0, maxCommentLength.
  destruct (500 <? length t)%nat eqn:H.
  - rewrite length_app, length_take.
    change (length (js "...（省略）")) with 7. lia.
  - apply Nat.ltb_ge in H. lia.
Qed.

Lemma legacyCommentOf_short (ed : Editor) (ps : list Paragraph)
    (rs : list EvaluationResult) :
  Forall (fun c => length (commentText c) <= 507
                   /\ exists r, r ∈ rs /\ issuesCriteria r <> []
                        /\ commentText c = safeCommentText (legacyComposeComment r)
                        /\ legacyFindTextInDocument ed (target_text r) (Some ps)
                           = Some (anchor c))
    (flat_map (legacyCommentOf ed ps) rs).
Proof.
  apply Forall_forall. intros c Hc.
  apply list_elem_of_In, in_flat_map in Hc. destruct Hc as (r & Hr & Hc).
  apply list_elem_of_In in Hr. unfold legacyCommentOf in Hc.
  destruct (issuesCriteria r) eqn:Hi; [destruct Hc|].
  destruct (legacyFindTextInDocument ed (target_text r) (Some ps)) as [rg|] eqn:Hf;
    [|destruct Hc].
  destruct (accepts ed rg _); [|destruct Hc].
  destruct Hc as [<-|[]]. cbn [commentText anchor].
  split; [apply safeCommentText_length|].
  exists r. rewrite Hi. repeat split; auto.
Qed.

(** X21.  The earlier revision cuts what it attaches: a text of at most 500
    characters is attached as it is, and a longer one is replaced by its
    first 500 characters followed by a mark of 7, so that every comment a
    check adds has at most 507 characters and is the text composed for a
    result with a failing criterion, cut in this way, on the range the
    locator answers for the target text of that result.  The comments that
    were there are all kept, before the added ones. *)
Theorem legacy_comments_are_cut (ed : Editor)
    (fetch : BulletPointsRequest -> FetchOutcome) (w : LegacyDocument) :
  (forall t,
     take 500 (safeCommentText t) = take 500 t
     /\ (length t <= 500 -> safeCommentText t = t)
     /\ (500 < length t -> length (safeCommentText t) = 507))
  /\ exists added,
       comments (l_document (legacyRun ed fetch w))
       = comments (l_document w) ++ added
       /\ Forall (fun c =>
            length (commentText c) <= 507
            /\ exists responseData r,
                 fetch (legacyRequest (paragraphs (l_document w)))
                 = Response true (Some responseData)
                 /\ r ∈ results responseData /\ issuesCriteria r <> []
                 /\ commentText c = safeCommentText (legacyComposeComment r)
                 /\ legacyFindTextInDocument ed (target_text r)
                      (Some (paragraphs (l_document w)))
                    = Some (anchor c)) added.
Proof.
  split.
  - intros t. unfold safeCommentText, substring0, maxCommentLength.
    destruct (500 <? length t)%nat eqn:H.
    + apply Nat.ltb_lt in H. split.
      * rewrite take_app_le by (rewrite length_take; lia).
        rewrite take_take. reflexivity.
      * split; [lia|]. intros _.
        rewrite length_app, length_take.
        change (length (js "...（省略）")) with 7. lia.
    + apply Nat.ltb_ge in H. split; [reflexivity|]. split; [reflexivity|lia].
  - destruct (legacyRun_spec ed fetch (paragraphs (l_document w)))
      as (rs & Hrs & H).
    exists (flat_map (legacyCommentOf ed (paragraphs (l_document w))) rs).
    rewrite (H w eq_refl). cbn [l_document comments].
    split; [reflexivity|].
    eapply Forall_impl; [apply legacyCommentOf_short|].
    intros c (Hlen & r & Hr & Hi & Ht & Hf). split; [exact Hlen|].
    destruct (Hrs r Hr) as (responseData & Hfetch & _ & Hin).
    exists responseData, r. auto.
Qed.

(** X22.  The earlier revision never clears: a check appends its comments,
    highlights and red marks to those of the document, and what it appends
    depends on the paragraphs alone, which it leaves as they are.  So a
    second check with the same editor and service attaches every comment of
    the first once more. *)
Theorem legacy_check_twice_doubles_the_comments (ed : Editor)
    (fetch : BulletPointsRequest -> FetchOutcome) (w : LegacyDocument) :
  exists added,
    comments (l_document (legacyRun ed fetch w))
    = comments (l_document w) ++ added
    /\ comments (l_document (legacyRun ed fetch (legacyRun ed fetch w)))
       = comments (l_document w) ++ added ++ added
    /\ paragraphs (l_document (legacyRun ed fetch w))
       = paragraphs (l_document w)
    /\ highlighted (l_document w)
         `prefix_of` highlighted (l_document (legacyRun ed fetch w))
    /\ redText w `prefix_of` redText (legacyRun ed fetch w).
Proof.
  destruct (legacyRun_spec ed fetch (paragraphs (l_document w)))
    as (rs & _ & H).
  exists (flat_map (legacyCommentOf ed (paragraphs (l_document w))) rs).
  pose proof (H w eq_refl) as H1.
  assert (Hps : paragraphs (l_document (legacyRun ed fetch w))
                = paragraphs (l_document w)) by (rewrite H1; reflexivity).
  split; [rewrite H1; reflexivity|].
  split.
  { rewrite (H (legacyRun ed fetch w) Hps). cbn [l_document comments].
    rewrite H1. cbn [l_document comments]. rewrite <- app_assoc. reflexivity. }
  split; [exact Hps|].
  rewrite H1. cbn [l_document highlighted redText].
  split; eexists; reflexivity.
Qed.

(** X23.  In the earlier revision every result with a failing criterion
    whose target text is located leaves a mark where it was located: the
    comment composed for it, cut to length, or, when the editor refuses the
    comment, the text in red.  The highlight is on the same range, except
    for a result of the scope of all summaries when a title paragraph was
    met: then the title is highlighted instead, while the comment stays
    where the text was located. *)
Theorem legacy_failing_result_leaves_a_mark (ed : Editor)
    (titleParagraph : option nat) (rs : list EvaluationResult)
    (w : LegacyDocument) (r : EvaluationResult) (rg : Range) :
  r ∈ rs ->
  issuesCriteria r <> [] ->
  legacyFindTextInDocument ed (target_text r)
    (Some (paragraphs (l_document w))) = Some rg ->
  ((exists c,
      c ∈ comments (l_document (legacyAnnotate ed titleParagraph rs w))
      /\ anchor c = rg
      /\ commentText c = safeCommentText (legacyComposeComment r))
   \/ rg ∈ redText (legacyAnnotate ed titleParagraph rs w))
  /\ match titleParagraph with
     | Some i =>
         if bool_decide (scope r = ALL_SUMMARIES)
         then ParagraphRange i
                ∈ highlighted (l_document (legacyAnnotate ed titleParagraph rs w))
         else rg ∈ highlighted (l_document (legacyAnnotate ed titleParagraph rs w))
     | None =>
         rg ∈ highlighted (l_document (legacyAnnotate ed titleParagraph rs w))
     end.
Proof.
  intros Hr Hi Hf. rewrite legacyAnnotate_spec.
  cbn [l_document comments highlighted redText].
  destruct (issuesCriteria r) as [|cr crs] eqn:Hcr; [congruence|].
  split.
  - destruct (accepts ed rg (safeCommentText (legacyComposeComment r))) eqn:Hacc.
    + left.
      exists {| anchor := rg;
                commentText := safeCommentText (legacyComposeComment r) |}.
      split; [|split; reflexivity].
      apply elem_of_app. right.
      apply list_elem_of_In, in_flat_map. exists r.
      split; [apply list_elem_of_In, Hr|].
      unfold legacyCommentOf. rewrite Hcr, Hf, Hacc. left. reflexivity.
    + right. apply elem_of_app. right.
      apply list_elem_of_In, in_flat_map. exists r.
      split; [apply list_elem_of_In, Hr|].
      unfold legacyRedOf. rewrite Hcr, Hf, Hacc. left. reflexivity.
  - assert (Hin : forall x,
      In x (legacyHighlightOf ed titleParagraph (paragraphs (l_document w)) r) ->
      x ∈ highlighted (l_document w)
          ++ flat_map (legacyHighlightOf ed titleParagraph
                         (paragraphs (l_document w))) rs).
    { intros x Hx. apply elem_of_app. right.
      apply list_elem_of_In, in_flat_map. exists r.
      split; [apply list_elem_of_In, Hr|exact Hx]. }
    unfold legacyHighlightOf in Hin. rewrite Hcr, Hf in Hin.
    destruct titleParagraph as [i|].
    + destruct (bool_decide (scope r = ALL_SUMMARIES));
        apply Hin; left; reflexivity.
    + apply Hin.
      destruct (bool_decide (scope r = ALL_SUMMARIES)); left; reflexivity.
Qed.

Lemma legacy_failing_result_leaves_a_mark_witness :
  let r := failing "Summary A" ALL_SUMMARIES SCQA_PRESENCE in
  let w := legacyDocumentOf [flush "Title"; flush "Summary A"] in
  (exists c,
     c ∈ comments (l_document (legacyAnnotate (paragraphEditor 2) (Some 0) [r] w))
     /\ anchor c = ParagraphRange 1
     /\ commentText c = safeCommentText (legacyComposeComment r))
  /\ ParagraphRange 0
       ∈ highlighted (l_document
                        (legacyAnnotate (paragraphEditor 2) (Some 0) [r] w)).
Proof.
  intros r w.
  destruct (legacy_failing_result_leaves_a_mark (paragraphEditor 2) (Some 0)
              [r] w r (ParagraphRange 1)) as [[Hc|Hred] Hh].
  - apply list_elem_of_here.
  - vm_compute. discriminate.
  - vm_compute. reflexivity.
  - split; [exact Hc|exact Hh].
  - exfalso. revert Hred. vm_compute. intros H.
    inversion H.
Defined.


(** ** Keywords *)

(** X24.  The keywords of a text are words of the text, each a part of it,
    of at least three characters and none of them a common word; no keyword
    is listed twice, and every word of the text that qualifies is among
    them. *)
Theorem keywords_are_the_qualifying_words (t : jsstring) :
  NoDup (extractKeywords t)
  /\ Forall (fun k => k ∈ splitWS t /\ includes t k = true
                      /\ 3 <= length k /\ k ∉ commonWords)
       (extractKeywords t)
  /\ Forall (fun k => 3 <= length k /\ k ∉ commonWords ->
                      k ∈ extractKeywords t)
       (splitWS t).
Proof.
  destruct (extractKeywords_spec t) as [Hnd Hk].
  split; [exact Hnd|]. split.
  - apply Forall_forall. intros k Hin. apply Hk in Hin.
    destruct Hin as (Hw & Hlen & Hc).
    split; [exact Hw|]. split; [apply splitWS_part, Hw|]. auto.
  - apply Forall_forall. intros k Hw [Hlen Hc]. apply Hk. auto.
Qed.

(** ** Clearing *)

(** X25.  [removeAllComments] only deletes, and it does not tell the
    comments of the add-in from others: what it leaves is a part of the
    comments that were there, in their order; clearing again changes
    nothing; and when the wild-card search reaches every paragraph, no
    comment attached to a paragraph is left, whatever its text. *)
Theorem clearing_deletes_every_paragraph_comment (ed : Editor) (w : World) :
  covers ed (paragraphs (document w)) ->
  comments (document (removeAllComments ed w))
    `sublist_of` comments (document w)
  /\ removeAllComments ed (removeAllComments ed w) = removeAllComments ed w
  /\ Forall (fun c => ~ onParagraph (paragraphs (document w)) c)
       (comments (document (removeAllComments ed w))).
Proof.
  intros Hcov.
  assert (Hc : comments (document (removeAllComments ed w))
               = cleared ed (comments (document w))) by reflexivity.
  split; [|split].
  - rewrite Hc. unfold cleared. rewrite fold_deleteMeeting.
    apply sublist_filter.
  - pose proof (cleared_idempotent ed (comments (document w))) as Hid.
    unfold cleared in Hid. unfold removeAllComments, setComments.
    cbn [document comments paragraphs highlighted session display].
    rewrite Hid. reflexivity.
  - rewrite Hc. unfold cleared. rewrite fold_deleteMeeting.
    apply Forall_forall. intros c Hin (i & Ha & Hi).
    apply list_elem_of_filter in Hin. destruct Hin as [Hall _].
    destruct (Hcov i Hi) as (hit & Hhit & Hmeets).
    rewrite Forall_forall in Hall. apply (Hall hit Hhit).
    rewrite Ha, Hmeets. exact I.
Qed.

Lemma clearing_deletes_every_paragraph_comment_witness :
  comments (document
    (removeAllComments (paragraphEditor 2)
       (worldWith [flush "Title"; flush "• Summary A"]
          [{| anchor := ParagraphRange 1; commentText := js "a note" |}] [])))
    `sublist_of` [{| anchor := ParagraphRange 1; commentText := js "a note" |}]
  /\ Forall (fun c => ~ onParagraph [flush "Title"; flush "• Summary A"] c)
       (comments (document
          (removeAllComments (paragraphEditor 2)
             (worldWith [flush "Title"; flush "• Summary A"]
                [{| anchor := ParagraphRange 1; commentText := js "a note" |}]
                [])))).
Proof.
  destruct (clearing_deletes_every_paragraph_comment (paragraphEditor 2)
              (worldWith [flush "Title"; flush "• Summary A"]
                 [{| anchor := ParagraphRange 1; commentText := js "a note" |}]
                 [])) as (Hsub & _ & Hall).
  - intros i Hi. exists (ParagraphRange i). simpl in Hi.
    destruct i as [|[|i]]; [| |lia].
    + split; [apply list_elem_of_here|reflexivity].
    + split; [apply list_elem_of_further, list_elem_of_here|reflexivity].
  - split; [exact Hsub|exact Hall].
Defined.
